(** * BoilerPlate: SMASH layers and the mixture-of-softmaxes Wide ResNet

    A shallow embedding of [layers.py] and [Models/WRN_MOS.py].

    Tensors carry real entries: every statement below is about the exact
    arithmetic the code denotes, not about its rounding.  A tensor is a shape
    together with a function from multi-indices to entries; entries outside
    the shape are never read by a well-shaped operation.  Framework calls
    that can fail (shape mismatch, a bare [nn.Module] being called, a failed
    [assert], ...) return a [result]. *)

From Stdlib Require Import Reals Lra Lia List ZArith QArith Qreals String Bool Arith PeanoNat.
From Stdlib Require Import FunctionalExtensionality.
From Stdlib Require DecimalString.
Import ListNotations.

Open Scope R_scope.

(** ** Outcomes of a call *)

(** The exceptions of Python that the code can raise, the framework's
    [RuntimeError] on mismatched sizes, and division by zero. *)
Inductive failure : Type :=
| PyTypeError
| PyAssertionError
| PyNotImplementedError
| PyAttributeError
| PyIndexError
| PyValueError
| PyZeroDivisionError
| TorchShapeError
(* What [.cuda()] raises on a machine without a CUDA device (an
   [AssertionError] or a [RuntimeError], by the build of the framework). *)
| CudaUnavailable
(* Not an exception of the framework: IEEE division gives nan or inf
   entries there.  No real number is the quotient, so the model stops. *)
| DivisionByZero.

Inductive result (A : Type) : Type :=
| Ok (a : A)
| Fail (e : failure).

Arguments Ok {A} a.
Arguments Fail {A} e.

Definition bind {A B : Type} (c : result A) (k : A -> result B) : result B :=
  match c with
  | Ok a => k a
  | Fail e => Fail e
  end.

Notation "x <- c ;; k" := (bind c (fun x => k))
  (at level 61, c at next level, right associativity).

(** ** Tensors *)

Record Tensor : Type := mkT { shape : list nat; val : list nat -> R }.

(** [in_range sh idx]: the multi-index [idx] addresses an entry of a tensor
    of shape [sh]. *)
Definition in_range (sh idx : list nat) : Prop := Forall2 lt idx sh.

Fixpoint sum_n (n : nat) (f : nat -> R) : R :=
  match n with
  | O => 0
  | S k => sum_n k f + f k
  end.

(** Sum of [f] over every multi-index of the shape [sh]. *)
Fixpoint tsum (sh : list nat) (f : list nat -> R) : R :=
  match sh with
  | [] => f []
  | d :: sh' => sum_n d (fun i => tsum sh' (fun idx => f (i :: idx)))
  end.

Fixpoint any_n (n : nat) (p : nat -> bool) : bool :=
  match n with
  | O => false
  | S k => any_n k p || p k
  end.

Fixpoint tany (sh : list nat) (p : list nat -> bool) : bool :=
  match sh with
  | [] => p []
  | d :: sh' => any_n d (fun i => tany sh' (fun idx => p (i :: idx)))
  end.

Definition numel (sh : list nat) : nat := fold_right Nat.mul 1%nat sh.

Definition tmap (f : R -> R) (t : Tensor) : Tensor :=
  mkT (shape t) (fun idx => f (val t idx)).

Definition Rzerob (x : R) : bool := if Req_dec_T x 0 then true else false.

(** *** Broadcasting, as [torch] does it for binary elementwise operators:
    shapes are aligned on the right; two sizes agree when they are equal or
    one of them is 1. *)

Fixpoint broadcast_rev (a b : list nat) : option (list nat) :=
  match a, b with
  | [], _ => Some b
  | _, [] => Some a
  | x :: a', y :: b' =>
      match broadcast_rev a' b' with
      | None => None
      | Some r =>
          if (x =? y)%nat then Some (x :: r)
          else if (x =? 1)%nat then Some (y :: r)
          else if (y =? 1)%nat then Some (x :: r)
          else None
      end
  end.

Definition broadcast (a b : list nat) : option (list nat) :=
  option_map (@rev nat) (broadcast_rev (rev a) (rev b)).

Fixpoint bidx_aligned (sh idx : list nat) : list nat :=
  match sh, idx with
  | d :: sh', i :: idx' => (if (d =? 1)%nat then O else i) :: bidx_aligned sh' idx'
  | _, _ => []
  end.

(** The entry of an operand of shape [sh] read at index [idx] of the
    broadcast result. *)
Definition bidx (sh idx : list nat) : list nat :=
  bidx_aligned sh (skipn (List.length idx - List.length sh) idx).

Definition binop (f : R -> R -> R) (a b : Tensor) : result Tensor :=
  match broadcast (shape a) (shape b) with
  | Some sh =>
      Ok (mkT sh (fun idx => f (val a (bidx (shape a) idx))
                              (val b (bidx (shape b) idx))))
  | None => Fail TorchShapeError
  end.

Definition tadd : Tensor -> Tensor -> result Tensor := binop Rplus.
Definition tmul : Tensor -> Tensor -> result Tensor := binop Rmult.

(** [a / b].  The quotient is a real tensor only when no divisor entry is
    zero. *)
Definition tdiv (a b : Tensor) : result Tensor :=
  match broadcast (shape a) (shape b) with
  | Some sh =>
      if tany sh (fun idx => Rzerob (val b (bidx (shape b) idx)))
      then Fail DivisionByZero
      else Ok (mkT sh (fun idx => val a (bidx (shape a) idx)
                                  / val b (bidx (shape b) idx)))
  | None => Fail TorchShapeError
  end.

(** Multiplication of every entry by a scalar, [c * w]. *)
Definition tscale (c : R) (t : Tensor) : Tensor := tmap (Rmult c) t.

(** *** Activations ([torch.nn.functional]) *)

Definition relu (x : R) : R := Rmax 0 x.
Definition sigmoid (x : R) : R := 1 / (1 + exp (- x)).

Definition F_relu : Tensor -> Tensor := tmap relu.
Definition F_tanh : Tensor -> Tensor := tmap tanh.
Definition F_sigmoid : Tensor -> Tensor := tmap sigmoid.
Definition torch_log : Tensor -> Tensor := tmap ln.

(** *** Indexing along dimension 1 *)

(** A slice bound of Python, normalised against a dimension of size [n]:
    a negative bound counts from the end, and the bound is clamped to
    [0..n]. *)
Definition slice_bound (n : Z) (b : option Z) (dflt : Z) : Z :=
  match b with
  | None => dflt
  | Some v => Z.max 0 (Z.min n (if (v <? 0)%Z then (v + n)%Z else v))
  end.

Definition slice_len (start stop step : Z) : nat :=
  if (start <? stop)%Z then Z.to_nat ((stop - start + step - 1) / step) else O.

(** [t[:, start:stop:step]] with [step > 0]. *)
Definition slice_dim1 (t : Tensor) (start stop : option Z) (step : nat)
  : result Tensor :=
  match shape t with
  | n :: c :: rest =>
      let s := slice_bound (Z.of_nat c) start 0 in
      let e := slice_bound (Z.of_nat c) stop (Z.of_nat c) in
      Ok (mkT (n :: slice_len s e (Z.of_nat step) :: rest)
              (fun idx =>
                 match idx with
                 | i :: j :: r => val t (i :: (Z.to_nat s + j * step)%nat :: r)
                 | _ => 0
                 end))
  | _ => Fail PyIndexError
  end.

(** [t[:, i]] for a non-negative [i]. *)
Definition select_dim1 (t : Tensor) (i : nat) : result Tensor :=
  match shape t with
  | n :: c :: rest =>
      if (i <? c)%nat then
        Ok (mkT (n :: rest)
                (fun idx =>
                   match idx with
                   | a :: r => val t (a :: i :: r)
                   | [] => 0
                   end))
      else Fail PyIndexError
  | _ => Fail PyIndexError
  end.

(** [t.unsqueeze(1)]. *)
Definition unsqueeze1 (t : Tensor) : result Tensor :=
  match shape t with
  | n :: rest =>
      Ok (mkT (n :: 1%nat :: rest)
              (fun idx =>
                 match idx with
                 | a :: _ :: r => val t (a :: r)
                 | _ => 0
                 end))
  | [] => Fail PyIndexError
  end.

(** [t.sum(1)]. *)
Definition sum_dim1 (t : Tensor) : result Tensor :=
  match shape t with
  | n :: c :: rest =>
      Ok (mkT (n :: rest)
              (fun idx =>
                 match idx with
                 | a :: r => sum_n c (fun j => val t (a :: j :: r))
                 | [] => 0
                 end))
  | _ => Fail PyIndexError
  end.

Definition list_eqb (a b : list nat) : bool :=
  if list_eq_dec Nat.eq_dec a b then true else false.

(** [torch.stack(ts, 1)]: the operands must agree in shape. *)
Definition stack_dim1 (ts : list Tensor) : result Tensor :=
  match ts with
  | [] => Fail TorchShapeError
  | t0 :: _ =>
      match shape t0 with
      | n :: rest =>
          if forallb (fun t => list_eqb (shape t) (shape t0)) ts then
            Ok (mkT (n :: List.length ts :: rest)
                    (fun idx =>
                       match idx with
                       | a :: j :: r => val (nth j ts t0) (a :: r)
                       | _ => 0
                       end))
          else Fail TorchShapeError
      | [] => Fail PyIndexError
      end
  end.


(** [F.softmax(t)] without a [dim]: the framework normalises along
    dimension 0 for tensors of rank 0, 1 and 3 and along dimension 1
    otherwise. *)
Definition F_softmax (t : Tensor) : result Tensor :=
  match shape t with
  | [] => Ok (mkT [] (fun idx => exp (val t idx) / exp (val t idx)))
  | [c] =>
      Ok (mkT [c] (fun idx =>
                     exp (val t idx) / sum_n c (fun k => exp (val t [k]))))
  | [c; h; w] =>
      Ok (mkT [c; h; w]
              (fun idx =>
                 exp (val t idx)
                 / sum_n c (fun k => exp (val t (k :: tl idx)))))
  | n :: c :: rest =>
      Ok (mkT (n :: c :: rest)
              (fun idx =>
                 exp (val t idx)
                 / sum_n c (fun k => exp (val t (hd O idx :: k :: tl (tl idx))))))
  end.

(** *** Convolution, normalisation, pooling ([torch.nn.functional]) *)

(** Entry [(n, c, hh - pH, ww - pW)] of [x], or 0 in the zero padding. *)
Definition padded (x : Tensor) (H W pH pW n c hh ww : nat) : R :=
  if ((pH <=? hh) && (hh - pH <? H) && (pW <=? ww) && (ww - pW <? W))%nat
  then val x [n; c; (hh - pH)%nat; (ww - pW)%nat]
  else 0.

(** Output size of a convolution along one axis: input size [i], kernel
    [k], stride [s], padding [p], dilation [d]. *)
Definition conv_out (i k s p d : nat) : nat :=
  ((i + 2 * p - d * (k - 1) - 1) / s + 1)%nat.

Definition conv_axis_ok (i k : nat) (s p d : Z) : bool :=
  (0 <? s)%Z && (0 <=? p)%Z && (0 <? d)%Z && (0 <? k)%nat
  && (Z.to_nat d * (k - 1) + 1 <=? i + 2 * Z.to_nat p)%nat.

Definition bias_at (b : option Tensor) (co : nat) : R :=
  match b with
  | Some t => val t [co]
  | None => 0
  end.

Definition bias_ok (b : option Tensor) (Cout : nat) : bool :=
  match b with
  | Some t => list_eqb (shape t) [Cout]
  | None => true
  end.

(** [t.unsqueeze(0)] and [t.squeeze(0)] on a tensor whose first dimension
    has size 1. *)
Definition unsqueeze0 (t : Tensor) : Tensor :=
  mkT (1%nat :: shape t) (fun idx => val t (tl idx)).
Definition squeeze0 (t : Tensor) : Tensor :=
  mkT (tl (shape t)) (fun idx => val t (O :: idx)).

(** [F.conv2d] on a batch: an input of shape (N, Cin, H, W).  The framework
    refuses an input without channels and a weight without output
    channels. *)
Definition conv2d_batched (input weight : Tensor) (bias : option Tensor)
  (stride padding dilation : Z * Z) (groups : nat) : result Tensor :=
  match shape input, shape weight with
  | [N; Cin; H; W], [Cout; Cg; kH; kW] =>
      if (0 <? groups)%nat && (0 <? Cin)%nat && (0 <? Cout)%nat
         && (Cin mod groups =? 0)%nat
         && (Cout mod groups =? 0)%nat && (Cg =? Cin / groups)%nat
         && bias_ok bias Cout
         && conv_axis_ok H kH (fst stride) (fst padding) (fst dilation)
         && conv_axis_ok W kW (snd stride) (snd padding) (snd dilation)
      then
        let sH := Z.to_nat (fst stride) in
        let sW := Z.to_nat (snd stride) in
        let pH := Z.to_nat (fst padding) in
        let pW := Z.to_nat (snd padding) in
        let dH := Z.to_nat (fst dilation) in
        let dW := Z.to_nat (snd dilation) in
        Ok (mkT [N; Cout; conv_out H kH sH pH dH; conv_out W kW sW pW dW]
                (fun idx =>
                   match idx with
                   | [n; co; i; j] =>
                       bias_at bias co
                       + sum_n Cg (fun ci =>
                           sum_n kH (fun a =>
                             sum_n kW (fun b =>
                               val weight [co; ci; a; b]
                               * padded input H W pH pW n
                                   (co / (Cout / groups) * Cg + ci)%nat
                                   (i * sH + a * dH)%nat
                                   (j * sW + b * dW)%nat)))
                   | _ => 0
                   end))
      else Fail TorchShapeError
  | _, _ => Fail TorchShapeError
  end.

(** [F.conv2d(input, weight, bias, stride, padding, dilation, groups)].  An
    input of rank 3 is one unbatched image (Cin, H, W): it is convolved as
    a batch of one, and the result has rank 3. *)
Definition conv2d (input weight : Tensor) (bias : option Tensor)
  (stride padding dilation : Z * Z) (groups : nat) : result Tensor :=
  match shape input with
  | [_; _; _] =>
      y <- conv2d_batched (unsqueeze0 input) weight bias stride padding
             dilation groups ;;
      Ok (squeeze0 y)
  | _ => conv2d_batched input weight bias stride padding dilation groups
  end.

(** [F.avg_pool2d(x, (kH, kW))]: the stride defaults to the window. *)
Definition avg_pool2d (x : Tensor) (k : nat * nat) : result Tensor :=
  match shape x with
  | [N; C; H; W] =>
      let '(kH, kW) := k in
      if ((0 <? kH) && (0 <? kW) && (kH <=? H) && (kW <=? W))%nat then
        Ok (mkT [N; C; ((H - kH) / kH + 1)%nat; ((W - kW) / kW + 1)%nat]
                (fun idx =>
                   match idx with
                   | [n; c; i; j] =>
                       sum_n kH (fun a =>
                         sum_n kW (fun b =>
                           val x [n; c; (i * kH + a)%nat; (j * kW + b)%nat]))
                       / INR (kH * kW)
                   | _ => 0
                   end))
      else Fail TorchShapeError
  | _ => Fail TorchShapeError
  end.

(** Row-major multi-index of the [k]-th entry of a tensor of shape [sh]. *)
Fixpoint unravel (sh : list nat) (k : nat) : list nat :=
  match sh with
  | [] => []
  | _ :: sh' => (k / numel sh')%nat :: unravel sh' (k mod numel sh')
  end.

(** [t.view(-1, c)]. *)
Definition view_rows (t : Tensor) (c : nat) : result Tensor :=
  if ((0 <? c) && (numel (shape t) mod c =? 0))%nat then
    Ok (mkT [(numel (shape t) / c)%nat; c]
            (fun idx =>
               match idx with
               | [r; j] => val t (unravel (shape t) (r * c + j))
               | _ => 0
               end))
  else Fail TorchShapeError.

Definition Qlt_bool (a b : Q) : bool := negb (Qle_bool b a).

(** [F.dropout(x, p, training)].  The rate [p] is a rational configuration
    value.  The Bernoulli draws are an argument: [keep idx] tells whether
    entry [idx] survives. *)
Definition F_dropout (x : Tensor) (p : Q) (training : bool)
  (keep : list nat -> bool) : result Tensor :=
  if Qlt_bool p 0 || Qlt_bool 1 p then Fail PyValueError
  else if training then
    Ok (mkT (shape x)
            (fun idx => if keep idx then val x idx / (1 - Q2R p) else 0))
  else Ok x.

(** ** Framework modules ([torch.nn]) *)

(** Whether a module runs in training mode ([nn.Module.training]). *)
Definition Mode := bool.

Record Conv2d : Type := mkConv2d {
  in_channels : nat;
  out_channels : nat;
  kernel_size : nat * nat;
  conv_stride : Z * Z;
  conv_padding : Z * Z;
  conv_dilation : Z * Z;
  conv_groups : nat;
  conv_weight : Tensor;
  conv_bias : option Tensor
}.

(** [nn.Conv2d(n_in, n_out, kernel_size, stride, padding, dilation, groups,
    bias)].  The weight tensor has shape
    [(n_out, n_in / groups, kH, kW)]; [w] and [b] give its current entries
    and those of the bias.  The constructor checks the group count
    ([ValueError]); a negative kernel size is refused when the weight tensor
    is allocated ([RuntimeError]). *)
Definition nn_Conv2d (n_in n_out : nat) (ks st pd dl : Z * Z) (g : nat)
  (w : list nat -> R) (b : option (list nat -> R)) : result Conv2d :=
  if (g =? 0)%nat then Fail PyValueError
  else if negb ((n_in mod g =? 0)%nat && (n_out mod g =? 0)%nat)
  then Fail PyValueError
  else if ((fst ks <? 0) || (snd ks <? 0))%Z then Fail TorchShapeError
  else
    Ok (mkConv2d n_in n_out (Z.to_nat (fst ks), Z.to_nat (snd ks)) st pd dl g
          (mkT [n_out; (n_in / g)%nat; Z.to_nat (fst ks); Z.to_nat (snd ks)] w)
          (option_map (mkT [n_out]) b)).

Definition Conv2d_forward (m : Conv2d) (x : Tensor) : result Tensor :=
  conv2d x (conv_weight m) (conv_bias m)
         (conv_stride m) (conv_padding m) (conv_dilation m) (conv_groups m).

Record BatchNorm2d : Type := mkBatchNorm2d {
  num_features : nat;
  bn_weight : list nat -> R;
  bn_bias : list nat -> R;
  running_mean : list nat -> R;
  running_var : list nat -> R;
  bn_eps : R
}.

(** [nn.BatchNorm2d.forward].  The module first demands an input of rank
    4 ([ValueError]).  In training mode the statistics are those of the
    batch, per channel, and the framework refuses a batch that holds a
    single value per channel ([ValueError]: expected more than 1 value per
    channel when training); otherwise the statistics are the stored running
    ones.  Only then are the channels compared with the size of the module,
    and an input without channels is refused.  (The update of the running
    statistics in training mode is not tracked: no forward pass below reads
    it back.) *)
Definition BatchNorm2d_forward (m : BatchNorm2d) (training : Mode)
  (x : Tensor) : result Tensor :=
  match shape x with
  | [N; C; H; W] =>
      if training && (N * H * W =? 1)%nat then Fail PyValueError
      else if negb (C =? num_features m)%nat || (C =? 0)%nat
      then Fail TorchShapeError
      else
        let cnt := INR (N * H * W) in
        let mean c :=
          if training then
            sum_n N (fun n => sum_n H (fun h => sum_n W (fun w =>
              val x [n; c; h; w]))) / cnt
          else running_mean m [c] in
        let var c :=
          if training then
            sum_n N (fun n => sum_n H (fun h => sum_n W (fun w =>
              (val x [n; c; h; w] - mean c) * (val x [n; c; h; w] - mean c))))
            / cnt
          else running_var m [c] in
        Ok (mkT [N; C; H; W]
                (fun idx =>
                   match idx with
                   | [n; c; h; w] =>
                       (val x idx - mean c) / sqrt (var c + bn_eps m)
                       * bn_weight m [c] + bn_bias m [c]
                   | _ => 0
                   end))
  | _ => Fail PyValueError
  end.

Record Linear : Type := mkLinear {
  in_features : nat;
  out_features : nat;
  lin_weight : list nat -> R;
  lin_bias : list nat -> R
}.

Definition Linear_forward (m : Linear) (x : Tensor) : result Tensor :=
  match shape x with
  | [N; K] =>
      if (K =? in_features m)%nat then
        Ok (mkT [N; out_features m]
                (fun idx =>
                   match idx with
                   | [n; j] =>
                       sum_n K (fun k => val x [n; k] * lin_weight m [j; k])
                       + lin_bias m [j]
                   | _ => 0
                   end))
      else Fail TorchShapeError
  | _ => Fail TorchShapeError
  end.

(** *** The state of the learnable parameters and buffers

    A module is built at a state [theta] of its parameters: the entries of
    every weight, bias and running statistic, addressed by the path of the
    module that owns it.  Construction fixes shapes; the optimiser only
    moves [theta]. *)

Inductive ModuleKind : Type := KConv | KBatchNorm | KLinear.
Inductive ParamName : Type := Weight | Bias | RunningMean | RunningVar.

Definition ParamStore : Type :=
  list string -> ModuleKind -> ParamName -> list nat -> R.

(** The store seen by the child [name] of a module. *)
Definition child (name : string) (theta : ParamStore) : ParamStore :=
  fun path => theta (name :: path).

(** [nn.BatchNorm2d(n)]; [eps] is the framework's default, 1e-5. *)
Definition nn_BatchNorm2d (n : nat) (theta : ParamStore) : BatchNorm2d :=
  mkBatchNorm2d n (theta [] KBatchNorm Weight) (theta [] KBatchNorm Bias)
    (theta [] KBatchNorm RunningMean) (theta [] KBatchNorm RunningVar)
    (1 / 100000).

Definition nn_Linear (n_in n_out : nat) (theta : ParamStore) : Linear :=
  mkLinear n_in n_out (theta [] KLinear Weight) (theta [] KLinear Bias).

Definition pair2 (z : Z) : Z * Z := (z, z).

Fixpoint mapM {A B : Type} (f : A -> result B) (l : list A)
  : result (list B) :=
  match l with
  | [] => Ok []
  | a :: r => b <- f a ;; bs <- mapM f r ;; Ok (b :: bs)
  end.

(** Decimal name of a child of [nn.Sequential] or [nn.ModuleList]. *)
Definition str_of_nat (n : nat) : string :=
  DecimalString.NilZero.string_of_uint (Nat.to_uint n).

(** ** layers.py *)

(** *** ESL, EML, CL: the three wrappers and their construction

    The classes of the file that matter for [super]: each wrapper derives
    from [nn.Module] alone. *)

Inductive PyClass : Type :=
| cls_object | cls_Module | cls_ESL | cls_EML | cls_CL.

Definition PyClass_eqb (a b : PyClass) : bool :=
  match a, b with
  | cls_object, cls_object | cls_Module, cls_Module
  | cls_ESL, cls_ESL | cls_EML, cls_EML | cls_CL, cls_CL => true
  | _, _ => false
  end.

(** Method resolution order. *)
Definition mro (c : PyClass) : list PyClass :=
  match c with
  | cls_object => [cls_object]
  | cls_Module => [cls_Module; cls_object]
  | cls_ESL => [cls_ESL; cls_Module; cls_object]
  | cls_EML => [cls_EML; cls_Module; cls_object]
  | cls_CL => [cls_CL; cls_Module; cls_object]
  end.

Definition Callable : Type := Tensor -> result Tensor.

(** An instance of one of the wrappers.  [ob_ready] records that
    [nn.Module.__init__] has run, which attribute assignment of a
    sub-module requires. *)
Record Wrapper : Type := mkWrapper {
  ob_class : PyClass;
  ob_ready : bool;
  ob_module : option Callable
}.

Definition isinstance (self : Wrapper) (c : PyClass) : bool :=
  existsb (PyClass_eqb c) (mro (ob_class self)).

(** The class that follows [c] in the resolution order [l]. *)
Fixpoint next_in_mro (c : PyClass) (l : list PyClass) : option PyClass :=
  match l with
  | [] => None
  | x :: r => if PyClass_eqb c x then hd_error r else next_in_mro c r
  end.

Definition Module_init (self : Wrapper) : result Wrapper :=
  Ok (mkWrapper (ob_class self) true (ob_module self)).

(** [super(c, self).__init__()]: Python demands that [self] be an instance
    of [c], then runs the initialiser of the class after [c] in the
    resolution order of [type(self)]. *)
Definition super_init (c : PyClass) (self : Wrapper) : result Wrapper :=
  if isinstance self c then
    match next_in_mro c (mro (ob_class self)) with
    | Some cls_Module => Module_init self
    | Some cls_object => Ok self
    | _ => Fail PyTypeError
    end
  else Fail PyTypeError.

(** [self.module = module] on an [nn.Module]. *)
Definition set_module (self : Wrapper) (module : Callable) : result Wrapper :=
  if ob_ready self then Ok (mkWrapper (ob_class self) true (Some module))
  else Fail PyAttributeError.

Definition get_module (self : Wrapper) : result Callable :=
  match ob_module self with
  | Some m => Ok m
  | None => Fail PyAttributeError
  end.

Definition ESL_init (self : Wrapper) (module : Callable) : result Wrapper :=
  self <- super_init cls_ESL self ;;
  set_module self module.

Definition ESL_forward (self : Wrapper) (x : Tensor) : result Tensor :=
  m <- get_module self ;;
  y <- m x ;;
  tadd x y.

Definition EML_init (self : Wrapper) (module : Callable) : result Wrapper :=
  self <- super_init cls_ESL self ;;
  set_module self module.

Definition EML_forward (self : Wrapper) (x : Tensor) : result Tensor :=
  m <- get_module self ;;
  y <- m x ;;
  tmul x y.



(** [ESL(module)], [EML(module)], [CL(module)]: a fresh instance of the
    class, handed to the class's own [__init__]. *)
Definition new_ESL (module : Callable) : result Wrapper :=
  ESL_init (mkWrapper cls_ESL false None) module.
Definition new_EML (module : Callable) : result Wrapper :=
  EML_init (mkWrapper cls_EML false None) module.

(** *** wn2d and WNC2D *)

(** [torch.norm(w)]: the 2-norm of all entries, a tensor with one entry. *)
Definition torch_norm (w : Tensor) : Tensor :=
  mkT [] (fun _ => sqrt (tsum (shape w) (fun idx => val w idx * val w idx))).

(** [t.view(1,1,1,1)]. *)
Definition view_1111 (t : Tensor) : result Tensor :=
  if (numel (shape t) =? 1)%nat then
    Ok (mkT [1; 1; 1; 1]%nat (fun _ => val t (unravel (shape t) 0)))
  else Fail TorchShapeError.

(** [t.expand_as(w)]. *)
Definition expand_as (t w : Tensor) : result Tensor :=
  match broadcast (shape t) (shape w) with
  | Some sh =>
      if list_eqb sh (shape w) then
        Ok (mkT (shape w) (fun idx => val t (bidx (shape t) idx)))
      else Fail TorchShapeError
  | None => Fail TorchShapeError
  end.

Definition wn2d (w : Tensor) : result Tensor :=
  n <- view_1111 (torch_norm w) ;;
  n <- expand_as n w ;;
  tdiv w n.

(** [WNC2D] is [nn.Conv2d] with [forward] overridden. *)
Definition WNC2D_forward (self : Conv2d) (input : Tensor) : result Tensor :=
  w <- wn2d (conv_weight self) ;;
  conv2d input w (conv_bias self) (conv_stride self) (conv_padding self)
         (conv_dilation self) (conv_groups self).

(** The same module with the stored weight replaced. *)
Definition with_weight (self : Conv2d) (w : Tensor) : Conv2d :=
  mkConv2d (in_channels self) (out_channels self) (kernel_size self)
    (conv_stride self) (conv_padding self) (conv_dilation self)
    (conv_groups self) w (conv_bias self).

(** A tensor with an entry that is not zero. *)
Definition nonzero (w : Tensor) : Prop :=
  exists idx, in_range (shape w) idx /\ val w idx <> 0.

(** A tensor whose entries are all zero. *)
Definition all_zero (w : Tensor) : Prop :=
  forall idx, in_range (shape w) idx -> val w idx = 0.

(** *** seq *)

Definition Activation : Type := Tensor -> Tensor.

(** The padding [seq] asks of its convolution along one axis, for kernel
    size [k] and dilation [d] ([//] is floor division). *)
Definition seq_padding (k d : Z) : Z := ((k + (k - 1) * (d - 1)) / 2)%Z.

Record seq : Type := mkSeq {
  seq_dilation : Z * Z;
  seq_preactivation : bool;
  seq_batchnorm : bool;
  seq_bn : option BatchNorm2d;
  seq_conv : Conv2d;
  seq_activation : Activation
}.

Definition seq_init (n_in n_out : nat) (kernel_size dilation : Z * Z)
  (preactivation batchnorm : bool) (groups : nat) (activation : Activation)
  (theta : ParamStore) : result seq :=
  let bn :=
    if batchnorm then Some (nn_BatchNorm2d n_in (child "bn" theta)) else None in
  conv <- nn_Conv2d n_in n_out kernel_size (pair2 1)
            (seq_padding (fst kernel_size) (fst dilation),
             seq_padding (snd kernel_size) (snd dilation))
            dilation groups (child "conv" theta [] KConv Weight) None ;;
  Ok (mkSeq dilation preactivation batchnorm bn conv activation).

Definition seq_get_bn (self : seq) : result BatchNorm2d :=
  match seq_bn self with
  | Some b => Ok b
  | None => Fail PyAttributeError
  end.

(** [seq.forward(x, f)]; the default of [f] is [F.relu]. *)
Definition seq_forward (self : seq) (tr : Mode) (x : Tensor) (f : Activation)
  : result Tensor :=
  if seq_preactivation self then
    if seq_batchnorm self then
      bn <- seq_get_bn self ;;
      y <- BatchNorm2d_forward bn tr x ;;
      Conv2d_forward (seq_conv self) (f y)
    else
      Conv2d_forward (seq_conv self) (f x)
  else
    if seq_batchnorm self then
      y <- Conv2d_forward (seq_conv self) x ;;
      bn <- seq_get_bn self ;;
      y <- BatchNorm2d_forward bn tr y ;;
      Ok (f y)
    else
      y <- Conv2d_forward (seq_conv self) x ;;
      Ok (f y).

(** *** Layer *)

(** A child of [nn.Sequential] in [Layer.initial_op]. *)
Inductive SubModule : Type :=
| M_BatchNorm (b : BatchNorm2d)
| M_ReLU
| M_Conv (c : Conv2d)
| M_WNC (c : Conv2d).

Definition SubModule_forward (tr : Mode) (m : SubModule) (x : Tensor)
  : result Tensor :=
  match m with
  | M_BatchNorm b => BatchNorm2d_forward b tr x
  | M_ReLU => Ok (F_relu x)
  | M_Conv c => Conv2d_forward c x
  | M_WNC c => WNC2D_forward c x
  end.

Fixpoint Sequential_forward (tr : Mode) (ms : list SubModule) (x : Tensor)
  : result Tensor :=
  match ms with
  | [] => Ok x
  | m :: r => y <- SubModule_forward tr m x ;; Sequential_forward tr r y
  end.

(** An entry of [Layer.op]: a [seq], or the bare [nn.Module()] that stands
    for an inactive branch. *)
Inductive OpModule : Type :=
| OpSeq (s : seq)
| OpBare.

Definition is_seq (o : OpModule) : bool :=
  match o with
  | OpSeq _ => true
  | OpBare => false
  end.

(** Calling an entry of [op]; a bare module has no [forward]. *)
Definition OpModule_call (o : OpModule) (tr : Mode) (x : Tensor)
  (f : Activation) : result Tensor :=
  match o with
  | OpSeq s => seq_forward s tr x f
  | OpBare => Fail PyNotImplementedError
  end.

(** [l[i]] on a Python list. *)
Definition index {A : Type} (l : list A) (i : nat) : result A :=
  match nth_error l i with
  | Some a => Ok a
  | None => Fail PyIndexError
  end.

Record Layer : Type := mkLayer {
  n_in : nat;
  n_bottle : nat;
  n_out : nat;
  ops : list bool;
  gate : list bool;
  dilation : list (Z * Z);
  activation : list Activation;
  kernel_sizes : list (Z * Z);
  preactivation : bool;
  gate_style : string;
  norm_style : string;
  initial_op : list SubModule;
  op : list OpModule;
  seq_bn_flag : bool
}.

Definition Layer_make_op (n_bottle n_out : nat) (dilation : list (Z * Z))
  (activation : list Activation) (kernel_size : list (Z * Z))
  (groups : list nat) (preactivation seq_bn : bool) (theta : ParamStore)
  (io : nat * bool) : result OpModule :=
  let '(i, o) := io in
  if o then
    d <- index dilation i ;;
    k <- index kernel_size i ;;
    g <- index groups i ;;
    a <- index activation i ;;
    s <- seq_init (if (i mod 2 =? 0)%nat then n_bottle else n_out) n_out
           k d preactivation seq_bn g a
           (child (str_of_nat i) (child "op" theta)) ;;
    Ok (OpSeq s)
  else Ok OpBare.

Definition Layer_init (n_in n_bottle n_out : nat) (ops gate : list bool)
  (dilation : list (Z * Z)) (activation : list Activation)
  (kernel_size : list (Z * Z)) (groups : list nat) (preactivation : bool)
  (gate_style norm_style : string) (theta : ParamStore) : result Layer :=
  initial_op <-
    (if negb (norm_style =? "WN")%string then
       let bn1 := nn_BatchNorm2d (if preactivation then n_in else n_bottle)
                    (child "bn1" theta) in
       conv1 <- nn_Conv2d n_in n_bottle (pair2 1) (pair2 1) (pair2 0)
                  (pair2 1) 1 (child "conv1" theta [] KConv Weight) None ;;
       if preactivation then Ok [M_BatchNorm bn1; M_ReLU; M_Conv conv1]
       else Ok [M_Conv conv1; M_BatchNorm bn1; M_ReLU]
     else
       conv1 <- nn_Conv2d n_in n_bottle (pair2 1) (pair2 1) (pair2 0)
                  (pair2 1) 1 (child "conv1" theta [] KConv Weight) None ;;
       if preactivation then Ok [M_ReLU; M_WNC conv1]
       else Ok [M_WNC conv1; M_ReLU]) ;;
  let initial_op :=
    if (norm_style =? "sandwich")%string then
      initial_op ++ [M_BatchNorm (nn_BatchNorm2d n_bottle (child "bn2" theta))]
    else initial_op in
  let seq_bn := (norm_style =? "full")%string in
  op <- mapM (Layer_make_op n_bottle n_out dilation activation kernel_size
                groups preactivation seq_bn theta)
          (combine (List.seq 0 (List.length ops)) ops) ;;
  Ok (mkLayer n_in n_bottle n_out ops gate dilation activation kernel_size
        preactivation gate_style norm_style initial_op op seq_bn).

(** What flows from the first stage of [Layer.forward] to the second: one
    tensor, or the Python list of two. *)
Inductive Flow : Type :=
| One (t : Tensor)
| Two (a b : Tensor).

(** [F.tanh(pre_gate[:,::2]) * F.sigmoid(pre_gate[:,1::2])]. *)
Definition split_gate (pre_gate : Tensor) : result Tensor :=
  ev <- slice_dim1 pre_gate None None 2 ;;
  od <- slice_dim1 pre_gate (Some 1%Z) None 2 ;;
  tmul (F_tanh ev) (F_sigmoid od).

(** Lines 217-228: the first stage, on the output of [initial_op]. *)
Definition Layer_stage0 (self : Layer) (tr : Mode) (out : Tensor)
  : result Flow :=
  g0 <- index (gate self) 0 ;;
  if g0 then
    if (gate_style self =? "mult")%string then
      op0 <- index (op self) 0 ;;
      a <- OpModule_call op0 tr out F_tanh ;;
      op2 <- index (op self) 2 ;;
      b <- OpModule_call op2 tr out F_sigmoid ;;
      r <- tmul a b ;;
      Ok (One r)
    else
      op0 <- index (op self) 0 ;;
      a <- OpModule_call op0 tr out F_relu ;;
      op2 <- index (op self) 2 ;;
      b <- OpModule_call op2 tr out F_relu ;;
      pre_gate <- tadd a b ;;
      r <- split_gate pre_gate ;;
      Ok (One r)
  else
    op2 <- index (op self) 2 ;;
    if is_seq op2 then
      op0 <- index (op self) 0 ;;
      a <- OpModule_call op0 tr out F_relu ;;
      b <- OpModule_call op2 tr out F_relu ;;
      Ok (Two a b)
    else
      op0 <- index (op self) 0 ;;
      a <- OpModule_call op0 tr out F_relu ;;
      Ok (One a).

(** The tensor each of the two branches of the second stage reads. *)
Definition flow_fst (out : Flow) : Tensor :=
  match out with One t => t | Two a _ => a end.
Definition flow_snd (out : Flow) : Tensor :=
  match out with One t => t | Two _ b => b end.

(** Lines 230-262: the second stage. *)
Definition Layer_stage1 (self : Layer) (tr : Mode) (out : Flow)
  : result Tensor :=
  g1 <- index (gate self) 1 ;;
  if g1 then
    if (gate_style self =? "mult")%string then
      op1 <- index (op self) 1 ;;
      a <- OpModule_call op1 tr (flow_fst out) F_tanh ;;
      op3 <- index (op self) 3 ;;
      b <- OpModule_call op3 tr (flow_snd out) F_sigmoid ;;
      tmul a b
    else
      op1 <- index (op self) 1 ;;
      a <- OpModule_call op1 tr (flow_fst out) F_relu ;;
      op3 <- index (op self) 3 ;;
      b <- OpModule_call op3 tr (flow_snd out) F_relu ;;
      pre_gate <- tadd a b ;;
      split_gate pre_gate
  else
    op3 <- index (op self) 3 ;;
    if is_seq op3 then
      op1 <- index (op self) 1 ;;
      a <- OpModule_call op1 tr (flow_fst out) F_relu ;;
      b <- OpModule_call op3 tr (flow_snd out) F_relu ;;
      tadd a b
    else
      op1 <- index (op self) 1 ;;
      if is_seq op1 then
        match out with
        | Two o0 o1 =>
            a <- OpModule_call op1 tr o0 F_relu ;;
            tadd a o1
        | One o =>
            OpModule_call op1 tr o F_relu
        end
      else
        match out with
        | Two o0 o1 => tadd o0 o1
        | One o => Ok o
        end.

Definition Layer_forward (self : Layer) (tr : Mode) (x : Tensor)
  : result Tensor :=
  out <- Sequential_forward tr (initial_op self) x ;;
  out <- Layer_stage0 self tr out ;;
  Layer_stage1 self tr out.

(** *** Transition *)

Record Transition : Type := mkTransition {
  tr_bn1 : BatchNorm2d;
  tr_conv1 : Conv2d
}.

Definition Transition_init (nChannels nOutChannels : nat) (theta : ParamStore)
  : result Transition :=
  conv1 <- nn_Conv2d nChannels nOutChannels (pair2 1) (pair2 1) (pair2 0)
             (pair2 1) 1 (child "conv1" theta [] KConv Weight) None ;;
  Ok (mkTransition (nn_BatchNorm2d nChannels (child "bn1" theta)) conv1).

Definition Transition_forward (self : Transition) (tr : Mode) (x : Tensor)
  : result Tensor :=
  y <- BatchNorm2d_forward (tr_bn1 self) tr x ;;
  out <- Conv2d_forward (tr_conv1 self) (F_relu y) ;;
  avg_pool2d out (2, 2)%nat.

(** *** MDC *)

Definition mask_rows_2 : list (list R) :=
  [ [1;0;1;0;1];
    [0;1;1;1;0];
    [1;1;1;1;1];
    [0;1;1;1;0];
    [1;0;1;0;1] ].

Definition mask_rows_3 : list (list R) :=
  [ [1;0;0;1;0;0;1];
    [0;1;0;1;0;1;0];
    [0;0;1;1;1;0;0];
    [1;1;1;1;1;1;1];
    [0;0;1;1;1;0;0];
    [0;1;0;1;0;1;0];
    [1;0;0;1;0;0;1] ].

(** [torch.FloatTensor([[rows] * n_in] * n_out)]: the nested list is
    empty when [n_out] is 0, and a list of empty lists when [n_in] is 0. *)
Definition mask_tensor (rows : list (list R)) (n_in n_out : nat) : Tensor :=
  mkT (if (n_out =? 0)%nat then [O]
       else if (n_in =? 0)%nat then [n_out; O]
       else [n_out; n_in; List.length rows; List.length (hd [] rows)])
      (fun idx =>
         match idx with
         | [_; _; a; b] => nth b (nth a rows []) 0
         | _ => 0
         end).

Record MDC : Type := mkMDC {
  mdc_dilation : Z;
  mdc_m : option Tensor;
  mdc_conv : Conv2d
}.

(** [MDC(n_in, n_out, dilation)].  The masks of dilation 2 and 3 are moved
    to the GPU as they are built; [cuda] tells whether the machine has a
    CUDA device.  (Where tensors live is not tracked beyond this: a forward
    pass is modelled with all its operands on one device.) *)
Definition MDC_init (cuda : bool) (n_in n_out : nat) (dilation : Z)
  (theta : ParamStore) : result MDC :=
  m <- (if (dilation =? 2)%Z then
          if cuda then Ok (Some (mask_tensor mask_rows_2 n_in n_out))
          else Fail CudaUnavailable
        else if (dilation =? 3)%Z then
          if cuda then Ok (Some (mask_tensor mask_rows_3 n_in n_out))
          else Fail CudaUnavailable
        else Ok None) ;;
  conv <- nn_Conv2d n_in n_out (pair2 (3 + 2 * (dilation - 1))%Z) (pair2 1)
            (pair2 dilation) (pair2 dilation) 1
            (child "conv" theta [] KConv Weight) None ;;
  Ok (mkMDC dilation m conv).

Definition MDC_forward (self : MDC) (x : Tensor) : result Tensor :=
  if (1 <? mdc_dilation self)%Z then
    match mdc_m self with
    | Some m =>
        w <- tmul (conv_weight (mdc_conv self)) m ;;
        conv2d x w None (pair2 1) (pair2 (mdc_dilation self)) (pair2 1) 1
    | None => Fail PyAttributeError
    end
  else Conv2d_forward (mdc_conv self) x.

(** ** Models/WRN_MOS.py *)

(** *** BasicBlock *)

Record BasicBlock : Type := mkBasicBlock {
  bn1 : BatchNorm2d;
  conv1 : Conv2d;
  bn2 : BatchNorm2d;
  conv2 : Conv2d;
  droprate : Q;
  equalInOut : bool;
  convShortcut : option Conv2d
}.

Definition BasicBlock_init (in_planes out_planes : nat) (stride : Z)
  (dropRate : Q) (theta : ParamStore) : result BasicBlock :=
  let bn1 := nn_BatchNorm2d in_planes (child "bn1" theta) in
  conv1 <- nn_Conv2d in_planes out_planes (pair2 3) (pair2 stride) (pair2 1)
             (pair2 1) 1 (child "conv1" theta [] KConv Weight) None ;;
  let bn2 := nn_BatchNorm2d out_planes (child "bn2" theta) in
  conv2 <- nn_Conv2d out_planes out_planes (pair2 3) (pair2 1) (pair2 1)
             (pair2 1) 1 (child "conv2" theta [] KConv Weight) None ;;
  let equalInOut := (in_planes =? out_planes)%nat in
  convShortcut <-
    (if negb equalInOut then
       c <- nn_Conv2d in_planes out_planes (pair2 1) (pair2 stride) (pair2 0)
              (pair2 1) 1 (child "convShortcut" theta [] KConv Weight) None ;;
       Ok (Some c)
     else Ok None) ;;
  Ok (mkBasicBlock bn1 conv1 bn2 conv2 dropRate equalInOut convShortcut).

(** Calling [self.convShortcut], which is [None] when no projection was
    built. *)
Definition convShortcut_call (self : BasicBlock) (x : Tensor)
  : result Tensor :=
  match convShortcut self with
  | Some c => Conv2d_forward c x
  | None => Fail PyTypeError
  end.

(** [BasicBlock.forward].  [keep] holds the dropout draws of the pass.
    In the source the name [x] is rebound to the activated tensor when the
    channel counts differ; [x'] is [x] after line 35. *)
Definition BasicBlock_forward (self : BasicBlock) (tr : Mode)
  (keep : list nat -> bool) (x : Tensor) : result Tensor :=
  y <- BatchNorm2d_forward (bn1 self) tr x ;;
  let act := F_relu y in
  let x' := if negb (equalInOut self) then act else x in
  out <- Conv2d_forward (conv1 self) (if equalInOut self then act else x') ;;
  out <- BatchNorm2d_forward (bn2 self) tr out ;;
  let out := F_relu out in
  out <- (if Qlt_bool 0 (droprate self)
          then F_dropout out (droprate self) tr keep
          else Ok out) ;;
  out <- Conv2d_forward (conv2 self) out ;;
  sc <- (if equalInOut self then Ok x' else convShortcut_call self x') ;;
  tadd sc out.

(** *** Network *)

Record Network : Type := mkNetwork {
  epochs : nat;
  nClasses : nat;
  n_components : nat;
  net_conv1 : Conv2d;
  block1 : list BasicBlock;
  block2 : list BasicBlock;
  block3 : list BasicBlock;
  net_bn1 : BatchNorm2d;
  fc : Linear;
  nChannels : nat;
  lr : R;
  j : nat
}.

(** The Python idiom [c and a or b] on integers: [a] when [c] holds and
    [a] is not zero, [b] otherwise. *)
Definition and_or_nat (c : bool) (a b : nat) : nat :=
  if c && negb (a =? 0)%nat then a else b.
Definition and_or_Z (c : bool) (a b : Z) : Z :=
  if c && negb (a =? 0)%Z then a else b.

(** [Network._make_layer] with [block = BasicBlock]; the result is the list
    of children of the [nn.Sequential]. *)
Definition _make_layer (nb_layers : Z) (in_planes out_planes : nat)
  (stride : Z) (dropRate : Q) (theta : ParamStore)
  : result (list BasicBlock) :=
  mapM (fun i =>
          BasicBlock_init (and_or_nat (i =? 0)%nat in_planes out_planes)
            out_planes (and_or_Z (i =? 0)%nat stride 1) dropRate
            (child (str_of_nat i) theta))
       (List.seq 0 (Z.to_nat nb_layers)).

(** The values written by the initialisation loop of lines 78-86, over the
    random draws [draw]: batch-norm scales 1 and shifts 0, linear bias 0;
    convolution weights keep their normal draw. *)
Definition init_store (draw : ParamStore) : ParamStore :=
  fun path kind name =>
    match kind, name with
    | KBatchNorm, Weight => fun _ => 1
    | KBatchNorm, Bias => fun _ => 0
    | KLinear, Bias => fun _ => 0
    | _, _ => draw path kind name
    end.

(** The module tree of lines 49-76 at the parameter state [theta]. *)
Definition Network_build (widen_factor : nat) (depth : Z)
  (nClasses epochs : nat) (dropRate : Q) (theta : ParamStore)
  : result Network :=
  let n_components := 10%nat in
  let nChannels :=
    [16; 16 * widen_factor; 32 * widen_factor; 64 * widen_factor]%nat in
  if negb ((depth - 4) mod 6 =? 0)%Z then Fail PyAssertionError
  else
    let n := ((depth - 4) ÷ 6)%Z in
    c0 <- index nChannels 0 ;;
    c1 <- index nChannels 1 ;;
    c2 <- index nChannels 2 ;;
    c3 <- index nChannels 3 ;;
    conv1 <- nn_Conv2d 3 c0 (pair2 3) (pair2 1) (pair2 1) (pair2 1) 1
               (child "conv1" theta [] KConv Weight) None ;;
    block1 <- _make_layer n c0 c1 1 dropRate (child "block1" theta) ;;
    block2 <- _make_layer n c1 c2 2 dropRate (child "block2" theta) ;;
    block3 <- _make_layer n c2 c3 2 dropRate (child "block3" theta) ;;
    let bn1 := nn_BatchNorm2d c3 (child "bn1" theta) in
    let fc := nn_Linear c3 ((nClasses + 1) * n_components) (child "fc" theta) in
    Ok (mkNetwork epochs nClasses n_components conv1 block1 block2 block3
          bn1 fc c3 (1 / 10) 0).

(** Every [nn.Conv2d] met by [self.modules()], in the order of the walk. *)
Definition BasicBlock_convs (b : BasicBlock) : list Conv2d :=
  conv1 b :: conv2 b
  :: match convShortcut b with Some c => [c] | None => [] end.

Definition Network_convs (net : Network) : list Conv2d :=
  net_conv1 net
  :: flat_map BasicBlock_convs (block1 net ++ block2 net ++ block3 net).

(** The fan-out [n] of line 80; line 81 divides by it. *)
Definition fan_out (m : Conv2d) : nat :=
  (fst (kernel_size m) * snd (kernel_size m) * out_channels m)%nat.

(** [Network.__init__]: the module tree at its initial parameters.  The
    loop of lines 78-86 computes [math.sqrt(2. / n)] for every
    convolution. *)
Definition Network_init (widen_factor : nat) (depth : Z)
  (nClasses epochs : nat) (dropRate : Q) (draw : ParamStore)
  : result Network :=
  net <- Network_build widen_factor depth nClasses epochs dropRate
           (init_store draw) ;;
  if forallb (fun m => negb (fan_out m =? 0)%nat) (Network_convs net)
  then Ok net
  else Fail PyZeroDivisionError.

(** Running the children of an [nn.Sequential] of blocks; [keep i] holds the
    dropout draws of the [i]-th child. *)
Fixpoint blocks_forward (bs : list BasicBlock) (tr : Mode)
  (keep : nat -> list nat -> bool) (x : Tensor) : result Tensor :=
  match bs with
  | [] => Ok x
  | b :: r =>
      y <- BasicBlock_forward b tr (keep O) x ;;
      blocks_forward r tr (fun i => keep (S i)) y
  end.

(** [t.size(d)]. *)
Definition size (t : Tensor) (d : nat) : result nat := index (shape t) d.

(** Lines 124-126: the mixture of softmaxes over the linear output. *)
Definition mixture_head (nClasses n_components : nat) (context : Tensor)
  : result Tensor :=
  p <- slice_dim1 context (Some (- Z.of_nat n_components)%Z) None 1 ;;
  priors <- F_softmax p ;;
  terms <- mapM (fun i =>
                   pi <- select_dim1 priors i ;;
                   pi <- unsqueeze1 pi ;;
                   c <- slice_dim1 context (Some (Z.of_nat (i * nClasses)))
                          (Some (Z.of_nat ((i + 1) * nClasses))) 1 ;;
                   s <- F_softmax c ;;
                   tmul pi s)
                (List.seq 0 n_components) ;;
  mixtures <- stack_dim1 terms ;;
  m <- sum_dim1 mixtures ;;
  Ok (torch_log m).

(** Lines 114-121: everything up to the linear layer. *)
Definition Network_context (self : Network) (tr : Mode)
  (keep : nat -> nat -> list nat -> bool) (x : Tensor) : result Tensor :=
  out <- Conv2d_forward (net_conv1 self) x ;;
  out <- blocks_forward (block1 self) tr (keep 1%nat) out ;;
  out <- blocks_forward (block2 self) tr (keep 2%nat) out ;;
  out <- blocks_forward (block3 self) tr (keep 3%nat) out ;;
  out <- BatchNorm2d_forward (net_bn1 self) tr out ;;
  let out := F_relu out in
  h <- size out 2 ;;
  w <- size out 3 ;;
  out <- avg_pool2d out (h, w) ;;
  out <- view_rows out (nChannels self) ;;
  Linear_forward (fc self) out.

Definition Network_forward (self : Network) (tr : Mode)
  (keep : nat -> nat -> list nat -> bool) (x : Tensor) : result Tensor :=
  context <- Network_context self tr keep x ;;
  mixture_head (nClasses self) (n_components self) context.

(** The hyper-parameters [_make_layer] hands to its [i]-th block. *)
Definition block_in (in_planes out_planes i : nat) : nat :=
  and_or_nat (i =? 0)%nat in_planes out_planes.
Definition block_stride (stride : Z) (i : nat) : Z :=
  and_or_Z (i =? 0)%nat stride 1.

(** ** Small concrete instances, used to evaluate the code *)

(** [torch.full(sh, v)]. *)
Definition full (sh : list nat) (v : R) : Tensor := mkT sh (fun _ => v).

(** A parameter state: every convolution and linear weight is [w], batch
    normalisation has scale 1, shift 0, running mean 0, running variance 1. *)
Definition flat_store (w : R) : ParamStore :=
  fun _ kind name _ =>
    match kind, name with
    | KBatchNorm, Weight => 1
    | KBatchNorm, RunningVar => 1
    | KBatchNorm, _ => 0
    | _, Bias => 0
    | _, _ => w
    end.

(** A parameter state in which the weight of a convolution depends on the
    output channel: entry [(co, ci, a, b)] is [co + 1]; batch normalisation
    and biases are as in [flat_store]. *)
Definition ramp_store : ParamStore :=
  fun _ kind name idx =>
    match kind, name with
    | KBatchNorm, Weight => 1
    | KBatchNorm, RunningVar => 1
    | KBatchNorm, _ => 0
    | _, Bias => 0
    | _, _ => INR (hd O idx) + 1
    end.

(** No dropout draw discards anything. *)
Definition keep_all : list nat -> bool := fun _ => true.

(** The entry of an outcome at an index (0 when the call failed), and
    whether the call returned. *)
Definition entry (r : result Tensor) (idx : list nat) : R :=
  match r with
  | Ok t => val t idx
  | Fail _ => 0
  end.

Definition is_ok {A : Type} (r : result A) : bool :=
  match r with
  | Ok _ => true
  | Fail _ => false
  end.

(** *** BasicBlock: the parts of the forward pass, named *)

(** Lines 36-40: the convolutional branch, from the tensor it reads. *)
Definition BasicBlock_branch (self : BasicBlock) (tr : Mode)
  (keep : list nat -> bool) (a : Tensor) : result Tensor :=
  out <- Conv2d_forward (conv1 self) a ;;
  out <- BatchNorm2d_forward (bn2 self) tr out ;;
  let out := F_relu out in
  out <- (if Qlt_bool 0 (droprate self)
          then F_dropout out (droprate self) tr keep
          else Ok out) ;;
  Conv2d_forward (conv2 self) out.

(** The forward pass as the specification words it for differing channel
    counts: the branch reads the activated tensor, the projection reads the
    original input. *)
Definition BasicBlock_forward_projecting_input (self : BasicBlock) (tr : Mode)
  (keep : list nat -> bool) (x : Tensor) : result Tensor :=
  y <- BatchNorm2d_forward (bn1 self) tr x ;;
  out <- BasicBlock_branch self tr keep (F_relu y) ;;
  sc <- convShortcut_call self x ;;
  tadd sc out.

(** The shape of the tensor a call returned. *)
Definition result_shape (r : result Tensor) : option (list nat) :=
  match r with
  | Ok t => Some (shape t)
  | Fail _ => None
  end.

(** Activations keep the shape of their argument. *)
Definition shape_preserving (f : Activation) : Prop :=
  forall t, shape (f t) = shape t.

(** *** Layer: the readings of the specification the code is compared with *)

(** The first stage with the "mult" gate when tanh and sigmoid are applied
    to the outputs of the two branches. *)
Definition Layer_stage0_mult_on_outputs (self : Layer) (tr : Mode)
  (out : Tensor) : result Flow :=
  op0 <- index (op self) 0 ;;
  a <- OpModule_call op0 tr out F_relu ;;
  op2 <- index (op self) 2 ;;
  b <- OpModule_call op2 tr out F_relu ;;
  r <- tmul (F_tanh a) (F_sigmoid b) ;;
  Ok (One r).

(** The forward pass when the output of [initial_op] goes through [op[0]]
    alone. *)
Definition Layer_forward_op0_alone (self : Layer) (tr : Mode) (x : Tensor)
  : result Tensor :=
  out <- Sequential_forward tr (initial_op self) x ;;
  op0 <- index (op self) 0 ;;
  OpModule_call op0 tr out F_relu.

(** [Layer(1, 1, 1, ops, gate, kernel_size=[(1,1)]*4, gate_style=...,
    norm_style='before')], the other arguments at their defaults, at the
    parameter state [flat_store w]. *)
Definition unit_layer (ops gate : list bool) (gate_style : string) (w : R)
  : result Layer :=
  Layer_init 1 1 1 ops gate (repeat (1, 1)%Z 4) (repeat F_relu 4)
    (repeat (1, 1)%Z 4) (repeat 1%nat 4) true gate_style "before"
    (flat_store w).

(** [WNC2D(1, 1, kernel_size=1, bias=False)] whose single weight entry is
    [w]. *)
Definition wnc_unit (w : R) : Conv2d :=
  mkConv2d 1 1 (1, 1)%nat (pair2 1) (pair2 0) (pair2 1) 1
    (full [1; 1; 1; 1]%nat w) None.

(** *** The mixture of softmaxes, as the specification words it

    For sample [a] of the linear output [context], with [K] components and
    [nC] classes: the prior of component [i] is the softmax of the last [K]
    entries; the class distribution of component [i] is the softmax of the
    [i]-th block of [nC] entries; the class probability is the sum over the
    components of prior times class distribution. *)

Definition mos_prior (nC K : nat) (context : Tensor) (a i : nat) : R :=
  exp (val context [a; (K * nC + i)%nat])
  / sum_n K (fun k => exp (val context [a; (K * nC + k)%nat])).

Definition mos_component (nC : nat) (context : Tensor) (a i j : nat) : R :=
  exp (val context [a; (i * nC + j)%nat])
  / sum_n nC (fun l => exp (val context [a; (i * nC + l)%nat])).

Definition mos_mixture (nC K : nat) (context : Tensor) (a j : nat) : R :=
  sum_n K (fun i => mos_prior nC K context a i * mos_component nC context a i j).

(** ** The rest of the two files *)

(** *** softmax (layers.py, lines 31-33), on a one-dimensional array *)

(** [np.max(x)]; an empty array has no maximum. *)
Definition np_max (x : list R) : result R :=
  match x with
  | [] => Fail PyValueError
  | a :: r => Ok (fold_left Rmax r a)
  end.

(** [x.sum()]. *)
Definition np_sum (x : list R) : R := fold_right Rplus 0 x.

Definition softmax (x : list R) : result (list R) :=
  m <- np_max x ;;
  let e_x := map (fun v => exp (v - m)) x in
  Ok (map (fun e => e / np_sum e_x) e_x).

(** *** Network.update_lr (WRN_MOS.py, lines 108-111)

    [param_groups] holds the [lr] entry of each parameter group of the
    optimiser; the call returns the network with its counter advanced and
    the new entries.  The division by [max_j] happens once per group. *)

Definition set_j (self : Network) (j' : nat) : Network :=
  mkNetwork (epochs self) (nClasses self) (n_components self)
    (net_conv1 self) (block1 self) (block2 self) (block3 self)
    (net_bn1 self) (fc self) (nChannels self) (lr self) j'.

(** The value line 110 assigns at counter [j]. *)
Definition cosine_lr (lr0 : R) (j : nat) (max_j : Z) : R :=
  (1 / 2 * lr0) * (1 + cos (PI * INR j / IZR max_j)).

Definition update_lr (self : Network) (param_groups : list R) (max_j : Z)
  : result (Network * list R) :=
  groups <- mapM (fun _ : R =>
                    if (max_j =? 0)%Z then Fail PyZeroDivisionError
                    else Ok (cosine_lr (lr self) (j self) max_j))
                 param_groups ;;
  Ok (set_j self (S (j self)), groups).

(** *** Layer: the branches a configuration calls without having built them

    [ops = [o0; o1; o2; o3]] and [gate = [g0; g1]]: [op[0]] is always
    called; a gate calls both branches it combines; without the second gate,
    an existing [op[3]] is summed with [op[1]]. *)
Definition calls_missing_branch (o0 o1 o2 o3 g0 g1 : bool) : bool :=
  negb o0 || (g0 && negb o2) || (g1 && (negb o1 || negb o3))
  || (negb g1 && o3 && negb o1).

(** *** Further instances and sizes *)

(** A network object with no blocks, as far as [update_lr] reads it: the
    base rate [1e-1] and the counter 0 that the constructor leaves. *)
Definition unit_network : Network :=
  mkNetwork 1 10 10 (wnc_unit 1) [] [] []
    (nn_BatchNorm2d 1 (flat_store 1)) (nn_Linear 1 1 (flat_store 1)) 1
    (1 / 10) 0.

(** [flat_store w] with the weight entries at kernel position (0, 1)
    replaced by [v]. *)
Definition flat_store_but (w v : R) : ParamStore :=
  fun path kind name idx =>
    match idx with
    | [_; _; O; 1%nat] => v
    | _ => flat_store w path kind name idx
    end.

(** The size two sizes of a dimension broadcast to, when they agree or one
    of them is 1. *)
Definition broadcast_dim (x y : nat) : nat :=
  if (x =? y)%nat then x else if (x =? 1)%nat then y else x.

(** [Layer(n_in, n_bottle, n_out, ops, gate)], every other argument at the
    default of the signature (line 143). *)
Definition Layer_default (n_in n_bottle n_out : nat) (ops gate : list bool)
  (theta : ParamStore) : result Layer :=
  Layer_init n_in n_bottle n_out ops gate (repeat (1, 1)%Z 4)
    (repeat F_relu 4) (repeat (3, 3)%Z 4) (repeat 1%nat 4) true
    "add_split" "sandwich" theta.

(** * Verification *)

(** ** Generic facts *)

Lemma bind_Ok {A B : Type} (c : result A) (k : A -> result B) (b : B) :
  bind c k = Ok b -> exists a, c = Ok a /\ k a = Ok b.
Proof.
  destruct c as [a|e]; simpl; intros H; [exists a; auto | discriminate].
Qed.

Lemma mapM_nth {A B : Type} (f : A -> result B) (l : list A) :
  forall bs, mapM f l = Ok bs ->
    List.length bs = List.length l /\
    forall i a, nth_error l i = Some a ->
      exists b, nth_error bs i = Some b /\ f a = Ok b.
Proof.
  induction l as [|a l IH]; simpl; intros bs H.
  - inversion H; subst. split; [reflexivity|].
    intros [|i] a' Hn; discriminate.
  - apply bind_Ok in H. destruct H as (b & Hb & H).
    apply bind_Ok in H. destruct H as (bs' & Hbs & H).
    inversion H; subst. destruct (IH _ Hbs) as [Hl Hn].
    split; [simpl; congruence|].
    intros [|i] a' Ha; simpl in *.
    + inversion Ha; subst. eauto.
    + eauto.
Qed.

Lemma mapM_total {A B : Type} (f : A -> result B) (l : list A) :
  (forall a, In a l -> exists b, f a = Ok b) ->
  exists bs, mapM f l = Ok bs.
Proof.
  induction l as [|a l IH]; simpl; intros H.
  - eauto.
  - destruct (H a (or_introl eq_refl)) as [b Hb].
    destruct IH as [bs Hbs]; [intros; apply H; auto|].
    rewrite Hb, Hbs. simpl. eauto.
Qed.

(** ** ESL, EML, CL *)



Lemma ESL_forward_spec (module : Callable) (self : Wrapper) (x : Tensor) :
  new_ESL module = Ok self ->
  ESL_forward self x = (y <- module x ;; tadd x y).
Proof. intros H; inversion H; subst; reflexivity. Qed.

(** An [EML] object on which the initialiser of [nn.Module] has run and
    that holds [module] multiplies its input by the module's output. *)
Lemma EML_forward_spec (module : Callable) (x : Tensor) :
  EML_forward (mkWrapper cls_EML true (Some module)) x
  = (y <- module x ;; tmul x y).
Proof. reflexivity. Qed.

(** C8 (code defect).  [EML.__init__] calls [super(ESL, self).__init__()]
    on an instance of [EML], which is not an instance of [ESL]: for every
    module argument the construction of an [EML] stops with a [TypeError],
    so no [EML] object computing [x * module(x)] is ever obtained. *)
Theorem EML_construction_raises (module : Callable) :
  new_EML module = Fail PyTypeError.
Proof. reflexivity. Qed.

(** ** Construction of convolutions *)

Lemma nn_Conv2d_groups1 (n_in n_out : nat) (ks st pd dl : Z * Z)
  (w : list nat -> R) :
  (0 <= fst ks)%Z -> (0 <= snd ks)%Z ->
  nn_Conv2d n_in n_out ks st pd dl 1 w None
  = Ok (mkConv2d n_in n_out (Z.to_nat (fst ks), Z.to_nat (snd ks)) st pd dl 1
          (mkT [n_out; n_in; Z.to_nat (fst ks); Z.to_nat (snd ks)] w) None).
Proof.
  intros H1 H2. unfold nn_Conv2d.
  rewrite !Nat.mod_1_r, Nat.div_1_r. simpl.
  destruct (Z.ltb_spec (fst ks) 0); [lia|].
  destruct (Z.ltb_spec (snd ks) 0); [lia|].
  reflexivity.
Qed.

(** ** MDC *)

(** C7.  An [MDC] built with [dilation = 1] holds no mask and a 3x3 weight,
    and its forward pass is the plain convolution of the input with that
    stored weight, stride 1, padding 1, dilation 1, one group, no bias.
    (No mask is built, so the construction does not depend on a CUDA
    device.) *)
Theorem MDC_dilation1_is_plain_conv (cuda : bool) (n_in n_out : nat)
  (theta : ParamStore) :
  exists self,
    MDC_init cuda n_in n_out 1 theta = Ok self /\
    mdc_m self = None /\
    shape (conv_weight (mdc_conv self)) = [n_out; n_in; 3; 3]%nat /\
    forall x,
      MDC_forward self x
      = conv2d x (conv_weight (mdc_conv self)) None
               (1, 1)%Z (1, 1)%Z (1, 1)%Z 1.
Proof.
  unfold MDC_init. change (1 =? 2)%Z with false. change (1 =? 3)%Z with false.
  cbv iota. cbn [bind]. rewrite nn_Conv2d_groups1 by (simpl; lia).
  simpl. eexists. split; [reflexivity|]. repeat split.
Qed.

(** ** Network construction *)

Lemma BasicBlock_init_eq (in_planes out_planes : nat) (stride : Z)
  (dropRate : Q) (theta : ParamStore) :
  BasicBlock_init in_planes out_planes stride dropRate theta
  = Ok (mkBasicBlock
          (nn_BatchNorm2d in_planes (child "bn1" theta))
          (mkConv2d in_planes out_planes (3, 3)%nat (pair2 stride) (pair2 1)
             (pair2 1) 1
             (mkT [out_planes; in_planes; 3; 3]%nat
                  (child "conv1" theta [] KConv Weight)) None)
          (nn_BatchNorm2d out_planes (child "bn2" theta))
          (mkConv2d out_planes out_planes (3, 3)%nat (pair2 1) (pair2 1)
             (pair2 1) 1
             (mkT [out_planes; out_planes; 3; 3]%nat
                  (child "conv2" theta [] KConv Weight)) None)
          dropRate
          (in_planes =? out_planes)%nat
          (if negb (in_planes =? out_planes)%nat then
             Some (mkConv2d in_planes out_planes (1, 1)%nat (pair2 stride)
                     (pair2 0) (pair2 1) 1
                     (mkT [out_planes; in_planes; 1; 1]%nat
                          (child "convShortcut" theta [] KConv Weight)) None)
           else None)).
Proof.
  unfold BasicBlock_init.
  rewrite !nn_Conv2d_groups1 by (simpl; lia). simpl.
  destruct (in_planes =? out_planes)%nat; reflexivity.
Qed.

Lemma make_layer_ok (nb : Z) (in_planes out_planes : nat) (stride : Z)
  (dropRate : Q) (theta : ParamStore) :
  exists bs,
    _make_layer nb in_planes out_planes stride dropRate theta = Ok bs /\
    List.length bs = Z.to_nat nb /\
    forall i b, nth_error bs i = Some b ->
      BasicBlock_init (block_in in_planes out_planes i) out_planes
        (block_stride stride i) dropRate (child (str_of_nat i) theta) = Ok b.
Proof.
  unfold _make_layer.
  destruct (mapM_total
              (fun i => BasicBlock_init (and_or_nat (i =? 0)%nat in_planes out_planes)
                          out_planes (and_or_Z (i =? 0)%nat stride 1) dropRate
                          (child (str_of_nat i) theta))
              (List.seq 0 (Z.to_nat nb))) as [bs Hbs].
  { intros a _. rewrite BasicBlock_init_eq. eauto. }
  exists bs. split; [exact Hbs|].
  destruct (mapM_nth _ _ _ Hbs) as [Hl Hn].
  rewrite length_seq in Hl. split; [exact Hl|].
  intros i b Hi.
  assert (Hlt : (i < Z.to_nat nb)%nat).
  { rewrite <- Hl. apply nth_error_Some. congruence. }
  destruct (Hn i i) as (b' & Hb' & Hf).
  { rewrite nth_error_seq. 
    destruct (Nat.ltb_spec i (Z.to_nat nb)); [reflexivity|lia]. }
  rewrite Hi in Hb'. inversion Hb'; subst. exact Hf.
Qed.

Lemma make_layer_fan_out (nb : Z) (in_planes out_planes : nat) (stride : Z)
  (dropRate : Q) (theta : ParamStore) (bs : list BasicBlock) :
  (0 < out_planes)%nat ->
  _make_layer nb in_planes out_planes stride dropRate theta = Ok bs ->
  forall m, In m (flat_map BasicBlock_convs bs) -> fan_out m <> O.
Proof.
  intros Hout Hbs m Hm.
  destruct (make_layer_ok nb in_planes out_planes stride dropRate theta)
    as (bs' & Hbs' & _ & Hn).
  rewrite Hbs in Hbs'. inversion Hbs'; subst bs'.
  apply in_flat_map in Hm. destruct Hm as (b & Hb & Hm).
  apply In_nth_error in Hb. destruct Hb as [i Hi].
  specialize (Hn i b Hi). rewrite BasicBlock_init_eq in Hn.
  inversion Hn; subst b. clear Hn.
  unfold BasicBlock_convs in Hm. simpl in Hm.
  destruct Hm as [<-|[<-|Hm]]; unfold fan_out; simpl; try lia.
  destruct (block_in in_planes out_planes i =? out_planes)%nat; simpl in Hm.
  - contradiction.
  - destruct Hm as [<-|[]]. simpl. lia.
Qed.

Lemma make_layer_stride (nb : Z) (in_planes out_planes : nat) (stride : Z)
  (dropRate : Q) (theta : ParamStore) (bs : list BasicBlock) :
  stride <> 0%Z ->
  _make_layer nb in_planes out_planes stride dropRate theta = Ok bs ->
  forall i b, nth_error bs i = Some b ->
    conv_stride (conv1 b) = pair2 (if (i =? 0)%nat then stride else 1%Z).
Proof.
  intros Hs Hbs i b Hi.
  destruct (make_layer_ok nb in_planes out_planes stride dropRate theta)
    as (bs' & Hbs' & _ & Hn).
  rewrite Hbs in Hbs'. inversion Hbs'; subst bs'.
  specialize (Hn i b Hi). rewrite BasicBlock_init_eq in Hn.
  inversion Hn; subst b. simpl.
  unfold block_stride, and_or_Z.
  destruct (i =? 0)%nat; simpl; [|reflexivity].
  destruct (Z.eqb_spec stride 0); [contradiction|reflexivity].
Qed.

(** C9.  For a depth (a count of layers, so not negative) with
    [(depth - 4) % 6 == 0] and a positive widening factor, the construction
    of [Network] succeeds; each of the three groups holds [(depth - 4) / 6]
    blocks, [3 * ((depth - 4) / 6)] in all; the first block of the groups
    has stride 1, 2 and 2, and every later block stride 1.  (The stride of
    a block is read off its first convolution, which receives it.) *)
Theorem Network_init_blocks (widen_factor : nat) (depth : Z)
  (nClasses epochs : nat) (dropRate : Q) (draw : ParamStore) :
  (0 <= depth)%Z ->
  ((depth - 4) mod 6 = 0)%Z ->
  (0 < widen_factor)%nat ->
  exists net,
    Network_init widen_factor depth nClasses epochs dropRate draw = Ok net /\
    Z.of_nat (List.length (block1 net)) = ((depth - 4) / 6)%Z /\
    Z.of_nat (List.length (block2 net)) = ((depth - 4) / 6)%Z /\
    Z.of_nat (List.length (block3 net)) = ((depth - 4) / 6)%Z /\
    Z.of_nat (List.length (block1 net) + List.length (block2 net)
              + List.length (block3 net)) = (3 * ((depth - 4) / 6))%Z /\
    (forall i b, nth_error (block1 net) i = Some b ->
       conv_stride (conv1 b) = pair2 1%Z) /\
    (forall i b, nth_error (block2 net) i = Some b ->
       conv_stride (conv1 b) = pair2 (if (i =? 0)%nat then 2 else 1)%Z) /\
    (forall i b, nth_error (block3 net) i = Some b ->
       conv_stride (conv1 b) = pair2 (if (i =? 0)%nat then 2 else 1)%Z).
Proof.
  intros Hd Hm Hw.
  assert (H4 : (4 <= depth)%Z).
  { destruct (Z_lt_le_dec depth 4) as [Hlt|]; [|assumption].
    assert (Hc : (depth = 0 \/ depth = 1 \/ depth = 2 \/ depth = 3)%Z) by lia.
    destruct Hc as [ -> | [ -> | [ -> | -> ]]]; vm_compute in Hm; discriminate. }
  assert (Hq : ((depth - 4) ÷ 6 = (depth - 4) / 6)%Z)
    by (apply Z.quot_div_nonneg; lia).
  assert (Hn0 : (0 <= (depth - 4) / 6)%Z) by (apply Z.div_pos; lia).
  unfold Network_init, Network_build.
  rewrite Hm, Z.eqb_refl. cbn [negb index nth_error bind].
  rewrite nn_Conv2d_groups1 by (simpl; lia). cbn [bind].
  rewrite Hq.
  set (n := ((depth - 4) / 6)%Z) in *.
  destruct (make_layer_ok n 16 (16 * widen_factor) 1 dropRate
              (child "block1" (init_store draw))) as (b1 & E1 & L1 & _).
  destruct (make_layer_ok n (16 * widen_factor) (32 * widen_factor) 2 dropRate
              (child "block2" (init_store draw))) as (b2 & E2 & L2 & _).
  destruct (make_layer_ok n (32 * widen_factor) (64 * widen_factor) 2 dropRate
              (child "block3" (init_store draw))) as (b3 & E3 & L3 & _).
  rewrite E1, E2, E3. cbn [bind].
  match goal with
  | |- context [forallb ?f ?l] =>
      assert (Hall : forallb f l = true)
  end.
  { apply forallb_forall. intros m Hin.
    apply Bool.negb_true_iff. apply Nat.eqb_neq.
    unfold Network_convs in Hin. cbn [net_conv1 block1 block2 block3] in Hin.
    destruct Hin as [<-|Hin]; [unfold fan_out; simpl; lia|].
    rewrite !flat_map_app in Hin.
    apply in_app_or in Hin. destruct Hin as [Hin|Hin].
    { eapply make_layer_fan_out; [|exact E1|exact Hin]. lia. }
    apply in_app_or in Hin. destruct Hin as [Hin|Hin].
    { eapply make_layer_fan_out; [|exact E2|exact Hin]. lia. }
    { eapply make_layer_fan_out; [|exact E3|exact Hin]. lia. } }
  rewrite Hall. eexists. split; [reflexivity|].
  assert (S1 : (1 <> 0)%Z) by lia.
  assert (S2 : (2 <> 0)%Z) by lia.
  cbn [block1 block2 block3].
  rewrite L1, L2, L3.
  repeat split; try lia.
  - intros i b Hi.
    rewrite (make_layer_stride _ _ _ _ _ _ _ S1 E1 _ _ Hi).
    destruct (i =? 0)%nat; reflexivity.
  - intros i b Hi. exact (make_layer_stride _ _ _ _ _ _ _ S2 E2 _ _ Hi).
  - intros i b Hi. exact (make_layer_stride _ _ _ _ _ _ _ S2 E3 _ _ Hi).
Qed.

Lemma Network_init_blocks_witness :
  exists net,
    Network_init 1 10 10 1 0%Q (fun _ _ _ _ => 0) = Ok net /\
    Z.of_nat (List.length (block1 net)) = 1%Z /\
    Z.of_nat (List.length (block2 net)) = 1%Z /\
    Z.of_nat (List.length (block3 net)) = 1%Z /\
    Z.of_nat (List.length (block1 net) + List.length (block2 net)
              + List.length (block3 net)) = 3%Z /\
    (forall i b, nth_error (block1 net) i = Some b ->
       conv_stride (conv1 b) = pair2 1%Z) /\
    (forall i b, nth_error (block2 net) i = Some b ->
       conv_stride (conv1 b) = pair2 (if (i =? 0)%nat then 2 else 1)%Z) /\
    (forall i b, nth_error (block3 net) i = Some b ->
       conv_stride (conv1 b) = pair2 (if (i =? 0)%nat then 2 else 1)%Z).
Proof.
  apply (Network_init_blocks 1 10 10 1 0%Q (fun _ _ _ _ => 0)).
  - lia.
  - reflexivity.
  - lia.
Defined.

(** ** Sums *)

Lemma sum_n_ext (n : nat) (f g : nat -> R) :
  (forall i, (i < n)%nat -> f i = g i) -> sum_n n f = sum_n n g.
Proof.
  induction n as [|n IH]; simpl; intros H; [reflexivity|].
  rewrite IH by (intros; apply H; lia). rewrite H by lia. reflexivity.
Qed.

Lemma sum_n_scale (n : nat) (c : R) (f : nat -> R) :
  sum_n n (fun i => c * f i) = c * sum_n n f.
Proof. induction n as [|n IH]; simpl; [lra|rewrite IH; lra]. Qed.

Lemma sum_n_div (n : nat) (c : R) (f : nat -> R) :
  sum_n n (fun i => f i / c) = sum_n n f / c.
Proof.
  induction n as [|n IH]; simpl; [unfold Rdiv; lra|rewrite IH; unfold Rdiv; lra].
Qed.

Lemma sum_n_plus (n : nat) (f g : nat -> R) :
  sum_n n (fun i => f i + g i) = sum_n n f + sum_n n g.
Proof. induction n as [|n IH]; simpl; [lra|rewrite IH; lra]. Qed.

Lemma sum_n_zero (n : nat) : sum_n n (fun _ => 0) = 0.
Proof. induction n as [|n IH]; simpl; [reflexivity|rewrite IH; lra]. Qed.

Lemma sum_n_swap (n m : nat) (f : nat -> nat -> R) :
  sum_n n (fun i => sum_n m (fun k => f i k))
  = sum_n m (fun k => sum_n n (fun i => f i k)).
Proof.
  induction n as [|n IH]; simpl.
  - symmetry. apply sum_n_zero.
  - rewrite IH. symmetry. apply sum_n_plus.
Qed.

Lemma sum_n_nonneg (n : nat) (f : nat -> R) :
  (forall i, (i < n)%nat -> 0 <= f i) -> 0 <= sum_n n f.
Proof.
  induction n as [|n IH]; simpl; intros H; [lra|].
  assert (0 <= sum_n n f) by (apply IH; intros; apply H; lia).
  assert (0 <= f n) by (apply H; lia). lra.
Qed.

Lemma sum_n_pos (n : nat) (f : nat -> R) :
  (forall i, (i < n)%nat -> 0 <= f i) ->
  (exists i, (i < n)%nat /\ 0 < f i) -> 0 < sum_n n f.
Proof.
  induction n as [|n IH]; simpl; intros H [i [Hi Hp]]; [lia|].
  assert (0 <= sum_n n f) by (apply sum_n_nonneg; intros; apply H; lia).
  assert (0 <= f n) by (apply H; lia).
  destruct (Nat.eq_dec i n) as [->|Hne]; [lra|].
  assert (0 < sum_n n f).
  { apply IH; [intros; apply H; lia|]. exists i. split; [lia|assumption]. }
  lra.
Qed.

Lemma sum_n_all_pos (n : nat) (f : nat -> R) :
  (0 < n)%nat -> (forall i, (i < n)%nat -> 0 < f i) -> 0 < sum_n n f.
Proof.
  intros Hn H. apply sum_n_pos.
  - intros i Hi. left. apply H, Hi.
  - exists O. split; [assumption|apply H, Hn].
Qed.

Lemma tsum_ext (sh : list nat) :
  forall f g, (forall idx, in_range sh idx -> f idx = g idx) ->
              tsum sh f = tsum sh g.
Proof.
  induction sh as [|d sh IH]; simpl; intros f g H.
  - apply H. constructor.
  - apply sum_n_ext. intros i Hi. apply IH. intros idx Hidx.
    apply H. constructor; assumption.
Qed.

Lemma tsum_scale (sh : list nat) :
  forall (c : R) f, tsum sh (fun idx => c * f idx) = c * tsum sh f.
Proof.
  induction sh as [|d sh IH]; simpl; intros c f; [reflexivity|].
  rewrite <- sum_n_scale. apply sum_n_ext. intros i _. apply IH.
Qed.

Lemma tsum_nonneg (sh : list nat) :
  forall f, (forall idx, 0 <= f idx) -> 0 <= tsum sh f.
Proof.
  induction sh as [|d sh IH]; simpl; intros f H; [apply H|].
  apply sum_n_nonneg. intros i _. apply IH. intros; apply H.
Qed.

Lemma tsum_pos (sh : list nat) :
  forall f, (forall idx, 0 <= f idx) ->
            (exists idx, in_range sh idx /\ 0 < f idx) -> 0 < tsum sh f.
Proof.
  induction sh as [|d sh IH]; simpl; intros f H [idx [Hr Hp]].
  - inversion Hr; subst. exact Hp.
  - inversion Hr as [|i d' idx' sh' Hi Hr']; subst.
    apply sum_n_pos.
    + intros k _. apply tsum_nonneg. intros; apply H.
    + exists i. split; [assumption|]. apply IH; [intros; apply H|].
      exists idx'. split; assumption.
Qed.

Lemma tsum_zero (sh : list nat) :
  forall f, (forall idx, in_range sh idx -> f idx = 0) -> tsum sh f = 0.
Proof.
  induction sh as [|d sh IH]; simpl; intros f H; [apply H; constructor|].
  rewrite <- (sum_n_zero d). apply sum_n_ext. intros i Hi.
  apply IH. intros idx Hr. apply H. constructor; assumption.
Qed.

Lemma any_n_const (n : nat) (b : bool) :
  (0 < n)%nat -> any_n n (fun _ => b) = b.
Proof.
  induction n as [|n IH]; simpl; intros H; [lia|].
  destruct n as [|n]; [reflexivity|].
  rewrite IH by lia. apply Bool.orb_diag.
Qed.

Lemma tany_const (sh : list nat) (b : bool) :
  Forall (lt O) sh -> tany sh (fun _ => b) = b.
Proof.
  induction sh as [|d sh IH]; simpl; intros H; [reflexivity|].
  inversion H; subst. rewrite IH by assumption. apply any_n_const. assumption.
Qed.

(** ** Broadcasting *)

Lemma broadcast_rev_same (l : list nat) : broadcast_rev l l = Some l.
Proof.
  induction l as [|x l IH]; simpl; [reflexivity|].
  rewrite IH, Nat.eqb_refl. reflexivity.
Qed.

Lemma broadcast_same (sh : list nat) : broadcast sh sh = Some sh.
Proof.
  unfold broadcast. rewrite broadcast_rev_same. simpl.
  rewrite rev_involutive. reflexivity.
Qed.

Lemma bidx_aligned_in_range (sh : list nat) :
  forall idx, in_range sh idx -> bidx_aligned sh idx = idx.
Proof.
  induction sh as [|d sh IH]; intros idx H; inversion H; subst; simpl.
  - reflexivity.
  - rewrite IH by assumption.
    destruct (Nat.eqb_spec d 1); [|reflexivity].
    f_equal. lia.
Qed.

Lemma in_range_length (sh idx : list nat) :
  in_range sh idx -> List.length idx = List.length sh.
Proof. intros H. induction H; simpl; congruence. Qed.

Lemma bidx_in_range (sh idx : list nat) :
  in_range sh idx -> bidx sh idx = idx.
Proof.
  intros H. unfold bidx. rewrite (in_range_length _ _ H), Nat.sub_diag.
  simpl. apply bidx_aligned_in_range, H.
Qed.

Lemma broadcast_ones4 (a b c d : nat) :
  broadcast [1; 1; 1; 1]%nat [a; b; c; d] = Some [a; b; c; d].
Proof.
  destruct a as [|[|a]], b as [|[|b]], c as [|[|c]], d as [|[|d]];
    reflexivity.
Qed.

Lemma list_eqb_refl (l : list nat) : list_eqb l l = true.
Proof. unfold list_eqb. destruct (list_eq_dec Nat.eq_dec l l); congruence. Qed.

Lemma list_eqb_eq (a b : list nat) : list_eqb a b = true -> a = b.
Proof.
  unfold list_eqb. destruct (list_eq_dec Nat.eq_dec a b); congruence.
Qed.

Lemma tadd_same_shape (a b : Tensor) :
  shape a = shape b ->
  tadd a b = Ok (mkT (shape a)
                   (fun idx => val a (bidx (shape a) idx)
                               + val b (bidx (shape b) idx))).
Proof.
  intros H. unfold tadd, binop. rewrite <- H, broadcast_same. reflexivity.
Qed.

(** ** wn2d and WNC2D *)

Lemma any_n_false (n : nat) : any_n n (fun _ => false) = false.
Proof. induction n as [|n IH]; simpl; [reflexivity|rewrite IH; reflexivity]. Qed.

Lemma tany_false (sh : list nat) : tany sh (fun _ => false) = false.
Proof.
  induction sh as [|d sh IH]; simpl; [reflexivity|].
  rewrite IH. apply any_n_false.
Qed.

Lemma Rzerob_true (x : R) : x = 0 -> Rzerob x = true.
Proof. intros H. unfold Rzerob. destruct (Req_dec_T x 0); congruence. Qed.

Lemma Rzerob_false (x : R) : x <> 0 -> Rzerob x = false.
Proof. intros H. unfold Rzerob. destruct (Req_dec_T x 0); congruence. Qed.

(** What [wn2d] divides by. *)
Lemma norm_scale (c : R) (w : Tensor) :
  0 <= c ->
  val (torch_norm (tscale c w)) [] = c * val (torch_norm w) [].
Proof.
  intros Hc. simpl.
  rewrite (tsum_ext (shape w) _ (fun idx => (c * c) * (val w idx * val w idx)))
    by (intros; ring).
  rewrite tsum_scale, sqrt_mult_alt by nra.
  rewrite sqrt_square by assumption. reflexivity.
Qed.

Lemma norm_pos (w : Tensor) : nonzero w -> 0 < val (torch_norm w) [].
Proof.
  intros [idx [Hr Hv]]. simpl. apply sqrt_lt_R0. apply tsum_pos.
  - intros i. nra.
  - exists idx. split; [assumption|]. nra.
Qed.

Lemma norm_zero (w : Tensor) : all_zero w -> val (torch_norm w) [] = 0.
Proof.
  intros H. simpl. rewrite tsum_zero; [apply sqrt_0|].
  intros idx Hr. rewrite (H idx Hr). ring.
Qed.

(** [wn2d] on a tensor of rank 4, such as every convolution weight. *)
Lemma wn2d_rank4 (w : Tensor) (a b c d : nat) :
  shape w = [a; b; c; d] ->
  wn2d w
  = if tany (shape w) (fun _ => Rzerob (val (torch_norm w) []))
    then Fail DivisionByZero
    else Ok (mkT (shape w)
               (fun idx => val w (bidx (shape w) idx) / val (torch_norm w) [])).
Proof.
  intros Hs. unfold wn2d, view_1111, expand_as, tdiv.
  cbn [torch_norm shape val numel fold_right Nat.eqb bind unravel].
  rewrite Hs, broadcast_ones4, list_eqb_refl. cbn [bind shape val].
  rewrite broadcast_same. reflexivity.
Qed.

Lemma wn2d_scale (c : R) (w : Tensor) :
  0 < c -> nonzero w -> wn2d (tscale c w) = wn2d w.
Proof.
  intros Hc Hw.
  pose proof (norm_pos w Hw) as Hn.
  pose proof (norm_scale c w (Rlt_le _ _ Hc)) as Hs.
  unfold wn2d, view_1111, expand_as, tdiv.
  cbn [torch_norm shape val numel fold_right Nat.eqb bind unravel tscale tmap].
  cbn [torch_norm shape val tscale tmap] in Hs, Hn.
  destruct (broadcast [1; 1; 1; 1]%nat (shape w)) as [sh|]; [|reflexivity].
  destruct (list_eqb sh (shape w)); [|reflexivity].
  cbn [bind shape val]. rewrite broadcast_same.
  rewrite Hs.
  rewrite (Rzerob_false (c * _)) by nra.
  rewrite (Rzerob_false (sqrt _)) by lra.
  rewrite tany_false. f_equal. f_equal.
  apply functional_extensionality. intros idx. field. split; lra.
Qed.

(** C5.  Replacing the stored weight [w] of a [WNC2D] by [c * w], for a
    positive scalar [c] and a weight with a non-zero entry, leaves the
    forward pass unchanged on every input: the same outcome, and the same
    output tensor. *)
Theorem WNC2D_forward_scale_invariant (self : Conv2d) (input : Tensor) (c : R) :
  0 < c ->
  nonzero (conv_weight self) ->
  WNC2D_forward (with_weight self (tscale c (conv_weight self))) input
  = WNC2D_forward self input.
Proof.
  intros Hc Hw. unfold WNC2D_forward, with_weight.
  cbn [conv_weight conv_bias conv_stride conv_padding conv_dilation conv_groups].
  rewrite wn2d_scale by assumption. reflexivity.
Qed.

Lemma not_nonzero_all_zero (w : Tensor) : ~ nonzero w -> all_zero w.
Proof.
  intros H idx Hr. destruct (Req_dec (val w idx) 0) as [E|E]; [exact E|].
  exfalso. apply H. exists idx. split; assumption.
Qed.

Lemma all_zero_not_nonzero (w : Tensor) : all_zero w -> ~ nonzero w.
Proof. intros H [idx [Hr Hv]]. apply Hv, H, Hr. Qed.

(** C10.  [wn2d] divides by the norm of all entries without testing it.
    On a weight of rank 4 with at least one entry: the quotient exists
    exactly when some entry of the weight is not zero, and it is then the
    weight divided entrywise by the norm; on an all-zero weight the divisor
    is zero, [wn2d] has no value, and neither has any forward pass of a
    [WNC2D] storing that weight. *)
Theorem wn2d_defined_iff_nonzero (w : Tensor) (a b c d : nat) :
  shape w = [a; b; c; d] ->
  (0 < a)%nat -> (0 < b)%nat -> (0 < c)%nat -> (0 < d)%nat ->
  ((exists y, wn2d w = Ok y) <-> nonzero w) /\
  (nonzero w ->
     wn2d w = Ok (mkT (shape w)
                    (fun idx => val w (bidx (shape w) idx)
                                / val (torch_norm w) []))) /\
  (all_zero w ->
     val (torch_norm w) [] = 0 /\
     wn2d w = Fail DivisionByZero /\
     forall self input,
       conv_weight self = w -> WNC2D_forward self input = Fail DivisionByZero).
Proof.
  intros Hs Ha Hb Hc Hd.
  assert (Hpos : Forall (lt O) (shape w)).
  { rewrite Hs. repeat constructor; assumption. }
  assert (Hnz : nonzero w ->
     wn2d w = Ok (mkT (shape w)
                    (fun idx => val w (bidx (shape w) idx)
                                / val (torch_norm w) []))).
  { intros Hw. rewrite (wn2d_rank4 w a b c d Hs).
    rewrite tany_const by assumption.
    rewrite Rzerob_false; [reflexivity|].
    pose proof (norm_pos w Hw). lra. }
  assert (Hz : all_zero w -> wn2d w = Fail DivisionByZero).
  { intros Hw. rewrite (wn2d_rank4 w a b c d Hs).
    rewrite tany_const by assumption.
    rewrite Rzerob_true; [reflexivity|]. apply norm_zero, Hw. }
  split; [split|split].
  - intros [y Hy]. destruct (Classical_Prop.classic (nonzero w)) as [H|H].
    + exact H.
    + rewrite (Hz (not_nonzero_all_zero w H)) in Hy. discriminate.
  - intros Hw. rewrite (Hnz Hw). eauto.
  - exact Hnz.
  - intros Hw. split; [apply norm_zero, Hw|]. split; [apply Hz, Hw|].
    intros self input E. unfold WNC2D_forward. rewrite E, (Hz Hw). reflexivity.
Qed.

(** ** Evaluation on concrete instances *)

(** Reduces the code of a call on a concrete instance down to an expression
    over the reals. *)
Ltac eval_entry :=
  lazy -[Rplus Rmult Rminus Rdiv Rinv Ropp Rle Rlt sqrt Rmax IZR exp relu
         tanh sigmoid Rlt_dec Req_dec_T Rle_dec INR ln Q2R].

Lemma relu_nonpos (x : R) : x <= 0 -> relu x = 0.
Proof. intros H. unfold relu. apply Rmax_left, H. Qed.

Lemma relu_nonneg (x : R) : 0 <= x -> relu x = x.
Proof. intros H. unfold relu. apply Rmax_right, H. Qed.

Lemma bn_unit_pos : 0 < sqrt (1 + 1 / 100000).
Proof. apply sqrt_lt_R0. lra. Qed.

(** ** BasicBlock *)

(** The forward pass of a block without projection: the activated input
    goes through the branch and the original input is added. *)
Lemma BasicBlock_forward_identity (self : BasicBlock) (tr : Mode)
  (keep : list nat -> bool) (x : Tensor) :
  equalInOut self = true ->
  BasicBlock_forward self tr keep x
  = (y <- BatchNorm2d_forward (bn1 self) tr x ;;
     out <- BasicBlock_branch self tr keep (F_relu y) ;;
     tadd x out).
Proof.
  intros E. unfold BasicBlock_forward, BasicBlock_branch. rewrite E.
  cbn [negb].
  destruct (BatchNorm2d_forward (bn1 self) tr x) as [y|]; cbn [bind]; [|reflexivity].
  destruct (Conv2d_forward (conv1 self) (F_relu y)) as [o1|]; cbn [bind]; [|reflexivity].
  destruct (BatchNorm2d_forward (bn2 self) tr o1) as [o2|]; cbn [bind]; [|reflexivity].
  destruct (if Qlt_bool 0 (droprate self) then _ else _) as [o3|]; cbn [bind]; [|reflexivity].
  destruct (Conv2d_forward (conv2 self) o3) as [o4|]; cbn [bind]; reflexivity.
Qed.

(** The forward pass of a block with projection: the activated input goes
    through the branch and through the projection. *)
Lemma BasicBlock_forward_projection (self : BasicBlock) (tr : Mode)
  (keep : list nat -> bool) (x : Tensor) :
  equalInOut self = false ->
  BasicBlock_forward self tr keep x
  = (y <- BatchNorm2d_forward (bn1 self) tr x ;;
     out <- BasicBlock_branch self tr keep (F_relu y) ;;
     sc <- convShortcut_call self (F_relu y) ;;
     tadd sc out).
Proof.
  intros E. unfold BasicBlock_forward, BasicBlock_branch. rewrite E.
  cbn [negb].
  destruct (BatchNorm2d_forward (bn1 self) tr x) as [y|]; cbn [bind]; [|reflexivity].
  destruct (Conv2d_forward (conv1 self) (F_relu y)) as [o1|]; cbn [bind]; [|reflexivity].
  destruct (BatchNorm2d_forward (bn2 self) tr o1) as [o2|]; cbn [bind]; [|reflexivity].
  destruct (if Qlt_bool 0 (droprate self) then _ else _) as [o3|]; cbn [bind]; [|reflexivity].
  destruct (Conv2d_forward (conv2 self) o3) as [o4|]; cbn [bind]; reflexivity.
Qed.

(** C4 (as amended).  A block built for [in_planes != out_planes] holds a
    1x1 projection with the configured stride and no padding; its forward
    pass feeds the normalised and activated input into the convolutional
    branch and adds to the branch output the projection of that same
    activated tensor.  A block built for [in_planes == out_planes] holds no
    projection, and adds the original input to the branch output. *)
Theorem BasicBlock_shortcut (in_planes out_planes : nat) (stride : Z)
  (dropRate : Q) (theta : ParamStore) :
  exists self,
    BasicBlock_init in_planes out_planes stride dropRate theta = Ok self /\
    (in_planes <> out_planes ->
       exists sc,
         convShortcut self = Some sc /\
         kernel_size sc = (1, 1)%nat /\
         conv_stride sc = (stride, stride) /\
         conv_padding sc = (0, 0)%Z /\
         shape (conv_weight sc) = [out_planes; in_planes; 1; 1]%nat /\
         forall tr keep x,
           BasicBlock_forward self tr keep x
           = (y <- BatchNorm2d_forward (bn1 self) tr x ;;
              out <- BasicBlock_branch self tr keep (F_relu y) ;;
              sc_out <- Conv2d_forward sc (F_relu y) ;;
              tadd sc_out out)) /\
    (in_planes = out_planes ->
       convShortcut self = None /\
       forall tr keep x,
         BasicBlock_forward self tr keep x
         = (y <- BatchNorm2d_forward (bn1 self) tr x ;;
            out <- BasicBlock_branch self tr keep (F_relu y) ;;
            tadd x out)).
Proof.
  rewrite BasicBlock_init_eq. eexists. split; [reflexivity|]. split.
  - intros Hne. apply Nat.eqb_neq in Hne.
    eexists. split; [cbn [convShortcut]; rewrite Hne; reflexivity|].
    repeat split.
    intros tr keep x. rewrite BasicBlock_forward_projection.
    + unfold convShortcut_call. cbn [convShortcut]. rewrite Hne. reflexivity.
    + exact Hne.
  - intros He. apply Nat.eqb_eq in He. split.
    + cbn [convShortcut]. rewrite He. reflexivity.
    + intros tr keep x. apply BasicBlock_forward_identity. exact He.
Qed.

(** C4 (counterexample to the claim as stated).  The block
    [BasicBlock(1, 2, 1, 0.0)] with every convolution weight 1 and
    batch-norm at its initial statistics, in evaluation mode, on the
    1x1 image of value -1: the code returns 0 in channel 0, whereas adding
    the projection of the original input would return -1. *)
Lemma BasicBlock_shortcut_reads_activated_input :
  exists self,
    BasicBlock_init 1 2 1 0%Q (flat_store 1) = Ok self /\
    let x := full [1; 1; 1; 1]%nat (-1) in
    is_ok (BasicBlock_forward self false keep_all x) = true /\
    entry (BasicBlock_forward self false keep_all x) [0; 0; 0; 0]%nat = 0 /\
    is_ok (BasicBlock_forward_projecting_input self false keep_all x) = true /\
    entry (BasicBlock_forward_projecting_input self false keep_all x)
          [0; 0; 0; 0]%nat = -1 /\
    BasicBlock_forward self false keep_all x
    <> BasicBlock_forward_projecting_input self false keep_all x.
Proof.
  rewrite BasicBlock_init_eq. eexists. split; [reflexivity|].
  cbv zeta.
  match goal with
  | |- context [BasicBlock_forward ?b _ _ _] => set (blk := b)
  end.
  pose proof bn_unit_pos as Hs.
  assert (Hneg : (-1 - 0) / sqrt (1 + 1 / 100000) * 1 + 0 <= 0).
  { assert (0 < / sqrt (1 + 1 / 100000)) by (apply Rinv_0_lt_compat; exact Hs).
    unfold Rdiv. nra. }
  assert (E1 : entry (BasicBlock_forward blk false keep_all
                        (full [1; 1; 1; 1]%nat (-1))) [0; 0; 0; 0]%nat = 0).
  { eval_entry. rewrite !(relu_nonpos _ Hneg).
    replace ((0 + (0 + (0 + (0 + 1 * 0 + 1 * 0 + 1 * 0)
                          + (0 + 1 * 0 + 1 * 0 + 1 * 0)
                          + (0 + 1 * 0 + 1 * 0 + 1 * 0))) - 0)
             / sqrt (1 + 1 / 100000) * 1 + 0) with 0
      by (unfold Rdiv; ring).
    rewrite (relu_nonpos 0) by lra. ring. }
  assert (E2 : entry (BasicBlock_forward_projecting_input blk false keep_all
                        (full [1; 1; 1; 1]%nat (-1))) [0; 0; 0; 0]%nat = -1).
  { eval_entry. rewrite !(relu_nonpos _ Hneg).
    replace ((0 + (0 + (0 + (0 + 1 * 0 + 1 * 0 + 1 * 0)
                          + (0 + 1 * 0 + 1 * 0 + 1 * 0)
                          + (0 + 1 * 0 + 1 * 0 + 1 * 0))) - 0)
             / sqrt (1 + 1 / 100000) * 1 + 0) with 0
      by (unfold Rdiv; ring).
    rewrite (relu_nonpos 0) by lra. ring. }
  split; [reflexivity|]. split; [exact E1|].
  split; [reflexivity|]. split; [exact E2|].
  intros H. rewrite H in E1. rewrite E1 in E2. lra.
Qed.

(** ** Shapes through the framework calls *)

Lemma nn_Conv2d_ok (n_in n_out : nat) (ks st pd dl : Z * Z) (g : nat)
  (w : list nat -> R) :
  (0 < g)%nat -> (n_in mod g = 0)%nat -> (n_out mod g = 0)%nat ->
  (0 <= fst ks)%Z -> (0 <= snd ks)%Z ->
  nn_Conv2d n_in n_out ks st pd dl g w None
  = Ok (mkConv2d n_in n_out (Z.to_nat (fst ks), Z.to_nat (snd ks)) st pd dl g
          (mkT [n_out; (n_in / g)%nat; Z.to_nat (fst ks); Z.to_nat (snd ks)] w)
          None).
Proof.
  intros Hg Hi Ho H1 H2. unfold nn_Conv2d.
  destruct (Nat.eqb_spec g 0); [lia|].
  rewrite Hi, Ho. cbn [Nat.eqb andb negb].
  destruct (Z.ltb_spec (fst ks) 0); [lia|].
  destruct (Z.ltb_spec (snd ks) 0); [lia|].
  reflexivity.
Qed.

Lemma conv2d_shape (input weight : Tensor) (stride padding dilation : Z * Z)
  (groups N Cin H W Cout kH kW : nat) :
  shape input = [N; Cin; H; W] ->
  shape weight = [Cout; (Cin / groups)%nat; kH; kW] ->
  (0 < groups)%nat -> (Cin mod groups = 0)%nat -> (Cout mod groups = 0)%nat ->
  conv_axis_ok H kH (fst stride) (fst padding) (fst dilation) = true ->
  conv_axis_ok W kW (snd stride) (snd padding) (snd dilation) = true ->
  (0 < Cin)%nat -> (0 < Cout)%nat ->
  exists y,
    conv2d input weight None stride padding dilation groups = Ok y /\
    shape y = [N; Cout;
               conv_out H kH (Z.to_nat (fst stride)) (Z.to_nat (fst padding))
                        (Z.to_nat (fst dilation));
               conv_out W kW (Z.to_nat (snd stride)) (Z.to_nat (snd padding))
                        (Z.to_nat (snd dilation))].
Proof.
  intros Hi Hw Hg Hci Hco HH HW Hpi Hpo. unfold conv2d, conv2d_batched.
  rewrite Hi, Hw.
  destruct (Nat.ltb_spec 0 groups); [|lia].
  destruct (Nat.ltb_spec 0 Cin); [|lia].
  destruct (Nat.ltb_spec 0 Cout); [|lia].
  rewrite Hci, Hco, !Nat.eqb_refl, HH, HW. cbn [Nat.eqb andb bias_ok].
  eexists. split; reflexivity.
Qed.

Lemma BatchNorm2d_forward_shape (m : BatchNorm2d) (tr : Mode) (x : Tensor)
  (N C H W : nat) :
  shape x = [N; C; H; W] -> C = num_features m ->
  (tr = true -> (N * H * W)%nat <> 1%nat) -> (0 < C)%nat ->
  exists y, BatchNorm2d_forward m tr x = Ok y /\ shape y = [N; C; H; W].
Proof.
  intros Hs Hc Htr Hpos. unfold BatchNorm2d_forward.
  rewrite Hs, <- Hc, Nat.eqb_refl. cbn [negb orb].
  assert (E : tr && (N * H * W =? 1)%nat = false).
  { destruct tr; [|reflexivity]. cbn [andb]. apply Nat.eqb_neq, Htr.
    reflexivity. }
  rewrite E. destruct (Nat.eqb_spec C 0); [lia|].
  eexists. split; reflexivity.
Qed.

(** Sizes shrink along the network, so a batch with more than one value per
    channel at the output of a stage has more than one at its input. *)
Lemma count_mono (N H W H' W' : nat) :
  (1 <= H')%nat -> (H' <= H)%nat -> (1 <= W')%nat -> (W' <= W)%nat ->
  (N * H' * W')%nat <> 1%nat -> (N * H * W)%nat <> 1%nat.
Proof.
  intros A B C D E F. apply E.
  apply Nat.eq_mul_1 in F. destruct F as [F ->].
  apply Nat.eq_mul_1 in F. destruct F as [-> ->].
  assert (H' = 1%nat) by lia. assert (W' = 1%nat) by lia. subst. reflexivity.
Qed.

Lemma down_le (H s : nat) : (1 <= H)%nat -> ((H - 1) / s + 1 <= H)%nat.
Proof.
  intros HH. destruct s as [|s]; [cbn; lia|].
  assert ((H - 1) / S s <= H - 1)%nat; [|lia].
  apply Nat.Div0.div_le_upper_bound. nia.
Qed.

(** ** seq *)

Lemma seq_padding_eq (k d : Z) :
  seq_padding k d = ((d * (k - 1) + 1) / 2)%Z.
Proof. unfold seq_padding. f_equal. ring. Qed.

(** Along one axis, with stride 1: the convolution [seq] builds accepts
    every non-empty input, and its output is longer than the input by the
    parity of [d * (k - 1)]. *)
Lemma seq_axis (k d : Z) (H : nat) :
  (1 <= k)%Z -> (1 <= d)%Z -> (1 <= H)%nat ->
  conv_axis_ok H (Z.to_nat k) 1 (seq_padding k d) d = true /\
  conv_out H (Z.to_nat k) (Z.to_nat 1) (Z.to_nat (seq_padding k d)) (Z.to_nat d)
  = (H + Z.to_nat ((d * (k - 1)) mod 2))%nat.
Proof.
  intros Hk Hd HH. rewrite seq_padding_eq.
  assert (He : (0 <= d * (k - 1))%Z) by nia.
  assert (En : (Z.to_nat d * (Z.to_nat k - 1))%nat = Z.to_nat (d * (k - 1))).
  { rewrite Z2Nat.inj_mul by lia. f_equal. lia. }
  set (e := (d * (k - 1))%Z) in *.
  assert (Hp : (2 * ((e + 1) / 2) = e + e mod 2)%Z).
  { pose proof (Z.div_mod (e + 1) 2 ltac:(lia)).
    pose proof (Z.mod_pos_bound (e + 1) 2 ltac:(lia)).
    pose proof (Z.div_mod e 2 ltac:(lia)).
    pose proof (Z.mod_pos_bound e 2 ltac:(lia)).
    assert ((e + 1) / 2 = e / 2 + e mod 2)%Z; [|lia].
    symmetry. apply Z.div_unique with (r := (1 - e mod 2)%Z); lia. }
  pose proof (Z.mod_pos_bound e 2 ltac:(lia)) as Hm.
  assert (Hp0 : (0 <= (e + 1) / 2)%Z) by (apply Z.div_pos; lia).
  split.
  - unfold conv_axis_ok. rewrite En.
    repeat (apply andb_true_intro; split).
    + reflexivity.
    + apply Z.leb_le. exact Hp0.
    + apply Z.ltb_lt. lia.
    + apply Nat.ltb_lt. lia.
    + apply Nat.leb_le. lia.
  - unfold conv_out. rewrite En. change (Z.to_nat 1) with 1%nat.
    rewrite Nat.div_1_r. lia.
Qed.

Lemma seq_init_eq (n_in n_out : nat) (k0 k1 d0 d1 : Z)
  (pre bnf : bool) (groups : nat) (act : Activation) (theta : ParamStore) :
  (0 <= k0)%Z -> (0 <= k1)%Z ->
  (0 < groups)%nat -> (n_in mod groups = 0)%nat -> (n_out mod groups = 0)%nat ->
  seq_init n_in n_out (k0, k1) (d0, d1) pre bnf groups act theta
  = Ok (mkSeq (d0, d1) pre bnf
          (if bnf then Some (nn_BatchNorm2d n_in (child "bn" theta)) else None)
          (mkConv2d n_in n_out (Z.to_nat k0, Z.to_nat k1) (pair2 1)
             (seq_padding k0 d0, seq_padding k1 d1) (d0, d1) groups
             (mkT [n_out; (n_in / groups)%nat; Z.to_nat k0; Z.to_nat k1]
                  (child "conv" theta [] KConv Weight)) None)
          act).
Proof.
  intros H0 H1 Hg Hi Ho. unfold seq_init.
  rewrite nn_Conv2d_ok by assumption. reflexivity.
Qed.

Lemma seq_forward_shape (n_in n_out : nat) (k0 k1 d0 d1 : Z)
  (pre bnf : bool) (groups : nat) (act : Activation) (theta : ParamStore)
  (self : seq) (tr : Mode) (x : Tensor) (f : Activation) (N H W : nat) :
  (1 <= k0)%Z -> (1 <= k1)%Z -> (1 <= d0)%Z -> (1 <= d1)%Z ->
  (0 < groups)%nat -> (n_in mod groups = 0)%nat -> (n_out mod groups = 0)%nat ->
  seq_init n_in n_out (k0, k1) (d0, d1) pre bnf groups act theta = Ok self ->
  shape x = [N; n_in; H; W] -> (1 <= H)%nat -> (1 <= W)%nat ->
  shape_preserving f ->
  (bnf = true -> pre = false -> n_in = n_out) ->
  (bnf = true -> tr = true -> (N * H * W)%nat <> 1%nat) ->
  (0 < n_in)%nat -> (0 < n_out)%nat ->
  exists y,
    seq_forward self tr x f = Ok y /\
    shape y = [N; n_out; (H + Z.to_nat ((d0 * (k0 - 1)) mod 2))%nat;
                         (W + Z.to_nat ((d1 * (k1 - 1)) mod 2))%nat].
Proof.
  intros Hk0 Hk1 Hd0 Hd1 Hg Hi Ho Hinit Hx HH HW Hf Hbn Hcnt Hpi Hpo.
  rewrite seq_init_eq in Hinit by (assumption || lia).
  inversion Hinit; subst self; clear Hinit.
  destruct (seq_axis k0 d0 H Hk0 Hd0 HH) as [A0 O0].
  destruct (seq_axis k1 d1 W Hk1 Hd1 HW) as [A1 O1].
  assert (Hconv : forall t, shape t = [N; n_in; H; W] ->
    exists y,
      Conv2d_forward
        (mkConv2d n_in n_out (Z.to_nat k0, Z.to_nat k1) (pair2 1)
           (seq_padding k0 d0, seq_padding k1 d1) (d0, d1) groups
           (mkT [n_out; (n_in / groups)%nat; Z.to_nat k0; Z.to_nat k1]
                (child "conv" theta [] KConv Weight)) None) t = Ok y /\
      shape y = [N; n_out; (H + Z.to_nat ((d0 * (k0 - 1)) mod 2))%nat;
                           (W + Z.to_nat ((d1 * (k1 - 1)) mod 2))%nat]).
  { intros t Ht. unfold Conv2d_forward.
    cbn [conv_weight conv_bias conv_stride conv_padding conv_dilation conv_groups].
    destruct (conv2d_shape t
                (mkT [n_out; (n_in / groups)%nat; Z.to_nat k0; Z.to_nat k1]
                     (child "conv" theta [] KConv Weight))
                (pair2 1) (seq_padding k0 d0, seq_padding k1 d1) (d0, d1)
                groups N n_in H W n_out (Z.to_nat k0) (Z.to_nat k1))
      as (y & Ey & Sy); try assumption; try reflexivity.
    exists y. split; [exact Ey|]. rewrite Sy.
    cbn [fst snd pair2]. rewrite O0, O1. reflexivity. }
  unfold seq_forward, seq_get_bn.
  cbn [seq_preactivation seq_batchnorm seq_bn seq_conv].
  destruct pre, bnf; cbn [bind].
  - destruct (BatchNorm2d_forward_shape
                (nn_BatchNorm2d n_in (child "bn" theta)) tr x N n_in H W Hx
                eq_refl (Hcnt eq_refl) Hpi) as (y & Ey & Sy).
    rewrite Ey. cbn [bind]. apply Hconv. rewrite Hf. exact Sy.
  - apply Hconv. rewrite Hf. exact Hx.
  - destruct (Hconv x Hx) as (y & Ey & Sy). rewrite Ey. cbn [bind].
    specialize (Hbn eq_refl eq_refl).
    destruct (BatchNorm2d_forward_shape
                (nn_BatchNorm2d n_in (child "bn" theta)) tr y N n_out _ _ Sy
                (eq_sym Hbn)) as (z & Ez & Sz).
    { intros Htr. apply (count_mono N _ _ H W); try lia.
      apply Hcnt; [reflexivity|exact Htr]. }
    { exact Hpo. }
    rewrite Ez. cbn [bind]. eexists. split; [reflexivity|].
    rewrite Hf. exact Sz.
  - destruct (Hconv x Hx) as (y & Ey & Sy). rewrite Ey. cbn [bind].
    eexists. split; [reflexivity|]. rewrite Hf. exact Sy.
Qed.

Lemma nn_Conv2d_inv (n_in n_out : nat) (ks st pd dl : Z * Z) (g : nat)
  (w : list nat -> R) (c : Conv2d) :
  nn_Conv2d n_in n_out ks st pd dl g w None = Ok c ->
  c = mkConv2d n_in n_out (Z.to_nat (fst ks), Z.to_nat (snd ks)) st pd dl g
        (mkT [n_out; (n_in / g)%nat; Z.to_nat (fst ks); Z.to_nat (snd ks)] w)
        None /\
  (0 < g)%nat /\ (n_in mod g = 0)%nat /\ (n_out mod g = 0)%nat.
Proof.
  unfold nn_Conv2d.
  destruct (Nat.eqb_spec g 0); [discriminate|].
  destruct (Nat.eqb_spec (n_in mod g) 0); cbn [andb negb]; [|discriminate].
  destruct (Nat.eqb_spec (n_out mod g) 0); cbn [andb negb]; [|discriminate].
  destruct (_ || _)%bool; [discriminate|].
  intros E. inversion E. repeat split; try assumption. lia.
Qed.

Lemma seq_init_inv (n_in n_out : nat) (kernel_size dilation : Z * Z)
  (pre bnf : bool) (groups : nat) (act : Activation) (theta : ParamStore)
  (self : seq) :
  seq_init n_in n_out kernel_size dilation pre bnf groups act theta = Ok self ->
  seq_preactivation self = pre /\ seq_batchnorm self = bnf /\
  seq_bn self = (if bnf then Some (nn_BatchNorm2d n_in (child "bn" theta))
                 else None) /\
  nn_Conv2d n_in n_out kernel_size (pair2 1)
    (seq_padding (fst kernel_size) (fst dilation),
     seq_padding (snd kernel_size) (snd dilation))
    dilation groups (child "conv" theta [] KConv Weight) None
  = Ok (seq_conv self).
Proof.
  unfold seq_init. intros E. apply bind_Ok in E. destruct E as (c & Ec & E).
  inversion E; subst self. cbn. repeat split; try reflexivity. exact Ec.
Qed.

(** C6 (as amended).  Every [seq] the constructor returns, whatever the
    kernel size and dilation, holds a convolution with padding
    [(k + (k-1)*(d-1)) // 2] along each axis.  For kernel sizes and
    dilations of at least 1, positive channel counts and a valid group
    count, the construction succeeds, and on a batch with non-empty images
    the forward pass returns, along each axis, the input size plus the
    parity of [d * (k - 1)]: the spatial size is preserved when
    [d * (k - 1)] is even on both axes (so for every odd kernel size), and
    the output is one longer along an axis where it is odd.  (With batch
    normalisation after the convolution, the input and output channel counts
    must agree, since the normalisation is built for [n_in] channels; with
    batch normalisation in training mode, the batch must hold more than one
    value per channel.) *)
Theorem seq_padding_spatial_size (n_in n_out : nat) (k0 k1 d0 d1 : Z)
  (pre bnf : bool) (groups : nat) (act : Activation) (theta : ParamStore) :
  (forall self,
     seq_init n_in n_out (k0, k1) (d0, d1) pre bnf groups act theta = Ok self ->
     conv_padding (seq_conv self)
     = (((k0 + (k0 - 1) * (d0 - 1)) / 2)%Z,
        ((k1 + (k1 - 1) * (d1 - 1)) / 2)%Z)) /\
  ((1 <= k0)%Z -> (1 <= k1)%Z -> (1 <= d0)%Z -> (1 <= d1)%Z ->
   (0 < groups)%nat -> (n_in mod groups = 0)%nat ->
   (n_out mod groups = 0)%nat ->
   (0 < n_in)%nat -> (0 < n_out)%nat ->
   (bnf = true -> pre = false -> n_in = n_out) ->
   exists self,
     seq_init n_in n_out (k0, k1) (d0, d1) pre bnf groups act theta = Ok self /\
     forall tr x f N H W,
       shape x = [N; n_in; H; W] -> (1 <= H)%nat -> (1 <= W)%nat ->
       shape_preserving f ->
       (bnf = true -> tr = true -> (N * H * W)%nat <> 1%nat) ->
       exists y,
         seq_forward self tr x f = Ok y /\
         shape y = [N; n_out; (H + Z.to_nat ((d0 * (k0 - 1)) mod 2))%nat;
                              (W + Z.to_nat ((d1 * (k1 - 1)) mod 2))%nat] /\
         (((d0 * (k0 - 1)) mod 2 = 0)%Z -> ((d1 * (k1 - 1)) mod 2 = 0)%Z ->
          shape y = [N; n_out; H; W])).
Proof.
  split.
  - intros self Hinit.
    destruct (seq_init_inv _ _ _ _ _ _ _ _ _ _ Hinit) as (_ & _ & _ & Hc).
    destruct (nn_Conv2d_inv _ _ _ _ _ _ _ _ _ Hc) as (E & _).
    rewrite E. reflexivity.
  - intros Hk0 Hk1 Hd0 Hd1 Hg Hi Ho Hpi Hpo Hbn.
    pose proof (seq_init_eq n_in n_out k0 k1 d0 d1 pre bnf groups act theta
                  ltac:(lia) ltac:(lia) Hg Hi Ho) as Einit.
    eexists. split; [exact Einit|].
    intros tr x f N H W Hx HH HW Hf Hcnt.
    destruct (seq_forward_shape n_in n_out k0 k1 d0 d1 pre bnf groups act theta
                _ tr x f N H W Hk0 Hk1 Hd0 Hd1 Hg Hi Ho Einit Hx HH HW Hf Hbn
                Hcnt Hpi Hpo)
      as (y & Ey & Sy).
    exists y. split; [exact Ey|]. split; [exact Sy|].
    intros E0 E1. rewrite Sy, E0, E1. cbn [Z.to_nat]. rewrite !Nat.add_0_r.
    reflexivity.
Qed.

Lemma seq_padding_spatial_size_witness :
  exists self,
    seq_init 2 4 (3, 3)%Z (1, 1)%Z true false 1 F_relu (flat_store 1)
    = Ok self /\
    conv_padding (seq_conv self) = (1, 1)%Z /\
    forall tr x f N H W,
      shape x = [N; 2; H; W]%nat -> (1 <= H)%nat -> (1 <= W)%nat ->
      shape_preserving f ->
      (false = true -> tr = true -> (N * H * W)%nat <> 1%nat) ->
      exists y,
        seq_forward self tr x f = Ok y /\
        shape y = [N; 4; H + 0; W + 0]%nat /\
        ((0 = 0)%Z -> (0 = 0)%Z -> shape y = [N; 4; H; W]%nat).
Proof.
  destruct (seq_padding_spatial_size 2 4 3 3 1 1 true false 1 F_relu
              (flat_store 1)) as [P F].
  destruct F as (self & E & K); try lia; try reflexivity.
  exists self. split; [exact E|]. split; [exact (P self E)|exact K].
Defined.

(** C6 (counterexample to the claim as stated).  [seq(1, 1,
    kernel_size=(2,2), dilation=(1,1))] has padding [(2 + 1*0) // 2 = 1];
    on a 4x4 input its forward pass returns a 5x5 output. *)
Lemma seq_even_kernel_grows :
  exists self,
    seq_init 1 1 (2, 2)%Z (1, 1)%Z true false 1 F_relu (flat_store 1)
    = Ok self /\
    conv_padding (seq_conv self) = (1, 1)%Z /\
    result_shape (seq_forward self false (full [1; 1; 4; 4]%nat 0) F_relu)
    = Some [1; 1; 5; 5]%nat.
Proof.
  eexists. split; [reflexivity|]. split; reflexivity.
Qed.

(** ** Layer *)

Lemma half_even_succ (m : nat) : ((Z.of_nat (2 * m) + 1) / 2 = Z.of_nat m)%Z.
Proof. symmetry. apply Z.div_unique with (r := 1%Z); lia. Qed.

Lemma half_even (m : nat) : ((Z.of_nat (2 * m)) / 2 = Z.of_nat m)%Z.
Proof. symmetry. apply Z.div_unique with (r := 0%Z); lia. Qed.

(** The interleaving gate on a tensor with an even number [2 * m] of
    channels: output channel [c] is tanh of channel [2c] times sigmoid of
    channel [2c + 1]. *)
Lemma split_gate_spec (s : Tensor) (N m : nat) (rest : list nat) :
  shape s = N :: (2 * m)%nat :: rest ->
  exists r,
    split_gate s = Ok r /\
    shape r = N :: m :: rest /\
    forall n c tail,
      in_range (N :: m :: rest) (n :: c :: tail) ->
      val r (n :: c :: tail)
      = tanh (val s (n :: (2 * c)%nat :: tail))
        * sigmoid (val s (n :: (2 * c + 1)%nat :: tail)).
Proof.
  intros Hs. unfold split_gate, slice_dim1. rewrite Hs. cbn [bind].
  unfold slice_bound.
  assert (L0 : slice_len 0 (Z.of_nat (2 * m)) (Z.of_nat 2) = m).
  { unfold slice_len. destruct (Z.ltb_spec 0 (Z.of_nat (2 * m))).
    - replace (Z.of_nat (2 * m) - 0 + Z.of_nat 2 - 1)%Z
        with (Z.of_nat (2 * m) + 1)%Z by lia.
      rewrite half_even_succ. lia.
    - lia. }
  assert (L1 : slice_len
                 (Z.max 0 (Z.min (Z.of_nat (2 * m))
                             (if (1 <? 0)%Z then (1 + Z.of_nat (2 * m))%Z
                              else 1%Z)))
                 (Z.of_nat (2 * m)) (Z.of_nat 2) = m).
  { change (1 <? 0)%Z with false. cbv iota. unfold slice_len.
    destruct (Z.ltb_spec (Z.max 0 (Z.min (Z.of_nat (2 * m)) 1))
                         (Z.of_nat (2 * m))).
    - replace (Z.of_nat (2 * m) - Z.max 0 (Z.min (Z.of_nat (2 * m)) 1)
               + Z.of_nat 2 - 1)%Z
        with (Z.of_nat (2 * m))%Z by lia.
      rewrite half_even. lia.
    - lia. }
  rewrite L0, L1.
  unfold tmul, binop. cbn [shape F_tanh F_sigmoid tmap]. rewrite broadcast_same.
  eexists. split; [reflexivity|]. split; [reflexivity|].
  intros n c tail Hr. cbn [val].
  rewrite (bidx_in_range _ _ Hr).
  assert (Hc : (c < m)%nat).
  { inversion Hr as [|? ? ? ? ? Hr']; subst. inversion Hr'; subst. assumption. }
  change (1 <? 0)%Z with false. cbv iota.
  cbv [F_tanh F_sigmoid tmap val].
  match goal with
  | |- tanh (_ (n :: ?a :: tail)) * sigmoid (_ (n :: ?b :: tail)) = _ =>
      replace a with (2 * c)%nat by lia;
      replace b with (2 * c + 1)%nat by lia
  end.
  reflexivity.
Qed.

Lemma Layer_make_op_inv (n_bottle n_out : nat) (dilation : list (Z * Z))
  (activation : list Activation) (kernel_size : list (Z * Z))
  (groups : list nat) (preactivation seq_bn : bool) (theta : ParamStore)
  (i : nat) (o : bool) (m : OpModule) :
  Layer_make_op n_bottle n_out dilation activation kernel_size groups
    preactivation seq_bn theta (i, o) = Ok m ->
  (o = false /\ m = OpBare) \/
  (o = true /\
   exists s k d g a,
     m = OpSeq s /\
     seq_init (if (i mod 2 =? 0)%nat then n_bottle else n_out) n_out k d
       preactivation seq_bn g a (child (str_of_nat i) (child "op" theta))
     = Ok s).
Proof.
  unfold Layer_make_op. destruct o; intros H.
  - right. split; [reflexivity|].
    apply bind_Ok in H. destruct H as (d & _ & H).
    apply bind_Ok in H. destruct H as (k & _ & H).
    apply bind_Ok in H. destruct H as (g & _ & H).
    apply bind_Ok in H. destruct H as (a & _ & H).
    apply bind_Ok in H. destruct H as (s & Hs & H).
    inversion H. exists s, k, d, g, a. split; [reflexivity|exact Hs].
  - left. inversion H. split; reflexivity.
Qed.

(** The branches a constructed [Layer] holds: each [seq] takes the layer's
    [preactivation], and has a batch normalisation of its own exactly when
    the norm style is 'full'. *)
Lemma Layer_init_branches (n_in n_bottle n_out : nat) (flags gates : list bool)
  (dilation : list (Z * Z)) (activation : list Activation)
  (kernel_size : list (Z * Z)) (groups : list nat) (preact : bool)
  (gstyle nstyle : string) (theta : ParamStore) (self : Layer) (s : seq) :
  Layer_init n_in n_bottle n_out flags gates dilation activation
    kernel_size groups preact gstyle nstyle theta = Ok self ->
  In (OpSeq s) (op self) ->
  seq_preactivation s = preact /\
  seq_batchnorm s = (nstyle =? "full")%string /\
  (seq_batchnorm s = true -> exists bn, seq_bn s = Some bn).
Proof.
  unfold Layer_init. intros H Hin.
  apply bind_Ok in H. destruct H as (io & _ & H).
  apply bind_Ok in H. destruct H as (ops' & Hops & H).
  inversion H; subst self; clear H. cbn [op] in Hin.
  destruct (mapM_nth _ _ _ Hops) as [Hl Hn].
  apply In_nth_error in Hin. destruct Hin as [k Hk].
  assert (Hlt : (k < List.length (combine (List.seq 0 (List.length flags)) flags))%nat).
  { rewrite <- Hl. apply nth_error_Some. congruence. }
  destruct (nth_error (combine (List.seq 0 (List.length flags)) flags) k)
    as [[i o]|] eqn:Ea; [|apply nth_error_None in Ea; lia].
  destruct (Hn k (i, o) Ea) as (b & Eb & Hb).
  rewrite Hk in Eb. inversion Eb; subst b. clear Eb.
  destruct (Layer_make_op_inv _ _ _ _ _ _ _ _ _ _ _ _ Hb)
    as [[_ E]|(_ & s' & kk & d & g & a & E & Hs)]; [discriminate E|].
  inversion E; subst s'. clear E.
  destruct (seq_init_inv _ _ _ _ _ _ _ _ _ _ Hs) as (Hp & Hbn & Hsb & _).
  split; [exact Hp|]. split; [exact Hbn|].
  intros Et. rewrite Hbn in Et. rewrite Et in Hsb. eauto.
Qed.

(** C2 (as amended).  For a [Layer] whose [gate[0]] is true:
    with a gate style other than "mult" (so with "add_split"), the first
    stage computes [s = op[0](out) + op[2](out)] and returns
    [tanh(s[:, ::2]) * sigmoid(s[:, 1::2])], which for an even number of
    channels pairs channel [2c] (through tanh) with channel [2c+1] (through
    sigmoid);
    with the gate style "mult" it returns
    [op[0](out, F.tanh) * op[2](out, F.sigmoid)], where tanh and sigmoid
    take the place of the ReLU inside each [seq], at the place where
    [seq.forward] applies its activation: under pre-activation to the input
    of the convolution, [conv(f(out))], or [conv(f(bn(out)))] when the
    branch has a batch normalisation of its own; under post-activation to
    its output, [f(conv(out))], or [f(bn(conv(out)))].  The branches of a
    constructed [Layer] take its [preactivation] and have a batch
    normalisation of their own exactly for the norm style 'full'. *)
Theorem Layer_stage0_gate (self : Layer) (tr : Mode) (out : Tensor) :
  index (gate self) 0 = Ok true ->
  (gate_style self <> "mult"%string ->
   Layer_stage0 self tr out
   = (op0 <- index (op self) 0 ;;
      a <- OpModule_call op0 tr out F_relu ;;
      op2 <- index (op self) 2 ;;
      b <- OpModule_call op2 tr out F_relu ;;
      s <- tadd a b ;;
      r <- split_gate s ;;
      Ok (One r))) /\
  (forall s N m rest,
     shape s = N :: (2 * m)%nat :: rest ->
     exists r,
       split_gate s = Ok r /\
       shape r = N :: m :: rest /\
       forall n c tail,
         in_range (N :: m :: rest) (n :: c :: tail) ->
         val r (n :: c :: tail)
         = tanh (val s (n :: (2 * c)%nat :: tail))
           * sigmoid (val s (n :: (2 * c + 1)%nat :: tail))) /\
  (gate_style self = "mult"%string ->
   Layer_stage0 self tr out
   = (op0 <- index (op self) 0 ;;
      a <- OpModule_call op0 tr out F_tanh ;;
      op2 <- index (op self) 2 ;;
      b <- OpModule_call op2 tr out F_sigmoid ;;
      r <- tmul a b ;;
      Ok (One r))) /\
  (forall s x f,
     seq_preactivation s = true -> seq_batchnorm s = false ->
     OpModule_call (OpSeq s) tr x f = Conv2d_forward (seq_conv s) (f x)) /\
  (forall s x f,
     seq_preactivation s = false -> seq_batchnorm s = false ->
     OpModule_call (OpSeq s) tr x f
     = (y <- Conv2d_forward (seq_conv s) x ;; Ok (f y))) /\
  (forall s x f bn,
     seq_preactivation s = true -> seq_batchnorm s = true ->
     seq_bn s = Some bn ->
     OpModule_call (OpSeq s) tr x f
     = (y <- BatchNorm2d_forward bn tr x ;;
        Conv2d_forward (seq_conv s) (f y))) /\
  (forall s x f bn,
     seq_preactivation s = false -> seq_batchnorm s = true ->
     seq_bn s = Some bn ->
     OpModule_call (OpSeq s) tr x f
     = (y <- Conv2d_forward (seq_conv s) x ;;
        z <- BatchNorm2d_forward bn tr y ;;
        Ok (f z))) /\
  (forall n_in n_bottle n_out flags gates dilation activation kernel_size
          groups preact gstyle nstyle theta s,
     Layer_init n_in n_bottle n_out flags gates dilation activation
       kernel_size groups preact gstyle nstyle theta = Ok self ->
     In (OpSeq s) (op self) ->
     seq_preactivation s = preact /\
     seq_batchnorm s = (nstyle =? "full")%string /\
     (seq_batchnorm s = true -> exists bn, seq_bn s = Some bn)).
Proof.
  intros Hg. split; [|split; [|split; [|split; [|split; [|split; [|split]]]]]].
  - intros Hs. unfold Layer_stage0. rewrite Hg. cbn [bind].
    apply String.eqb_neq in Hs. rewrite Hs. reflexivity.
  - exact split_gate_spec.
  - intros Hs. unfold Layer_stage0. rewrite Hg. cbn [bind].
    rewrite Hs. reflexivity.
  - intros s x f Hp Hb. cbn [OpModule_call]. unfold seq_forward.
    rewrite Hp, Hb. reflexivity.
  - intros s x f Hp Hb. cbn [OpModule_call]. unfold seq_forward.
    rewrite Hp, Hb. reflexivity.
  - intros s x f bn Hp Hb Hbn. cbn [OpModule_call].
    unfold seq_forward, seq_get_bn. rewrite Hp, Hb, Hbn. reflexivity.
  - intros s x f bn Hp Hb Hbn. cbn [OpModule_call].
    unfold seq_forward, seq_get_bn. rewrite Hp, Hb, Hbn.
    destruct (Conv2d_forward (seq_conv s) x); reflexivity.
  - intros n_in n_bottle n_out flags gates dil act ks groups preact gstyle
           nstyle theta s Hinit Hin.
    exact (Layer_init_branches _ _ _ _ _ _ _ _ _ _ _ _ _ _ _ Hinit Hin).
Qed.

Lemma Layer_stage0_gate_witness :
  exists self,
    Layer_init 1 1 2 [true; false; true; false] [true; false]
      (repeat (1, 1)%Z 4) (repeat F_relu 4) (repeat (1, 1)%Z 4)
      (repeat 1%nat 4) true "add_split" "before" ramp_store = Ok self /\
    let out := full [1; 1; 1; 1]%nat 1 in
    Layer_stage0 self false out
    = (op0 <- index (op self) 0 ;;
       a <- OpModule_call op0 false out F_relu ;;
       op2 <- index (op self) 2 ;;
       b <- OpModule_call op2 false out F_relu ;;
       s <- tadd a b ;;
       r <- split_gate s ;;
       Ok (One r)) /\
    exists r,
      Layer_stage0 self false out = Ok (One r) /\
      shape r = [1; 1; 1; 1]%nat /\
      val r [0; 0; 0; 0]%nat = tanh 2 * sigmoid 4.
Proof.
  eexists. split; [reflexivity|]. cbv zeta.
  match goal with
  | |- Layer_stage0 ?l ?t ?o = _ /\ _ =>
      destruct (Layer_stage0_gate l t o eq_refl) as (H1 & _)
  end.
  split; [apply H1; discriminate|].
  eexists. split; [reflexivity|]. split; [reflexivity|].
  eval_entry. cbn [INR]. rewrite (relu_nonneg 1) by lra.
  f_equal; f_equal; ring.
Defined.

(** ** Bounds on tanh and sigmoid *)

Lemma lt_div_r (x y z : R) : 0 < z -> x * z < y -> x < y / z.
Proof.
  intros Hz H. apply Rmult_lt_reg_r with z; [assumption|].
  unfold Rdiv. rewrite Rmult_assoc, Rinv_l by lra. lra.
Qed.

Lemma lt_div_l (x y z : R) : 0 < z -> x < y * z -> x / z < y.
Proof.
  intros Hz H. apply Rmult_lt_reg_r with z; [assumption|].
  unfold Rdiv. rewrite Rmult_assoc, Rinv_l by lra. lra.
Qed.

Lemma tanh_bound (x : R) : -1 < tanh x < 1.
Proof.
  unfold tanh, sinh, cosh.
  pose proof (exp_pos x) as Ha. pose proof (exp_pos (- x)) as Hb.
  set (a := exp x) in *. set (b := exp (- x)) in *.
  replace ((a - b) / 2 / ((a + b) / 2)) with ((a - b) / (a + b))
    by (field; lra).
  split.
  - apply lt_div_r; lra.
  - apply lt_div_l; lra.
Qed.

Lemma sigmoid_bound (x : R) : 0 < sigmoid x < 1.
Proof.
  unfold sigmoid. pose proof (exp_pos (- x)) as Hb.
  set (b := exp (- x)) in *.
  split.
  - apply Rdiv_lt_0_compat; lra.
  - apply lt_div_l; lra.
Qed.

Lemma exp_1_gt_2 : 2 < exp 1.
Proof. pose proof (exp_ineq1 1 ltac:(lra)). lra. Qed.

Lemma exp_m1_lt_half : exp (Ropp 1) < 1 / 2.
Proof.
  pose proof exp_1_gt_2 as He. rewrite exp_Ropp.
  apply Rmult_lt_reg_r with (exp 1); [lra|].
  rewrite Rinv_l by lra. lra.
Qed.

Lemma sigmoid_1_gt_half : 1 / 2 < sigmoid 1.
Proof.
  unfold sigmoid. pose proof exp_m1_lt_half as Hb.
  pose proof (exp_pos (Ropp 1)).
  apply lt_div_r; lra.
Qed.

Lemma tanh_1_gt_half : 1 / 2 < tanh 1.
Proof.
  unfold tanh, sinh, cosh. pose proof exp_1_gt_2 as He.
  pose proof exp_m1_lt_half as Hb.
  pose proof (exp_pos (Ropp 1)) as Hp.
  set (a := exp 1) in *. set (b := exp (Ropp 1)) in *.
  replace ((a - b) / 2 / ((a + b) / 2)) with ((a - b) / (a + b))
    by (field; lra).
  apply lt_div_r; lra.
Qed.

(** C2 (counterexample to the "mult" half of the claim as stated).
    [Layer(1, 1, 1, ops=[1,0,1,0], gate=[1,0], kernel_size=[(1,1)]*4,
    gate_style='mult', norm_style='before')] with every convolution weight
    4, in evaluation mode, on the 1x1 tensor of value 1 reaching the first
    stage: the code returns [(4 * tanh 1) * (4 * sigmoid 1)], which exceeds
    4, while tanh and sigmoid of the branch outputs give
    [tanh 4 * sigmoid 4], which is below 1. *)
Lemma Layer_mult_gate_acts_before_conv :
  exists self,
    unit_layer [true; false; true; false] [true; false] "mult" 4 = Ok self /\
    let out := full [1; 1; 1; 1]%nat 1 in
    exists r r',
      Layer_stage0 self false out = Ok (One r) /\
      Layer_stage0_mult_on_outputs self false out = Ok (One r') /\
      val r [0; 0; 0; 0]%nat = (4 * tanh 1) * (4 * sigmoid 1) /\
      val r' [0; 0; 0; 0]%nat = tanh 4 * sigmoid 4 /\
      4 < val r [0; 0; 0; 0]%nat /\
      val r' [0; 0; 0; 0]%nat < 1 /\
      Layer_stage0 self false out
      <> Layer_stage0_mult_on_outputs self false out.
Proof.
  eexists. split; [reflexivity|]. cbv zeta.
  eexists. eexists. split; [reflexivity|]. split; [reflexivity|].
  match goal with
  | |- val ?a _ = _ /\ val ?b _ = _ /\ _ => set (r := a); set (r' := b)
  end.
  assert (E : val r [0; 0; 0; 0]%nat = (4 * tanh 1) * (4 * sigmoid 1)).
  { subst r. eval_entry. ring. }
  assert (E' : val r' [0; 0; 0; 0]%nat = tanh 4 * sigmoid 4).
  { subst r'. eval_entry. rewrite (relu_nonneg 1) by lra.
    f_equal; f_equal; ring. }
  pose proof tanh_1_gt_half as T1. pose proof sigmoid_1_gt_half as S1.
  pose proof (tanh_bound 4) as T4. pose proof (sigmoid_bound 4) as S4.
  assert (G : 4 < val r [0; 0; 0; 0]%nat) by (rewrite E; nra).
  assert (L : val r' [0; 0; 0; 0]%nat < 1) by (rewrite E'; nra).
  split; [exact E|]. split; [exact E'|]. split; [exact G|]. split; [exact L|].
  intros H. change (@Ok Flow (One r) = Ok (One r')) in H.
  assert (Hv : val r [0; 0; 0; 0]%nat = val r' [0; 0; 0; 0]%nat)
    by congruence.
  lra.
Qed.

(** ** Layer: which branches exist, and the ungated forward pass *)

Lemma Layer_make_op_is_seq (n_bottle n_out : nat) (dilation : list (Z * Z))
  (activation : list Activation) (kernel_size : list (Z * Z))
  (groups : list nat) (preactivation seq_bn : bool) (theta : ParamStore)
  (i : nat) (o : bool) (m : OpModule) :
  Layer_make_op n_bottle n_out dilation activation kernel_size groups
    preactivation seq_bn theta (i, o) = Ok m ->
  is_seq m = o.
Proof.
  unfold Layer_make_op. destruct o; intros H.
  - apply bind_Ok in H. destruct H as (d & _ & H).
    apply bind_Ok in H. destruct H as (k & _ & H).
    apply bind_Ok in H. destruct H as (g & _ & H).
    apply bind_Ok in H. destruct H as (a & _ & H).
    apply bind_Ok in H. destruct H as (s & _ & H).
    inversion H. reflexivity.
  - inversion H. reflexivity.
Qed.

Lemma Layer_init_op4 (n_in n_bottle n_out : nat) (o0 o1 o2 o3 : bool)
  (gates : list bool) (dilation : list (Z * Z)) (activation : list Activation)
  (kernel_size : list (Z * Z)) (groups : list nat) (preactivation : bool)
  (gate_style norm_style : string) (theta : ParamStore) (self : Layer) :
  Layer_init n_in n_bottle n_out [o0; o1; o2; o3] gates dilation activation
    kernel_size groups preactivation gate_style norm_style theta = Ok self ->
  gate self = gates /\
  exists m0 m1 m2 m3,
    op self = [m0; m1; m2; m3] /\
    is_seq m0 = o0 /\ is_seq m1 = o1 /\ is_seq m2 = o2 /\ is_seq m3 = o3.
Proof.
  unfold Layer_init. intros H.
  apply bind_Ok in H. destruct H as (io & _ & H).
  apply bind_Ok in H. destruct H as (ops' & Hops & H).
  inversion H; subst self; clear H. cbn [gate op].
  split; [reflexivity|].
  cbn [List.length List.seq combine mapM] in Hops.
  apply bind_Ok in Hops. destruct Hops as (m0 & E0 & Hops).
  apply bind_Ok in Hops. destruct Hops as (r0 & Hops & Er0).
  apply bind_Ok in Hops. destruct Hops as (m1 & E1 & Hops).
  apply bind_Ok in Hops. destruct Hops as (r1 & Hops & Er1).
  apply bind_Ok in Hops. destruct Hops as (m2 & E2 & Hops).
  apply bind_Ok in Hops. destruct Hops as (r2 & Hops & Er2).
  apply bind_Ok in Hops. destruct Hops as (m3 & E3 & Hops).
  apply bind_Ok in Hops. destruct Hops as (r3 & Hops & Er3).
  inversion Hops; subst r3. inversion Er3; subst r2.
  inversion Er2; subst r1. inversion Er1; subst r0. inversion Er0; subst ops'.
  exists m0, m1, m2, m3. split; [reflexivity|].
  repeat split; eapply Layer_make_op_is_seq; eassumption.
Qed.

Lemma is_seq_true (m : OpModule) : is_seq m = true -> exists s, m = OpSeq s.
Proof. destruct m; simpl; intros H; [eauto|discriminate]. Qed.

Lemma is_seq_false (m : OpModule) : is_seq m = false -> m = OpBare.
Proof. destruct m; simpl; intros H; [discriminate|reflexivity]. Qed.

(** C3 (as amended).  With both gate flags false:
    a [Layer] built with all four [ops] flags true holds four [seq]
    branches and its forward pass is
    [op[1](op[0](i)) + op[3](op[2](i))] for [i = initial_op(x)], so all four
    branches contribute;
    a [Layer] built with [ops = [True, False, False, False]] returns the
    output of [initial_op] passed through [op[0]] alone;
    a [Layer] built with all four [ops] flags false has only bare modules
    in [op], and its forward pass raises [NotImplementedError] when it calls
    [op[0]]. *)
Theorem Layer_ungated_forward (n_in n_bottle n_out : nat)
  (dilation : list (Z * Z)) (activation : list Activation)
  (kernel_size : list (Z * Z)) (groups : list nat) (preactivation : bool)
  (gate_style norm_style : string) (theta : ParamStore) :
  (forall self,
     Layer_init n_in n_bottle n_out [true; true; true; true] [false; false]
       dilation activation kernel_size groups preactivation gate_style
       norm_style theta = Ok self ->
     exists s0 s1 s2 s3,
       op self = [OpSeq s0; OpSeq s1; OpSeq s2; OpSeq s3] /\
       forall tr x,
         Layer_forward self tr x
         = (i <- Sequential_forward tr (initial_op self) x ;;
            a <- seq_forward s0 tr i F_relu ;;
            b <- seq_forward s2 tr i F_relu ;;
            c <- seq_forward s1 tr a F_relu ;;
            d <- seq_forward s3 tr b F_relu ;;
            tadd c d)) /\
  (forall self,
     Layer_init n_in n_bottle n_out [true; false; false; false] [false; false]
       dilation activation kernel_size groups preactivation gate_style
       norm_style theta = Ok self ->
     exists s0,
       op self = [OpSeq s0; OpBare; OpBare; OpBare] /\
       forall tr x,
         Layer_forward self tr x = Layer_forward_op0_alone self tr x) /\
  (forall self,
     Layer_init n_in n_bottle n_out [false; false; false; false]
       [false; false] dilation activation kernel_size groups preactivation
       gate_style norm_style theta = Ok self ->
     op self = [OpBare; OpBare; OpBare; OpBare] /\
     forall tr x,
       Layer_forward self tr x
       = (i <- Sequential_forward tr (initial_op self) x ;;
          Fail PyNotImplementedError)).
Proof.
  split; [|split]; intros self Hinit.
  - destruct (Layer_init_op4 _ _ _ _ _ _ _ _ _ _ _ _ _ _ _ _ _ Hinit)
      as (Hg & m0 & m1 & m2 & m3 & Hop & I0 & I1 & I2 & I3).
    destruct (is_seq_true _ I0) as [s0 ->].
    destruct (is_seq_true _ I1) as [s1 ->].
    destruct (is_seq_true _ I2) as [s2 ->].
    destruct (is_seq_true _ I3) as [s3 ->].
    exists s0, s1, s2, s3. split; [exact Hop|].
    intros tr x. unfold Layer_forward, Layer_stage0, Layer_stage1.
    rewrite Hg, Hop. cbn [index nth_error bind is_seq OpModule_call].
    destruct (Sequential_forward tr (initial_op self) x) as [i|];
      cbn [bind]; [|reflexivity].
    destruct (seq_forward s0 tr i F_relu) as [a|]; cbn [bind]; [|reflexivity].
    destruct (seq_forward s2 tr i F_relu) as [b|]; cbn [bind]; reflexivity.
  - destruct (Layer_init_op4 _ _ _ _ _ _ _ _ _ _ _ _ _ _ _ _ _ Hinit)
      as (Hg & m0 & m1 & m2 & m3 & Hop & I0 & I1 & I2 & I3).
    destruct (is_seq_true _ I0) as [s0 ->].
    rewrite (is_seq_false _ I1), (is_seq_false _ I2), (is_seq_false _ I3) in Hop.
    exists s0. split; [exact Hop|].
    intros tr x.
    unfold Layer_forward, Layer_forward_op0_alone, Layer_stage0, Layer_stage1.
    rewrite Hg, Hop. cbn [index nth_error bind is_seq OpModule_call].
    destruct (Sequential_forward tr (initial_op self) x) as [i|];
      cbn [bind]; [|reflexivity].
    destruct (seq_forward s0 tr i F_relu) as [a|]; cbn [bind]; reflexivity.
  - destruct (Layer_init_op4 _ _ _ _ _ _ _ _ _ _ _ _ _ _ _ _ _ Hinit)
      as (Hg & m0 & m1 & m2 & m3 & Hop & I0 & I1 & I2 & I3).
    rewrite (is_seq_false _ I0), (is_seq_false _ I1), (is_seq_false _ I2),
      (is_seq_false _ I3) in Hop.
    split; [exact Hop|].
    intros tr x. unfold Layer_forward, Layer_stage0, Layer_stage1.
    rewrite Hg, Hop. cbn [index nth_error bind is_seq OpModule_call].
    destruct (Sequential_forward tr (initial_op self) x) as [i|];
      cbn [bind]; reflexivity.
Qed.

Lemma Layer_ungated_forward_witness :
  exists self,
    unit_layer [true; true; true; true] [false; false] "add_split" 1
    = Ok self /\
    exists s0 s1 s2 s3,
      op self = [OpSeq s0; OpSeq s1; OpSeq s2; OpSeq s3] /\
      forall tr x,
        Layer_forward self tr x
        = (i <- Sequential_forward tr (initial_op self) x ;;
           a <- seq_forward s0 tr i F_relu ;;
           b <- seq_forward s2 tr i F_relu ;;
           c <- seq_forward s1 tr a F_relu ;;
           d <- seq_forward s3 tr b F_relu ;;
           tadd c d).
Proof.
  eexists. split; [reflexivity|].
  apply (proj1 (Layer_ungated_forward 1 1 1 (repeat (1, 1)%Z 4)
                  (repeat F_relu 4) (repeat (1, 1)%Z 4) (repeat 1%nat 4) true
                  "add_split" "before" (flat_store 1))).
  reflexivity.
Defined.

(** C3 (counterexample to the claim as stated).  [Layer(1, 1, 1,
    ops=[1,1,1,1], gate=[0,0], kernel_size=[(1,1)]*4,
    norm_style='before')] with every convolution weight 1, in evaluation
    mode, on the 1x1 tensor of value 1: the forward pass returns twice what
    [initial_op] passed through [op[0]] alone gives, and that is not 0. *)
Lemma Layer_all_ops_sums_two_paths :
  exists self,
    unit_layer [true; true; true; true] [false; false] "add_split" 1
    = Ok self /\
    let x := full [1; 1; 1; 1]%nat 1 in
    is_ok (Layer_forward self false x) = true /\
    is_ok (Layer_forward_op0_alone self false x) = true /\
    entry (Layer_forward self false x) [0; 0; 0; 0]%nat
    = 2 * entry (Layer_forward_op0_alone self false x) [0; 0; 0; 0]%nat /\
    0 < entry (Layer_forward_op0_alone self false x) [0; 0; 0; 0]%nat /\
    Layer_forward self false x <> Layer_forward_op0_alone self false x.
Proof.
  eexists. split; [reflexivity|]. cbv zeta.
  split; [reflexivity|]. split; [reflexivity|].
  pose proof bn_unit_pos as Hs.
  set (u := (1 - 0) / sqrt (1 + 1 / 100000) * 1 + 0).
  assert (Hu : 0 < u).
  { subst u.
    assert (0 < / sqrt (1 + 1 / 100000)) by (apply Rinv_0_lt_compat; exact Hs).
    unfold Rdiv. nra. }
  match goal with
  | |- entry ?a _ = 2 * entry ?b _ /\ _ => set (r := a); set (r' := b)
  end.
  assert (E : entry r [0; 0; 0; 0]%nat = 2 * u).
  { subst r. eval_entry. fold u.
    repeat match goal with
           | |- context [relu ?a] => rewrite (relu_nonneg a) by lra
           end.
    ring. }
  assert (E' : entry r' [0; 0; 0; 0]%nat = u).
  { subst r'. eval_entry. fold u.
    repeat match goal with
           | |- context [relu ?a] => rewrite (relu_nonneg a) by lra
           end.
    ring. }
  split; [rewrite E, E'; reflexivity|]. split; [rewrite E'; exact Hu|].
  intros H. rewrite H in E. lra.
Qed.

(** ** wn2d and WNC2D on concrete weights *)

Lemma full_nonzero (v : R) : v <> 0 -> nonzero (full [1; 1; 1; 1]%nat v).
Proof.
  intros Hv. exists [0; 0; 0; 0]%nat. split; [|exact Hv].
  repeat constructor.
Qed.

(** The forward pass of a [WNC2D] does return: with the single weight 3 and
    the input 2 the normalised weight is 1 and the output is 2. *)
Lemma WNC2D_forward_unit :
  exists y,
    WNC2D_forward (wnc_unit 3) (full [1; 1; 1; 1]%nat 2) = Ok y /\
    shape y = [1; 1; 1; 1]%nat /\
    val y [0; 0; 0; 0]%nat = 2.
Proof.
  unfold WNC2D_forward.
  rewrite (wn2d_rank4 (conv_weight (wnc_unit 3)) 1 1 1 1 eq_refl).
  rewrite tany_const by (repeat constructor).
  assert (N : val (torch_norm (conv_weight (wnc_unit 3))) [] = 3).
  { cbn. replace (0 + (0 + (0 + (0 + 3 * 3)))) with (3 * 3) by ring.
    apply sqrt_square. lra. }
  rewrite N, Rzerob_false by lra. cbn [bind].
  eexists. split; [reflexivity|]. split; [reflexivity|].
  eval_entry. field.
Qed.

Lemma WNC2D_forward_scale_invariant_witness :
  WNC2D_forward (with_weight (wnc_unit 3) (tscale 2 (conv_weight (wnc_unit 3))))
                (full [1; 1; 1; 1]%nat 2)
  = WNC2D_forward (wnc_unit 3) (full [1; 1; 1; 1]%nat 2).
Proof.
  apply (WNC2D_forward_scale_invariant (wnc_unit 3) (full [1; 1; 1; 1]%nat 2) 2).
  - lra.
  - apply full_nonzero. lra.
Defined.

Lemma wn2d_defined_iff_nonzero_witness :
  wn2d (full [1; 1; 1; 1]%nat 0) = Fail DivisionByZero /\
  (forall input, WNC2D_forward (wnc_unit 0) input = Fail DivisionByZero) /\
  wn2d (full [1; 1; 1; 1]%nat 3)
  = Ok (mkT [1; 1; 1; 1]%nat
          (fun idx => 3 / val (torch_norm (full [1; 1; 1; 1]%nat 3)) [])).
Proof.
  destruct (wn2d_defined_iff_nonzero (full [1; 1; 1; 1]%nat 0) 1 1 1 1
              eq_refl ltac:(lia) ltac:(lia) ltac:(lia) ltac:(lia))
    as (_ & _ & Hz).
  destruct (wn2d_defined_iff_nonzero (full [1; 1; 1; 1]%nat 3) 1 1 1 1
              eq_refl ltac:(lia) ltac:(lia) ltac:(lia) ltac:(lia))
    as (_ & Hn & _).
  assert (Z0 : all_zero (full [1; 1; 1; 1]%nat 0)) by (intros idx _; reflexivity).
  destruct (Hz Z0) as (_ & E & F).
  split; [exact E|]. split.
  - intros input. apply F. reflexivity.
  - apply Hn. apply full_nonzero. lra.
Defined.

(** ** Shapes through a residual block *)

Lemma F_dropout_shape (x : Tensor) (p : Q) (tr : Mode)
  (keep : list nat -> bool) :
  Qlt_bool 0 p = true -> Qlt_bool 1 p = false ->
  exists y, F_dropout x p tr keep = Ok y /\ shape y = shape x.
Proof.
  intros H0 H1. unfold F_dropout.
  assert (E : Qlt_bool p 0 = false).
  { unfold Qlt_bool in *. apply Bool.negb_false_iff. apply Qle_bool_iff.
    apply Bool.negb_true_iff in H0.
    destruct (Qlt_le_dec 0 p) as [Hlt|Hle].
    - apply Qlt_le_weak, Hlt.
    - apply Qle_bool_iff in Hle. congruence. }
  rewrite E, H1. cbn [orb].
  destruct tr; eexists; split; reflexivity.
Qed.

Lemma conv_axis_3x3 (H : nat) (s : Z) :
  (1 <= s)%Z -> (1 <= H)%nat ->
  conv_axis_ok H 3 s 1 1 = true /\
  conv_out H 3 (Z.to_nat s) (Z.to_nat 1) (Z.to_nat 1)
  = ((H - 1) / Z.to_nat s + 1)%nat.
Proof.
  intros Hs HH. split.
  - unfold conv_axis_ok.
    repeat (apply andb_true_intro; split); try reflexivity.
    + apply Z.ltb_lt. lia.
    + apply Nat.leb_le. change (Z.to_nat 1) with 1%nat. lia.
  - unfold conv_out. change (Z.to_nat 1) with 1%nat.
    replace (H + 2 * 1 - 1 * (3 - 1) - 1)%nat with (H - 1)%nat by lia.
    reflexivity.
Qed.

Lemma conv_axis_1x1 (H : nat) (s : Z) :
  (1 <= s)%Z -> (1 <= H)%nat ->
  conv_axis_ok H 1 s 0 1 = true /\
  conv_out H 1 (Z.to_nat s) (Z.to_nat 0) (Z.to_nat 1)
  = ((H - 1) / Z.to_nat s + 1)%nat.
Proof.
  intros Hs HH. split.
  - unfold conv_axis_ok.
    repeat (apply andb_true_intro; split); try reflexivity.
    + apply Z.ltb_lt. lia.
    + apply Nat.leb_le. change (Z.to_nat 1) with 1%nat.
      change (Z.to_nat 0) with 0%nat. lia.
  - unfold conv_out. change (Z.to_nat 1) with 1%nat.
    change (Z.to_nat 0) with 0%nat.
    replace (H + 2 * 0 - 1 * (1 - 1) - 1)%nat with (H - 1)%nat by lia.
    reflexivity.
Qed.

(** A plain convolution as the blocks build them: one group, no bias. *)
Lemma Conv2d_forward_shape (n_in n_out k : nat) (s p : Z) (w : list nat -> R)
  (x : Tensor) (N H W : nat) (H' W' : nat) :
  shape x = [N; n_in; H; W] ->
  conv_axis_ok H k s p 1 = true ->
  conv_axis_ok W k s p 1 = true ->
  conv_out H k (Z.to_nat s) (Z.to_nat p) (Z.to_nat 1) = H' ->
  conv_out W k (Z.to_nat s) (Z.to_nat p) (Z.to_nat 1) = W' ->
  (0 < n_in)%nat -> (0 < n_out)%nat ->
  exists y,
    Conv2d_forward
      (mkConv2d n_in n_out (k, k) (pair2 s) (pair2 p) (pair2 1) 1
         (mkT [n_out; n_in; k; k] w) None) x = Ok y /\
    shape y = [N; n_out; H'; W'].
Proof.
  intros Hx AH AW OH OW Hpi Hpo. unfold Conv2d_forward.
  cbn [conv_weight conv_bias conv_stride conv_padding conv_dilation conv_groups].
  destruct (conv2d_shape x (mkT [n_out; n_in; k; k] w) (pair2 s) (pair2 p)
              (pair2 1) 1 N n_in H W n_out k k) as (y & Ey & Sy);
    try assumption; try lia.
  - cbn [shape]. rewrite Nat.div_1_r. reflexivity.
  - apply Nat.mod_1_r.
  - apply Nat.mod_1_r.
  - exists y. split; [exact Ey|]. rewrite Sy. cbn [fst snd pair2].
    rewrite OH, OW. reflexivity.
Qed.

(** The spatial size after a block of stride [s]. *)
Lemma down_ge_1 (H s : nat) : (1 <= (H - 1) / s + 1)%nat.
Proof. lia. Qed.

Lemma BasicBlock_forward_shape (in_planes out_planes : nat) (stride : Z)
  (dropRate : Q) (theta : ParamStore) (self : BasicBlock) (tr : Mode)
  (keep : list nat -> bool) (x : Tensor) (N H W : nat) :
  BasicBlock_init in_planes out_planes stride dropRate theta = Ok self ->
  (1 <= stride)%Z -> (in_planes = out_planes -> stride = 1%Z) ->
  Qlt_bool 1 dropRate = false ->
  shape x = [N; in_planes; H; W] -> (1 <= H)%nat -> (1 <= W)%nat ->
  (tr = true ->
   (N * ((H - 1) / Z.to_nat stride + 1) * ((W - 1) / Z.to_nat stride + 1))%nat
   <> 1%nat) ->
  (0 < in_planes)%nat -> (0 < out_planes)%nat ->
  exists y,
    BasicBlock_forward self tr keep x = Ok y /\
    shape y = [N; out_planes; ((H - 1) / Z.to_nat stride + 1)%nat;
                              ((W - 1) / Z.to_nat stride + 1)%nat].
Proof.
  intros Hinit Hs Heq Hdr Hx HH HW Htr Hpi Hpo.
  rewrite BasicBlock_init_eq in Hinit. inversion Hinit; subst self; clear Hinit.
  set (H' := ((H - 1) / Z.to_nat stride + 1)%nat).
  set (W' := ((W - 1) / Z.to_nat stride + 1)%nat).
  assert (HH' : (1 <= H')%nat) by apply down_ge_1.
  assert (HW' : (1 <= W')%nat) by apply down_ge_1.
  assert (Htr0 : tr = true -> (N * H * W)%nat <> 1%nat).
  { intros E. apply (count_mono N H W H' W'); try assumption.
    - apply down_le, HH.
    - apply down_le, HW.
    - apply Htr, E. }
  match goal with
  | |- exists y, BasicBlock_forward ?b _ _ _ = _ /\ _ => set (blk := b)
  end.
  (* the branch, from any tensor shaped like the input *)
  assert (Hbranch : forall a, shape a = [N; in_planes; H; W] ->
            exists o, BasicBlock_branch blk tr keep a = Ok o /\
                      shape o = [N; out_planes; H'; W']).
  { intros a Ha. unfold BasicBlock_branch. subst blk.
    cbn [conv1 bn2 droprate conv2].
    destruct (conv_axis_3x3 H stride Hs HH) as [A1 O1].
    destruct (conv_axis_3x3 W stride Hs HW) as [A2 O2].
    destruct (Conv2d_forward_shape in_planes out_planes 3 stride 1
                (child "conv1" theta [] KConv Weight) a N H W H' W'
                Ha A1 A2 O1 O2 Hpi Hpo) as (o1 & E1 & S1).
    rewrite E1. cbn [bind].
    destruct (BatchNorm2d_forward_shape
                (nn_BatchNorm2d out_planes (child "bn2" theta)) tr o1
                N out_planes H' W' S1 eq_refl Htr Hpo) as (o2 & E2 & S2).
    rewrite E2. cbn [bind].
    assert (Hd : exists o3,
               (if Qlt_bool 0 dropRate
                then F_dropout (F_relu o2) dropRate tr keep
                else Ok (F_relu o2)) = Ok o3 /\
               shape o3 = [N; out_planes; H'; W']).
    { destruct (Qlt_bool 0 dropRate) eqn:Ed.
      - destruct (F_dropout_shape (F_relu o2) dropRate tr keep Ed Hdr)
          as (o3 & E3 & S3).
        exists o3. split; [exact E3|]. rewrite S3. exact S2.
      - eexists. split; [reflexivity|]. exact S2. }
    destruct Hd as (o3 & E3 & S3). rewrite E3. cbn [bind].
    destruct (conv_axis_3x3 H' 1 ltac:(lia) HH') as [A3 O3].
    destruct (conv_axis_3x3 W' 1 ltac:(lia) HW') as [A4 O4].
    change (Z.to_nat 1) with 1%nat in O3, O4.
    rewrite Nat.div_1_r in O3, O4.
    apply (Conv2d_forward_shape out_planes out_planes 3 1 1
             (child "conv2" theta [] KConv Weight) o3 N H' W' H' W' S3 A3 A4).
    + change (Z.to_nat 1) with 1%nat. rewrite O3. lia.
    + change (Z.to_nat 1) with 1%nat. rewrite O4. lia.
    + exact Hpo.
    + exact Hpo. }
  destruct (BatchNorm2d_forward_shape
              (nn_BatchNorm2d in_planes (child "bn1" theta)) tr x
              N in_planes H W Hx eq_refl Htr0 Hpi) as (y & Ey & Sy).
  destruct (Hbranch (F_relu y) Sy) as (o & Eo & So).
  destruct (Nat.eq_dec in_planes out_planes) as [E|E].
  - (* identity shortcut *)
    rewrite BasicBlock_forward_identity
      by (subst blk; cbn [equalInOut]; apply Nat.eqb_eq, E).
    subst blk. cbn [bn1]. rewrite Ey. cbn [bind]. rewrite Eo. cbn [bind].
    assert (Hs1 : stride = 1%Z) by (apply Heq, E).
    assert (Hsame : shape x = shape o).
    { rewrite Hx, So. subst H' W'. rewrite Hs1.
      change (Z.to_nat 1) with 1%nat. rewrite !Nat.div_1_r.
      rewrite E. f_equal. f_equal. f_equal; [lia|]. f_equal. lia. }
    rewrite (tadd_same_shape x o Hsame).
    eexists. split; [reflexivity|]. cbn [shape]. rewrite Hsame. exact So.
  - (* projection shortcut *)
    rewrite BasicBlock_forward_projection
      by (subst blk; cbn [equalInOut]; apply Nat.eqb_neq, E).
    subst blk. cbn [bn1]. rewrite Ey. cbn [bind]. rewrite Eo. cbn [bind].
    unfold convShortcut_call. cbn [convShortcut].
    apply Nat.eqb_neq in E. rewrite E. cbn [negb].
    destruct (conv_axis_1x1 H stride Hs HH) as [A1 O1].
    destruct (conv_axis_1x1 W stride Hs HW) as [A2 O2].
    destruct (Conv2d_forward_shape in_planes out_planes 1 stride 0
                (child "convShortcut" theta [] KConv Weight) (F_relu y)
                N H W H' W' Sy A1 A2 O1 O2 Hpi Hpo) as (sc & Esc & Ssc).
    rewrite Esc. cbn [bind].
    assert (Hsame : shape sc = shape o) by (rewrite Ssc, So; reflexivity).
    rewrite (tadd_same_shape sc o Hsame).
    eexists. split; [reflexivity|]. cbn [shape]. exact Ssc.
Qed.

(** ** Shapes through a group of blocks *)

Lemma blocks_forward_same (out_planes : nat) (dropRate : Q) (N H W : nat)
  (tr : Mode) (bs : list BasicBlock) :
  Qlt_bool 1 dropRate = false -> (1 <= H)%nat -> (1 <= W)%nat ->
  (tr = true -> (N * H * W)%nat <> 1%nat) -> (0 < out_planes)%nat ->
  (forall b, In b bs ->
     exists theta, BasicBlock_init out_planes out_planes 1 dropRate theta = Ok b) ->
  forall keep x,
    shape x = [N; out_planes; H; W] ->
    exists y, blocks_forward bs tr keep x = Ok y /\
              shape y = [N; out_planes; H; W].
Proof.
  intros Hdr HH HW Htr Hpo.
  induction bs as [|b bs IH]; intros Hall keep x Hx.
  - exists x. split; [reflexivity|exact Hx].
  - destruct (Hall b (or_introl eq_refl)) as [theta Hb].
    destruct (BasicBlock_forward_shape out_planes out_planes 1 dropRate theta
                b tr (keep O) x N H W Hb ltac:(lia) (fun _ => eq_refl) Hdr Hx
                HH HW) as (y & Ey & Sy); try exact Hpo.
    { change (Z.to_nat 1) with 1%nat. rewrite !Nat.div_1_r.
      replace (H - 1 + 1)%nat with H by lia.
      replace (W - 1 + 1)%nat with W by lia. exact Htr. }
    change (Z.to_nat 1) with 1%nat in Sy. rewrite !Nat.div_1_r in Sy.
    replace (H - 1 + 1)%nat with H in Sy by lia.
    replace (W - 1 + 1)%nat with W in Sy by lia.
    cbn [blocks_forward]. rewrite Ey. cbn [bind].
    apply IH; [|exact Sy]. intros b' Hb'. apply Hall. right. exact Hb'.
Qed.

Lemma make_layer_forward_shape (nb : Z) (in_planes out_planes : nat)
  (stride : Z) (dropRate : Q) (theta : ParamStore) (bs : list BasicBlock)
  (tr : Mode) (keep : nat -> list nat -> bool) (x : Tensor) (N H W : nat) :
  _make_layer nb in_planes out_planes stride dropRate theta = Ok bs ->
  (1 <= nb)%Z -> in_planes <> O ->
  (1 <= stride)%Z -> (in_planes = out_planes -> stride = 1%Z) ->
  Qlt_bool 1 dropRate = false ->
  shape x = [N; in_planes; H; W] -> (1 <= H)%nat -> (1 <= W)%nat ->
  (tr = true ->
   (N * ((H - 1) / Z.to_nat stride + 1) * ((W - 1) / Z.to_nat stride + 1))%nat
   <> 1%nat) ->
  (0 < out_planes)%nat ->
  exists y,
    blocks_forward bs tr keep x = Ok y /\
    shape y = [N; out_planes; ((H - 1) / Z.to_nat stride + 1)%nat;
                              ((W - 1) / Z.to_nat stride + 1)%nat].
Proof.
  intros Hbs Hnb Hin Hs Heq Hdr Hx HH HW Htr Hpo.
  destruct (make_layer_ok nb in_planes out_planes stride dropRate theta)
    as (bs' & Hbs' & Hlen & Hn).
  rewrite Hbs in Hbs'. inversion Hbs'; subst bs'. clear Hbs'.
  destruct bs as [|b0 rest]; [simpl in Hlen; lia|].
  pose proof (Hn O b0 eq_refl) as H0.
  assert (Ein : block_in in_planes out_planes 0 = in_planes).
  { unfold block_in, and_or_nat. cbn [Nat.eqb andb].
    destruct (Nat.eqb_spec in_planes 0); [contradiction|reflexivity]. }
  assert (Est : block_stride stride 0 = stride).
  { unfold block_stride, and_or_Z. cbn [Nat.eqb andb].
    destruct (Z.eqb_spec stride 0); [lia|reflexivity]. }
  rewrite Ein, Est in H0.
  destruct (BasicBlock_forward_shape in_planes out_planes stride dropRate _
              b0 tr (keep O) x N H W H0 Hs Heq Hdr Hx HH HW Htr
              ltac:(lia) Hpo)
    as (y & Ey & Sy).
  cbn [blocks_forward]. rewrite Ey. cbn [bind].
  apply (blocks_forward_same out_planes dropRate N _ _ tr rest Hdr
           (down_ge_1 _ _) (down_ge_1 _ _) Htr Hpo); [|exact Sy].
  intros b Hb. apply In_nth_error in Hb. destruct Hb as [i Hi].
  specialize (Hn (S i) b Hi). eexists. exact Hn.
Qed.

(** ** Shapes through the network, up to the linear layer *)

Lemma avg_pool2d_global (x : Tensor) (N C H W : nat) :
  shape x = [N; C; H; W] -> (1 <= H)%nat -> (1 <= W)%nat ->
  exists y, avg_pool2d x (H, W) = Ok y /\ shape y = [N; C; 1; 1]%nat.
Proof.
  intros Hx HH HW. unfold avg_pool2d. rewrite Hx.
  destruct (Nat.ltb_spec 0 H); [|lia]. destruct (Nat.ltb_spec 0 W); [|lia].
  rewrite !Nat.leb_refl. cbn [andb].
  eexists. split; [reflexivity|]. cbn [shape].
  rewrite !Nat.sub_diag. rewrite !Nat.Div0.div_0_l. reflexivity.
Qed.

Lemma view_rows_pooled (x : Tensor) (N C : nat) :
  shape x = [N; C; 1; 1]%nat -> (0 < C)%nat ->
  exists y, view_rows x C = Ok y /\ shape y = [N; C].
Proof.
  intros Hx HC. unfold view_rows. rewrite Hx.
  assert (E : numel [N; C; 1; 1]%nat = (N * C)%nat) by (cbn; lia).
  rewrite E, Nat.Div0.mod_mul, Nat.div_mul by lia.
  destruct (Nat.ltb_spec 0 C); [|lia]. cbn [andb Nat.eqb].
  eexists. split; reflexivity.
Qed.

Lemma Linear_forward_shape (m : Linear) (x : Tensor) (N : nat) :
  shape x = [N; in_features m] ->
  exists y, Linear_forward m x = Ok y /\ shape y = [N; out_features m].
Proof.
  intros Hx. unfold Linear_forward. rewrite Hx, Nat.eqb_refl.
  eexists. split; reflexivity.
Qed.

Lemma down2_one (H : nat) : ((H - 1) / 2 + 1 = 1)%nat -> (H <= 2)%nat.
Proof.
  intros E. destruct (le_lt_dec H 2) as [|Hgt]; [assumption|].
  assert (1 <= (H - 1) / 2)%nat by (apply Nat.div_le_lower_bound; lia). lia.
Qed.

Lemma down2_two (H : nat) : ((H - 1) / 2 + 1 <= 2)%nat -> (H <= 4)%nat.
Proof.
  intros E. destruct (le_lt_dec H 4) as [|Hgt]; [assumption|].
  assert (2 <= (H - 1) / 2)%nat by (apply Nat.div_le_lower_bound; lia). lia.
Qed.

Lemma Network_context_shape (widen_factor : nat) (depth : Z)
  (nC ep : nat) (dropRate : Q) (theta : ParamStore) (net : Network)
  (tr : Mode) (keep : nat -> nat -> list nat -> bool) (x : Tensor)
  (N H W : nat) :
  Network_build widen_factor depth nC ep dropRate theta = Ok net ->
  (10 <= depth)%Z -> (0 < widen_factor)%nat ->
  Qlt_bool 1 dropRate = false ->
  shape x = [N; 3; H; W]%nat -> (1 <= H)%nat -> (1 <= W)%nat ->
  (tr = true -> ~ (N = 1 /\ H <= 4 /\ W <= 4)%nat) ->
  nClasses net = nC /\ n_components net = 10%nat /\
  exists context,
    Network_context net tr keep x = Ok context /\
    shape context = [N; ((nC + 1) * 10)%nat].
Proof.
  intros Hb Hd Hw Hdr Hx HH HW Htr.
  unfold Network_build in Hb.
  remember (16 * widen_factor)%nat as c1 eqn:Hc1 in Hb.
  remember (32 * widen_factor)%nat as c2 eqn:Hc2 in Hb.
  remember (64 * widen_factor)%nat as c3 eqn:Hc3 in Hb.
  destruct (negb ((depth - 4) mod 6 =? 0)%Z) eqn:Em; [discriminate|].
  apply Bool.negb_false_iff, Z.eqb_eq in Em.
  cbn [index nth_error bind] in Hb.
  rewrite nn_Conv2d_groups1 in Hb by (simpl; lia). cbn [bind] in Hb.
  assert (Hq : ((depth - 4) ÷ 6 = (depth - 4) / 6)%Z)
    by (apply Z.quot_div_nonneg; lia).
  rewrite Hq in Hb.
  assert (Hn1 : (1 <= (depth - 4) / 6)%Z).
  { apply Z.div_le_lower_bound; lia. }
  set (n := ((depth - 4) / 6)%Z) in *.
  apply bind_Ok in Hb. destruct Hb as (b1 & E1 & Hb).
  apply bind_Ok in Hb. destruct Hb as (b2 & E2 & Hb).
  apply bind_Ok in Hb. destruct Hb as (b3 & E3 & Hb).
  inversion Hb; subst net; clear Hb.
  cbn [nClasses n_components]. split; [reflexivity|]. split; [reflexivity|].
  unfold Network_context.
  cbn [net_conv1 block1 block2 block3 net_bn1 fc nChannels].
  (* first convolution *)
  destruct (conv_axis_3x3 H 1 ltac:(lia) HH) as [A1 O1].
  destruct (conv_axis_3x3 W 1 ltac:(lia) HW) as [A2 O2].
  destruct (Conv2d_forward_shape 3 16 3 1 1
              (child "conv1" theta [] KConv Weight) x N H W _ _
              Hx A1 A2 O1 O2 ltac:(lia) ltac:(lia)) as (o0 & E0 & S0).
  change (Pos.to_nat 3) with 3%nat.
  rewrite E0. cbn [bind].
  change (Z.to_nat 1) with 1%nat in S0. rewrite !Nat.div_1_r in S0.
  replace (H - 1 + 1)%nat with H in S0 by lia.
  replace (W - 1 + 1)%nat with W in S0 by lia.
  (* the sizes after each group, and the batch-normalisation condition *)
  set (H1 := ((H - 1) / Z.to_nat 1 + 1)%nat).
  set (W1 := ((W - 1) / Z.to_nat 1 + 1)%nat).
  set (H2 := ((H1 - 1) / Z.to_nat 2 + 1)%nat).
  set (W2 := ((W1 - 1) / Z.to_nat 2 + 1)%nat).
  set (H3 := ((H2 - 1) / Z.to_nat 2 + 1)%nat).
  set (W3 := ((W2 - 1) / Z.to_nat 2 + 1)%nat).
  assert (EH1 : H1 = H).
  { subst H1. change (Z.to_nat 1) with 1%nat. rewrite Nat.div_1_r. lia. }
  assert (EW1 : W1 = W).
  { subst W1. change (Z.to_nat 1) with 1%nat. rewrite Nat.div_1_r. lia. }
  assert (T3 : tr = true -> (N * H3 * W3)%nat <> 1%nat).
  { intros Et F. apply (Htr Et).
    apply Nat.eq_mul_1 in F. destruct F as [F FW].
    apply Nat.eq_mul_1 in F. destruct F as [FN FH].
    split; [exact FN|].
    subst H3 W3. change (Z.to_nat 2) with 2%nat in FH, FW.
    apply down2_one in FH. apply down2_one in FW.
    subst H2 W2. change (Z.to_nat 2) with 2%nat in FH, FW.
    apply down2_two in FH. apply down2_two in FW. lia. }
  assert (T2 : tr = true -> (N * H2 * W2)%nat <> 1%nat).
  { intros Et. apply (count_mono N H2 W2 H3 W3);
      try apply down_ge_1; try (apply down_le, down_ge_1); apply T3, Et. }
  assert (T1 : tr = true -> (N * H1 * W1)%nat <> 1%nat).
  { intros Et. apply (count_mono N H1 W1 H2 W2);
      try apply down_ge_1; try (apply down_le, down_ge_1); apply T2, Et. }
  (* the three groups *)
  destruct (make_layer_forward_shape n 16 c1 1 dropRate _ b1
              tr (keep 1%nat) o0 N H W E1 Hn1 ltac:(lia) ltac:(lia)
              (fun _ => eq_refl) Hdr S0 HH HW T1 ltac:(lia))
    as (o1 & F1 & S1).
  rewrite F1. cbn [bind].
  destruct (make_layer_forward_shape n c1 c2
              2 dropRate _ b2 tr (keep 2%nat) o1 N _ _ E2 Hn1 ltac:(lia)
              ltac:(lia) ltac:(lia) Hdr S1 (down_ge_1 _ _) (down_ge_1 _ _) T2
              ltac:(lia))
    as (o2 & F2 & S2).
  rewrite F2. cbn [bind].
  destruct (make_layer_forward_shape n c2 c3
              2 dropRate _ b3 tr (keep 3%nat) o2 N _ _ E3 Hn1 ltac:(lia)
              ltac:(lia) ltac:(lia) Hdr S2 (down_ge_1 _ _) (down_ge_1 _ _) T3
              ltac:(lia))
    as (o3 & F3 & S3).
  rewrite F3. cbn [bind].
  (* normalisation, pooling, linear layer *)
  destruct (BatchNorm2d_forward_shape
              (nn_BatchNorm2d c3 (child "bn1" theta)) tr o3
              N c3 _ _ S3 eq_refl T3 ltac:(lia)) as (o4 & F4 & S4).
  rewrite F4. cbn [bind].
  unfold size. cbn [shape F_relu tmap]. rewrite S4.
  cbn [index nth_error bind].
  destruct (avg_pool2d_global (F_relu o4) N c3 _ _ S4
              (down_ge_1 _ _) (down_ge_1 _ _)) as (o5 & F5 & S5).
  rewrite F5. cbn [bind].
  destruct (view_rows_pooled o5 N c3 S5 ltac:(lia))
    as (o6 & F6 & S6).
  rewrite F6. cbn [bind].
  apply (Linear_forward_shape
           (nn_Linear c3 ((nC + 1) * 10)
              (child "fc" theta)) o6 N S6).
Qed.

(** ** The mixture-of-softmaxes head *)

Lemma slice_dim1_range (t : Tensor) (N C : nat) (rest : list nat)
  (start stop : nat) :
  shape t = N :: C :: rest -> (start <= stop)%nat -> (stop <= C)%nat ->
  slice_dim1 t (Some (Z.of_nat start)) (Some (Z.of_nat stop)) 1
  = Ok (mkT (N :: (stop - start)%nat :: rest)
          (fun idx =>
             match idx with
             | i :: j :: r => val t (i :: (start + j * 1)%nat :: r)
             | _ => 0
             end)).
Proof.
  intros Hs H1 H2. unfold slice_dim1. rewrite Hs. unfold slice_bound.
  destruct (Z.ltb_spec (Z.of_nat start) 0); [lia|].
  destruct (Z.ltb_spec (Z.of_nat stop) 0); [lia|].
  replace (Z.max 0 (Z.min (Z.of_nat C) (Z.of_nat start))) with (Z.of_nat start)
    by lia.
  replace (Z.max 0 (Z.min (Z.of_nat C) (Z.of_nat stop))) with (Z.of_nat stop)
    by lia.
  rewrite Nat2Z.id.
  assert (L : slice_len (Z.of_nat start) (Z.of_nat stop) (Z.of_nat 1)
              = (stop - start)%nat).
  { unfold slice_len. destruct (Z.ltb_spec (Z.of_nat start) (Z.of_nat stop)).
    - replace (Z.of_nat stop - Z.of_nat start + Z.of_nat 1 - 1)%Z
        with (Z.of_nat (stop - start)) by lia.
      change (Z.of_nat 1) with 1%Z. rewrite Z.div_1_r. apply Nat2Z.id.
    - lia. }
  rewrite L. reflexivity.
Qed.

Lemma slice_dim1_last (t : Tensor) (N C : nat) (rest : list nat) (K : nat) :
  shape t = N :: C :: rest -> (0 < K)%nat -> (K <= C)%nat ->
  slice_dim1 t (Some (- Z.of_nat K)%Z) None 1
  = Ok (mkT (N :: K :: rest)
          (fun idx =>
             match idx with
             | i :: j :: r => val t (i :: (C - K + j * 1)%nat :: r)
             | _ => 0
             end)).
Proof.
  intros Hs H1 H2. unfold slice_dim1. rewrite Hs. unfold slice_bound.
  destruct (Z.ltb_spec (- Z.of_nat K) 0); [|lia].
  replace (Z.max 0 (Z.min (Z.of_nat C) (- Z.of_nat K + Z.of_nat C)))
    with (Z.of_nat (C - K)) by lia.
  rewrite Nat2Z.id.
  assert (L : slice_len (Z.of_nat (C - K)) (Z.of_nat C) (Z.of_nat 1) = K).
  { unfold slice_len. destruct (Z.ltb_spec (Z.of_nat (C - K)) (Z.of_nat C)).
    - replace (Z.of_nat C - Z.of_nat (C - K) + Z.of_nat 1 - 1)%Z
        with (Z.of_nat K) by lia.
      change (Z.of_nat 1) with 1%Z. rewrite Z.div_1_r. apply Nat2Z.id.
    - lia. }
  rewrite L. reflexivity.
Qed.

Lemma F_softmax_rank2 (t : Tensor) (N C : nat) :
  shape t = [N; C] ->
  F_softmax t
  = Ok (mkT [N; C]
          (fun idx =>
             exp (val t idx)
             / sum_n C (fun k => exp (val t (hd O idx :: k :: tl (tl idx)))))).
Proof. intros Hs. unfold F_softmax. rewrite Hs. reflexivity. Qed.

Lemma broadcast_column (N C : nat) : broadcast [N; 1%nat] [N; C] = Some [N; C].
Proof.
  unfold broadcast. cbn [rev app broadcast_rev]. rewrite Nat.eqb_refl.
  destruct (Nat.eqb_spec 1 C) as [<-|]; reflexivity.
Qed.

Lemma bidx_column (N a j : nat) :
  (a < N)%nat -> bidx [N; 1%nat] [a; j] = [a; O].
Proof.
  intros Ha. unfold bidx. cbn [List.length Nat.sub skipn bidx_aligned Nat.eqb].
  destruct (Nat.eqb_spec N 1); [|reflexivity].
  f_equal. lia.
Qed.

Lemma mapM_seq_spec {B : Type} (f : nat -> result B) (P : nat -> B -> Prop)
  (n : nat) :
  (forall i, (i < n)%nat -> exists b, f i = Ok b /\ P i b) ->
  exists bs,
    mapM f (List.seq 0 n) = Ok bs /\
    List.length bs = n /\
    forall i b, nth_error bs i = Some b -> P i b.
Proof.
  intros H.
  destruct (mapM_total f (List.seq 0 n)) as [bs Hbs].
  { intros a Ha. apply in_seq in Ha. destruct (H a) as (b & Hb & _); [lia|].
    eauto. }
  exists bs. split; [exact Hbs|].
  destruct (mapM_nth f (List.seq 0 n) bs Hbs) as [Hl Hn].
  rewrite length_seq in Hl. split; [exact Hl|].
  intros i b Hi.
  assert (Hlt : (i < n)%nat).
  { rewrite <- Hl. apply nth_error_Some. congruence. }
  destruct (Hn i i) as (b' & Hb' & Hf).
  { rewrite nth_error_seq.
    destruct (Nat.ltb_spec i n); [reflexivity|lia]. }
  rewrite Hi in Hb'. inversion Hb'; subst b'.
  destruct (H i Hlt) as (b'' & Hf' & HP). rewrite Hf in Hf'.
  inversion Hf'; subst. exact HP.
Qed.

(** One term of the mixture. *)
Lemma mixture_term (nC K N : nat) (context priors : Tensor) (i : nat) :
  shape context = [N; ((nC + 1) * K)%nat] -> (i < K)%nat ->
  shape priors = [N; K] ->
  (forall a, (a < N)%nat -> val priors [a; i] = mos_prior nC K context a i) ->
  exists t,
    (pi <- select_dim1 priors i ;;
     pi <- unsqueeze1 pi ;;
     c <- slice_dim1 context (Some (Z.of_nat (i * nC)))
            (Some (Z.of_nat ((i + 1) * nC))) 1 ;;
     s <- F_softmax c ;;
     tmul pi s) = Ok t /\
    shape t = [N; nC] /\
    forall a j, (a < N)%nat -> (j < nC)%nat ->
      val t [a; j] = mos_prior nC K context a i * mos_component nC context a i j.
Proof.
  intros Hc Hi Hp Hv. unfold select_dim1. rewrite Hp.
  destruct (Nat.ltb_spec i K); [|lia]. cbn [bind].
  unfold unsqueeze1. cbn [shape bind].
  rewrite (slice_dim1_range context N _ [] (i * nC) ((i + 1) * nC) Hc)
    by nia.
  cbn [bind].
  rewrite (F_softmax_rank2 _ N ((i + 1) * nC - i * nC)) by reflexivity.
  cbn [bind]. unfold tmul, binop. cbn [shape].
  replace ((i + 1) * nC - i * nC)%nat with nC by nia.
  rewrite broadcast_column.
  eexists. split; [reflexivity|]. split; [reflexivity|].
  intros a j Ha Hj. cbn [val].
  rewrite (bidx_column N a j Ha).
  rewrite (bidx_in_range [N; nC] [a; j]) by (repeat constructor; assumption).
  cbn [hd tl]. rewrite (Hv a Ha). unfold mos_component.
  assert (E2 : forall k, (i * nC + k * 1 = i * nC + k)%nat) by (intros; lia).
  rewrite E2.
  rewrite (sum_n_ext nC _ (fun l => exp (val context [a; (i * nC + l)%nat])))
    by (intros; rewrite E2; reflexivity).
  reflexivity.
Qed.

Lemma nth_error_nth_default {A : Type} (l : list A) (i : nat) (d : A) :
  (i < List.length l)%nat -> nth_error l i = Some (nth i l d).
Proof.
  revert i. induction l as [|x l IH]; intros [|i] H; simpl in *; try lia.
  - reflexivity.
  - apply IH. lia.
Qed.

Lemma mixture_head_spec (nC K N : nat) (context : Tensor) :
  shape context = [N; ((nC + 1) * K)%nat] -> (0 < K)%nat -> (0 < nC)%nat ->
  exists out,
    mixture_head nC K context = Ok out /\
    shape out = [N; nC] /\
    forall a j, (a < N)%nat -> (j < nC)%nat ->
      val out [a; j] = ln (mos_mixture nC K context a j).
Proof.
  intros Hc HK HnC. unfold mixture_head.
  rewrite (slice_dim1_last context N _ [] K Hc HK) by nia. cbn [bind].
  rewrite (F_softmax_rank2 _ N K) by reflexivity. cbn [bind].
  match goal with
  | |- context [mapM (fun i => pi <- select_dim1 ?p i ;; _) _] =>
      set (priors := p)
  end.
  assert (Hp : shape priors = [N; K]) by reflexivity.
  assert (Hv : forall a i, (a < N)%nat ->
                 val priors [a; i] = mos_prior nC K context a i).
  { intros a i Ha. subst priors. cbn [val hd tl]. unfold mos_prior.
    assert (E1 : forall k, ((nC + 1) * K - K + k * 1 = K * nC + k)%nat)
      by (intros; nia).
    rewrite E1.
    rewrite (sum_n_ext K _ (fun k => exp (val context [a; (K * nC + k)%nat])))
      by (intros; rewrite E1; reflexivity).
    reflexivity. }
  clearbody priors.
  destruct (mapM_seq_spec
              (fun i =>
                 pi <- select_dim1 priors i ;;
                 pi <- unsqueeze1 pi ;;
                 c <- slice_dim1 context (Some (Z.of_nat (i * nC)))
                        (Some (Z.of_nat ((i + 1) * nC))) 1 ;;
                 s <- F_softmax c ;;
                 tmul pi s)
              (fun i t =>
                 shape t = [N; nC] /\
                 forall a j, (a < N)%nat -> (j < nC)%nat ->
                   val t [a; j]
                   = mos_prior nC K context a i * mos_component nC context a i j)
              K) as (ts & Ets & Lts & Pts).
  { intros i Hi.
    apply (mixture_term nC K N context priors i Hc Hi Hp).
    intros a Ha. apply Hv, Ha. }
  rewrite Ets. cbn [bind].
  destruct ts as [|t0 rest]; [simpl in Lts; lia|].
  destruct (Pts O t0 eq_refl) as [S0 _].
  unfold stack_dim1. rewrite S0.
  assert (Hall : forallb (fun t => list_eqb (shape t) [N; nC]) (t0 :: rest)
                 = true).
  { apply forallb_forall. intros t Ht. apply In_nth_error in Ht.
    destruct Ht as [i Hi]. destruct (Pts i t Hi) as [St _].
    rewrite St. apply list_eqb_refl. }
  rewrite Hall. cbn [bind]. unfold sum_dim1. cbn [shape bind].
  eexists. split; [reflexivity|]. split; [reflexivity|].
  intros a j Ha Hj. cbn [val torch_log tmap]. f_equal.
  unfold mos_mixture. rewrite Lts. apply sum_n_ext. intros i Hi.
  destruct (Pts i (nth i (t0 :: rest) t0)) as [_ Hval].
  { apply nth_error_nth_default. lia. }
  apply Hval; assumption.
Qed.

(** *** The mixture is a probability distribution *)

Lemma exp_sum_pos (n : nat) (g : nat -> R) :
  (0 < n)%nat -> 0 < sum_n n (fun k => exp (g k)).
Proof. intros Hn. apply sum_n_all_pos; [exact Hn|]. intros; apply exp_pos. Qed.

Lemma softmax_sums_to_1 (n : nat) (g : nat -> R) :
  (0 < n)%nat ->
  sum_n n (fun i => exp (g i) / sum_n n (fun k => exp (g k))) = 1.
Proof.
  intros Hn. rewrite sum_n_div. pose proof (exp_sum_pos n g Hn).
  field. lra.
Qed.

Lemma mos_prior_pos (nC K : nat) (context : Tensor) (a i : nat) :
  (0 < K)%nat -> 0 < mos_prior nC K context a i.
Proof.
  intros HK. unfold mos_prior. apply Rdiv_lt_0_compat; [apply exp_pos|].
  apply (exp_sum_pos K (fun k => val context [a; (K * nC + k)%nat]) HK).
Qed.

Lemma mos_prior_sum (nC K : nat) (context : Tensor) (a : nat) :
  (0 < K)%nat -> sum_n K (fun i => mos_prior nC K context a i) = 1.
Proof.
  intros HK. unfold mos_prior.
  apply (softmax_sums_to_1 K (fun k => val context [a; (K * nC + k)%nat]) HK).
Qed.

Lemma mos_component_pos (nC : nat) (context : Tensor) (a i j : nat) :
  (0 < nC)%nat -> 0 < mos_component nC context a i j.
Proof.
  intros Hn. unfold mos_component. apply Rdiv_lt_0_compat; [apply exp_pos|].
  apply (exp_sum_pos nC (fun l => val context [a; (i * nC + l)%nat]) Hn).
Qed.

Lemma mos_component_sum (nC : nat) (context : Tensor) (a i : nat) :
  (0 < nC)%nat -> sum_n nC (fun j => mos_component nC context a i j) = 1.
Proof.
  intros Hn. unfold mos_component.
  apply (softmax_sums_to_1 nC (fun l => val context [a; (i * nC + l)%nat]) Hn).
Qed.

Lemma mos_mixture_pos (nC K : nat) (context : Tensor) (a j : nat) :
  (0 < K)%nat -> (0 < nC)%nat -> 0 < mos_mixture nC K context a j.
Proof.
  intros HK Hn. unfold mos_mixture. apply sum_n_all_pos; [exact HK|].
  intros i _. apply Rmult_lt_0_compat.
  - apply mos_prior_pos, HK.
  - apply mos_component_pos, Hn.
Qed.

Lemma mos_mixture_sum (nC K : nat) (context : Tensor) (a : nat) :
  (0 < K)%nat -> (0 < nC)%nat ->
  sum_n nC (fun j => mos_mixture nC K context a j) = 1.
Proof.
  intros HK Hn. unfold mos_mixture. rewrite sum_n_swap.
  rewrite (sum_n_ext K _ (fun i => mos_prior nC K context a i)).
  - apply mos_prior_sum, HK.
  - intros i _. rewrite sum_n_scale, mos_component_sum by exact Hn. ring.
Qed.

(** ** Network: construction at any parameter state, and the forward pass *)

Lemma Network_build_ok (widen_factor : nat) (depth : Z) (nC ep : nat)
  (dropRate : Q) (theta : ParamStore) :
  ((depth - 4) mod 6 = 0)%Z ->
  exists net, Network_build widen_factor depth nC ep dropRate theta = Ok net.
Proof.
  intros Hm. unfold Network_build.
  rewrite Hm, Z.eqb_refl. cbn [negb index nth_error bind].
  rewrite nn_Conv2d_groups1 by (simpl; lia). cbn [bind].
  destruct (make_layer_ok ((depth - 4) ÷ 6) 16 (16 * widen_factor) 1 dropRate
              (child "block1" theta)) as (b1 & E1 & _).
  destruct (make_layer_ok ((depth - 4) ÷ 6) (16 * widen_factor)
              (32 * widen_factor) 2 dropRate (child "block2" theta))
    as (b2 & E2 & _).
  destruct (make_layer_ok ((depth - 4) ÷ 6) (32 * widen_factor)
              (64 * widen_factor) 2 dropRate (child "block3" theta))
    as (b3 & E3 & _).
  rewrite E1, E2, E3. cbn [bind]. eauto.
Qed.

(** The network [Network.__init__] returns is the module tree at the
    initial parameters. *)
Lemma Network_init_build (widen_factor : nat) (depth : Z) (nC ep : nat)
  (dropRate : Q) (draw : ParamStore) (net : Network) :
  Network_init widen_factor depth nC ep dropRate draw = Ok net ->
  Network_build widen_factor depth nC ep dropRate (init_store draw) = Ok net.
Proof.
  unfold Network_init. intros H. apply bind_Ok in H.
  destruct H as (net' & Hb & H).
  destruct (forallb _ _); [|discriminate]. inversion H; subst. exact Hb.
Qed.

(** C1 (as amended).  For a depth of at least 10 with
    [(depth - 4) % 6 == 0], a positive widening factor, a positive number
    of classes and a dropout rate of at most 1, at every state of the
    parameters, in evaluation mode, and in training mode for every dropout
    draw unless the batch is a single image of at most 4x4 pixels (which
    leaves batch normalisation a single value per channel):
    on an input of shape (N, 3, H, W) with H, W >= 1 (so in particular when
    4 divides both), [Network.forward] returns a tensor of shape
    (N, nClasses); entry (a, j) is the logarithm of the mixture probability
    of class j for sample a, which is positive; the exponentials of a row
    are positive and sum to 1. *)
Theorem Network_forward_log_distribution (widen_factor : nat) (depth : Z)
  (nC ep : nat) (dropRate : Q) (theta : ParamStore) (tr : Mode)
  (keep : nat -> nat -> list nat -> bool) (x : Tensor) (N H W : nat) :
  (10 <= depth)%Z -> ((depth - 4) mod 6 = 0)%Z ->
  (0 < widen_factor)%nat -> (0 < nC)%nat -> (dropRate <= 1)%Q ->
  shape x = [N; 3; H; W]%nat -> (1 <= H)%nat -> (1 <= W)%nat ->
  (tr = true -> ~ (N = 1 /\ H <= 4 /\ W <= 4)%nat) ->
  exists net context out,
    Network_build widen_factor depth nC ep dropRate theta = Ok net /\
    Network_context net tr keep x = Ok context /\
    Network_forward net tr keep x = Ok out /\
    shape out = [N; nC] /\
    forall a, (a < N)%nat ->
      (forall j, (j < nC)%nat ->
         val out [a; j] = ln (mos_mixture nC 10 context a j) /\
         0 < mos_mixture nC 10 context a j /\
         exp (val out [a; j]) = mos_mixture nC 10 context a j) /\
      (forall j, (j < nC)%nat -> 0 < exp (val out [a; j])) /\
      sum_n nC (fun j => exp (val out [a; j])) = 1.
Proof.
  intros Hd Hm Hw HnC Hdr Hx HH HW Htr.
  assert (Hdr' : Qlt_bool 1 dropRate = false).
  { unfold Qlt_bool. apply Bool.negb_false_iff, Qle_bool_iff, Hdr. }
  destruct (Network_build_ok widen_factor depth nC ep dropRate theta Hm)
    as [net Hnet].
  destruct (Network_context_shape widen_factor depth nC ep dropRate theta net
              tr keep x N H W Hnet Hd Hw Hdr' Hx HH HW Htr)
    as (EnC & EK & context & Ectx & Sctx).
  destruct (mixture_head_spec nC 10 N context Sctx ltac:(lia) HnC)
    as (out & Eout & Sout & Vout).
  exists net, context, out. split; [exact Hnet|]. split; [exact Ectx|].
  split.
  { unfold Network_forward. rewrite Ectx. cbn [bind].
    rewrite EnC, EK. exact Eout. }
  split; [exact Sout|].
  intros a Ha.
  assert (Hj : forall j, (j < nC)%nat ->
            val out [a; j] = ln (mos_mixture nC 10 context a j) /\
            0 < mos_mixture nC 10 context a j /\
            exp (val out [a; j]) = mos_mixture nC 10 context a j).
  { intros j Hj.
    pose proof (mos_mixture_pos nC 10 context a j ltac:(lia) HnC) as Hpos.
    split; [apply Vout; assumption|]. split; [exact Hpos|].
    rewrite (Vout a j Ha Hj). apply exp_ln, Hpos. }
  split; [exact Hj|]. split; [intros; apply exp_pos|].
  rewrite (sum_n_ext nC _ (fun j => mos_mixture nC 10 context a j)).
  - apply mos_mixture_sum; [lia|exact HnC].
  - intros j Hlt. apply (Hj j Hlt).
Qed.

Lemma Network_forward_log_distribution_witness :
  exists net context out,
    Network_build 1 10 10 1 0%Q (flat_store 1) = Ok net /\
    Network_context net false (fun _ _ => keep_all)
      (full [1; 3; 4; 4]%nat 0) = Ok context /\
    Network_forward net false (fun _ _ => keep_all)
      (full [1; 3; 4; 4]%nat 0) = Ok out /\
    shape out = [1; 10]%nat /\
    forall a, (a < 1)%nat ->
      (forall j, (j < 10)%nat ->
         val out [a; j] = ln (mos_mixture 10 10 context a j) /\
         0 < mos_mixture 10 10 context a j /\
         exp (val out [a; j]) = mos_mixture 10 10 context a j) /\
      (forall j, (j < 10)%nat -> 0 < exp (val out [a; j])) /\
      sum_n 10 (fun j => exp (val out [a; j])) = 1.
Proof.
  apply (Network_forward_log_distribution 1 10 10 1 0%Q (flat_store 1) false
           (fun _ _ => keep_all) (full [1; 3; 4; 4]%nat 0) 1 4 4).
  - lia.
  - reflexivity.
  - lia.
  - lia.
  - unfold Qle. simpl. lia.
  - reflexivity.
  - lia.
  - lia.
  - discriminate.
Defined.

(** C1 (counterexample to the claim as stated).  [depth = 4] satisfies
    [(depth - 4) % 6 == 0] and [Network(1, 4, 10, 1)] is built, with three
    empty groups; its forward pass on a (1, 3, 4, 4) batch hands the 16
    channels of the first convolution to a batch normalisation built for
    64, and fails. *)
Lemma Network_depth4_forward_fails :
  exists net,
    Network_init 1 4 10 1 0%Q (flat_store 1) = Ok net /\
    block1 net = [] /\ block2 net = [] /\ block3 net = [] /\
    Network_forward net false (fun _ _ => keep_all) (full [1; 3; 4; 4]%nat 0)
    = Fail TorchShapeError.
Proof.
  eexists. split; [reflexivity|]. repeat split.
Qed.

(** The smallest network that runs, [Network(1, 10, 10, 1)], on one 4x4
    image: the forward pass returns in evaluation mode; in training mode the
    second batch normalisation of the first block of the third group sees a
    (1, 64, 1, 1) tensor, a single value per channel, and the framework
    raises [ValueError]; a batch of two such images passes. *)
Lemma Network_single_image_training_fails :
  exists net,
    Network_init 1 10 10 1 0%Q (flat_store 1) = Ok net /\
    is_ok (Network_forward net false (fun _ _ => keep_all)
             (full [1; 3; 4; 4]%nat 0)) = true /\
    Network_forward net true (fun _ _ => keep_all) (full [1; 3; 4; 4]%nat 0)
    = Fail PyValueError /\
    is_ok (Network_forward net true (fun _ _ => keep_all)
             (full [2; 3; 4; 4]%nat 0)) = true.
Proof.
  eexists. split; [reflexivity|]. split; [reflexivity|]. split; reflexivity.
Qed.

(** * Further properties of the two files *)

(** ** softmax *)

Lemma fold_left_Rmax_ge (l : list R) (a : R) : a <= fold_left Rmax l a.
Proof.
  revert a. induction l as [|y l IH]; intros a; simpl; [lra|].
  eapply Rle_trans; [apply (Rmax_l a y)|apply IH].
Qed.

Lemma fold_left_Rmax_upper (l : list R) (a v : R) :
  In v l -> v <= fold_left Rmax l a.
Proof.
  revert a. induction l as [|y l IH]; intros a Hin; simpl in *; [contradiction|].
  destruct Hin as [E|Hin].
  - subst. eapply Rle_trans; [apply (Rmax_r a v)|apply fold_left_Rmax_ge].
  - apply IH, Hin.
Qed.

Lemma fold_left_Rmax_in (l : list R) (a : R) :
  fold_left Rmax l a = a \/ In (fold_left Rmax l a) l.
Proof.
  revert a. induction l as [|y l IH]; intros a; simpl; [left; reflexivity|].
  destruct (IH (Rmax a y)) as [E|Hin].
  - rewrite E. unfold Rmax. destruct (Rle_dec a y); [right; left|left]; reflexivity.
  - right. right. exact Hin.
Qed.

Lemma np_max_spec (x : list R) (m : R) :
  np_max x = Ok m -> In m x /\ forall v, In v x -> v <= m.
Proof.
  destruct x as [|a r]; simpl; intros H; [discriminate|].
  inversion H; subst m. split.
  - destruct (fold_left_Rmax_in r a) as [E|Hin]; [left; symmetry; exact E|right; exact Hin].
  - intros v [E|Hin].
    + subst. apply fold_left_Rmax_ge.
    + apply fold_left_Rmax_upper, Hin.
Qed.

Lemma np_sum_map_div (l : list R) (c : R) :
  np_sum (map (fun e => e / c) l) = np_sum l / c.
Proof.
  induction l as [|a l IH]; simpl; [unfold Rdiv; ring|].
  rewrite IH. unfold Rdiv. ring.
Qed.

Lemma np_sum_map_scale (A : Type) (f : A -> R) (l : list A) (c : R) :
  np_sum (map (fun v => f v * c) l) = np_sum (map f l) * c.
Proof. induction l as [|a l IH]; simpl; [ring|rewrite IH; ring]. Qed.

Lemma np_sum_map_nonneg (A : Type) (f : A -> R) (l : list A) :
  (forall v, 0 < f v) -> 0 <= np_sum (map f l).
Proof.
  intros Hf. induction l as [|b l IH]; simpl; [lra|].
  pose proof (Hf b). lra.
Qed.

Lemma np_sum_map_pos (A : Type) (f : A -> R) (l : list A) :
  l <> [] -> (forall v, 0 < f v) -> 0 < np_sum (map f l).
Proof.
  intros Hne Hf. destruct l as [|a l]; [contradiction|]. simpl.
  pose proof (np_sum_map_nonneg A f l Hf). pose proof (Hf a). lra.
Qed.

Lemma np_sum_map_ge (A : Type) (f : A -> R) (l : list A) (u : A) :
  (forall v, 0 < f v) -> In u l -> f u <= np_sum (map f l).
Proof.
  intros Hf. induction l as [|a l IH]; [contradiction|]. simpl.
  pose proof (np_sum_map_nonneg A f l Hf). pose proof (Hf a).
  intros [E|Hu]; [subst; lra|]. specialize (IH Hu). lra.
Qed.

(** The value the code returns, with the shift by the maximum cancelled. *)
Lemma softmax_closed_form (x : list R) :
  x <> [] ->
  softmax x = Ok (map (fun v => exp v / np_sum (map exp x)) x).
Proof.
  intros Hne. unfold softmax. destruct x as [|a r]; [contradiction|].
  cbn [np_max bind]. set (m := fold_left Rmax r a). set (x := a :: r) in *.
  rewrite map_map. f_equal.
  assert (Hs : np_sum (map (fun v => exp (v - m)) x)
               = np_sum (map exp x) * / exp m).
  { rewrite <- np_sum_map_scale. f_equal. apply map_ext. intros v.
    unfold Rminus. rewrite exp_plus, exp_Ropp. reflexivity. }
  rewrite Hs. apply map_ext. intros v.
  pose proof (exp_pos m). pose proof (np_sum_map_pos R exp x Hne exp_pos).
  unfold Rminus. rewrite exp_plus, exp_Ropp. field. split; lra.
Qed.

(** X1. [softmax] on a non-empty array returns an array of the same
    length whose [i]-th entry is [exp x_i / sum_k exp x_k]: every entry lies
    in (0, 1] and the entries sum to 1. *)
Theorem softmax_is_distribution (x : list R) :
  x <> [] ->
  exists p,
    softmax x = Ok p /\
    List.length p = List.length x /\
    (forall i, (i < List.length x)%nat ->
       nth i p 0 = exp (nth i x 0) / np_sum (map exp x)) /\
    (forall v, In v p -> 0 < v <= 1) /\
    np_sum p = 1.
Proof.
  intros Hne. rewrite (softmax_closed_form x Hne). eexists.
  split; [reflexivity|].
  pose proof (np_sum_map_pos R exp x Hne exp_pos) as HS.
  split; [apply length_map|]. split; [|split].
  - intros i Hi. set (f := fun v => exp v / np_sum (map exp x)).
    rewrite (nth_indep (map f x) 0 (f 0)) by (rewrite length_map; exact Hi).
    rewrite map_nth. reflexivity.
  - intros v Hv. apply in_map_iff in Hv. destruct Hv as (u & <- & Hu).
    split; [apply Rdiv_lt_0_compat; [apply exp_pos|exact HS]|].
    pose proof (np_sum_map_ge R exp x u exp_pos Hu).
    apply Rmult_le_reg_r with (np_sum (map exp x)); [exact HS|].
    unfold Rdiv. rewrite Rmult_assoc, Rinv_l by lra. lra.
  - rewrite <- (map_map exp (fun e => e / np_sum (map exp x))).
    rewrite np_sum_map_div. field. lra.
Qed.

Lemma softmax_is_distribution_witness :
  exists p,
    softmax [0; 1] = Ok p /\
    List.length p = 2%nat /\
    (forall i, (i < 2)%nat ->
       nth i p 0 = exp (nth i [0; 1] 0) / np_sum (map exp [0; 1])) /\
    (forall v, In v p -> 0 < v <= 1) /\
    np_sum p = 1.
Proof. apply (softmax_is_distribution [0; 1]). discriminate. Defined.

(** X2. [softmax] raises only on the empty array, and then the
    [ValueError] of [np.max]: the denominator [e_x.sum()] is never zero. *)
Theorem softmax_fails_only_on_empty (x : list R) (e : failure) :
  softmax x = Fail e <-> x = [] /\ e = PyValueError.
Proof.
  split.
  - destruct x as [|a r].
    + cbn. intros H. inversion H. split; reflexivity.
    + rewrite softmax_closed_form by discriminate. discriminate.
  - intros [-> ->]. reflexivity.
Qed.

(** X3. In exact real arithmetic, adding the same constant to every entry
    of the array does not change what [softmax] returns.  (The model computes
    over the reals; floating-point rounding is not modelled.) *)
Theorem softmax_shift_invariant (x : list R) (c : R) :
  softmax (map (fun v => v + c) x) = softmax x.
Proof.
  destruct x as [|a r]; [reflexivity|].
  rewrite (softmax_closed_form (a :: r)) by discriminate.
  rewrite (softmax_closed_form (map _ (a :: r))) by discriminate.
  f_equal. rewrite !map_map.
  assert (Hs : np_sum (map (fun v => exp (v + c)) (a :: r))
               = np_sum (map exp (a :: r)) * exp c).
  { rewrite <- np_sum_map_scale. f_equal. apply map_ext. intros v.
    apply exp_plus. }
  rewrite Hs. apply map_ext. intros v.
  pose proof (exp_pos c).
  pose proof (np_sum_map_pos R exp (a :: r) ltac:(discriminate) exp_pos).
  rewrite exp_plus. field. split; lra.
Qed.

(** X4. In exact real arithmetic, [softmax] keeps the order of the entries:
    a larger input entry gets a larger probability, strictly so when the
    inputs differ.  (Floating-point rounding is not modelled.) *)
Theorem softmax_monotone (x p : list R) (i k : nat) :
  softmax x = Ok p ->
  (i < List.length x)%nat -> (k < List.length x)%nat ->
  (nth i x 0 <= nth k x 0 -> nth i p 0 <= nth k p 0) /\
  (nth i x 0 < nth k x 0 -> nth i p 0 < nth k p 0).
Proof.
  intros Hp Hi Hk.
  assert (Hne : x <> []) by (destruct x; [simpl in Hi; lia|discriminate]).
  rewrite (softmax_closed_form x Hne) in Hp. inversion Hp; subst p.
  pose proof (np_sum_map_pos R exp x Hne exp_pos) as HS.
  set (f := fun v => exp v / np_sum (map exp x)).
  rewrite (nth_indep (map f x) 0 (f 0)) by (rewrite length_map; exact Hi).
  rewrite (nth_indep (map f x) 0 (f 0)) by (rewrite length_map; exact Hk).
  rewrite !map_nth. unfold f. split.
  - intros Hle. apply Rmult_le_compat_r; [left; apply Rinv_0_lt_compat, HS|].
    destruct Hle as [ Hlt | -> ];
      [left; apply exp_increasing, Hlt|right; reflexivity].
  - intros Hlt. apply Rmult_lt_compat_r; [apply Rinv_0_lt_compat, HS|].
    apply exp_increasing, Hlt.
Qed.

Lemma softmax_monotone_witness :
  exists p,
    softmax [0; 1] = Ok p /\
    (nth 0 [0; 1] 0 <= nth 1 [0; 1] 0 -> nth 0 p 0 <= nth 1 p 0) /\
    (nth 0 [0; 1] 0 < nth 1 [0; 1] 0 -> nth 0 p 0 < nth 1 p 0).
Proof.
  eexists. split; [reflexivity|].
  apply (softmax_monotone [0; 1] _ 0 1); [reflexivity|simpl; lia|simpl; lia].
Defined.

(** X5. In exact real arithmetic, the shift by [np.max(x)] keeps the
    computation in range: every exponent [x_i - max] is at most 0, so every
    exponential lies in (0, 1], the one at a maximal entry is 1, and the
    denominator is at least 1.  (Floating-point rounding and underflow are
    not modelled.) *)
Theorem softmax_shift_keeps_exponentials_in_range (x : list R) :
  x <> [] ->
  exists m,
    np_max x = Ok m /\ In m x /\
    (forall v, In v x -> v - m <= 0 /\ 0 < exp (v - m) <= 1) /\
    exp (m - m) = 1 /\
    1 <= np_sum (map (fun v => exp (v - m)) x).
Proof.
  intros Hne. destruct x as [|a r]; [contradiction|].
  exists (fold_left Rmax r a).
  destruct (np_max_spec (a :: r) _ eq_refl) as [Hin Hub].
  set (m := fold_left Rmax r a) in *.
  assert (E1 : exp (m - m) = 1) by (replace (m - m) with 0 by ring; apply exp_0).
  split; [reflexivity|]. split; [exact Hin|]. split; [|split; [exact E1|]].
  - intros v Hv. specialize (Hub v Hv). split; [lra|].
    split; [apply exp_pos|]. rewrite <- exp_0.
    destruct (Req_dec (v - m) 0) as [ -> | Hneq ]; [lra|].
    left. apply exp_increasing. lra.
  - rewrite <- E1 at 1.
    apply (np_sum_map_ge R (fun v => exp (v - m)) (a :: r) m);
      [intros v; apply exp_pos|exact Hin].
Qed.

Lemma softmax_shift_keeps_exponentials_in_range_witness :
  exists m,
    np_max [0; 1] = Ok m /\ In m [0; 1] /\
    (forall v, In v [0; 1] -> v - m <= 0 /\ 0 < exp (v - m) <= 1) /\
    exp (m - m) = 1 /\
    1 <= np_sum (map (fun v => exp (v - m)) [0; 1]).
Proof.
  apply (softmax_shift_keeps_exponentials_in_range [0; 1]). discriminate.
Defined.

(** ** Network.update_lr *)

Lemma mapM_const_Ok {A B : Type} (b : B) (l : list A) :
  mapM (fun _ : A => Ok b) l = Ok (map (fun _ => b) l).
Proof. induction l as [|a l IH]; simpl; [|rewrite IH]; reflexivity. Qed.

Lemma mapM_ext {A B : Type} (f g : A -> result B) (l : list A) :
  (forall a, f a = g a) -> mapM f l = mapM g l.
Proof.
  intros E. induction l as [|a l IH]; simpl; [|rewrite E, IH]; reflexivity.
Qed.

(** X6. With [max_j] not zero, [update_lr] returns: the iteration counter
    goes up by one, the stored base rate [self.lr] is left alone, and every
    parameter group receives [0.5 * lr * (1 + cos(pi * j / max_j))] at the
    counter [j] of before the call, a value between 0 and the base rate. *)
Theorem update_lr_assigns_cosine (self : Network) (param_groups : list R)
  (max_j : Z) :
  max_j <> 0%Z -> 0 <= lr self ->
  exists self' groups,
    update_lr self param_groups max_j = Ok (self', groups) /\
    j self' = S (j self) /\ lr self' = lr self /\
    List.length groups = List.length param_groups /\
    forall g, In g groups ->
      g = 1 / 2 * lr self * (1 + cos (PI * INR (j self) / IZR max_j)) /\
      0 <= g <= lr self.
Proof.
  intros Hm Hlr. unfold update_lr.
  destruct (Z.eqb_spec max_j 0) as [E|_]; [contradiction|].
  rewrite mapM_const_Ok. cbn [bind].
  eexists. eexists. split; [reflexivity|].
  split; [reflexivity|]. split; [reflexivity|].
  split; [apply length_map|].
  intros g Hg. apply in_map_iff in Hg. destruct Hg as (_ & <- & _).
  unfold cosine_lr. split; [reflexivity|].
  pose proof (COS_bound (PI * INR (j self) / IZR max_j)) as [Hlo Hhi].
  split; nra.
Qed.

Lemma update_lr_assigns_cosine_witness :
  exists self' groups,
    update_lr unit_network [1; 1] 100 = Ok (self', groups) /\
    j self' = S (j unit_network) /\ lr self' = lr unit_network /\
    List.length groups = List.length [1; 1] /\
    forall g, In g groups ->
      g = 1 / 2 * lr unit_network
          * (1 + cos (PI * INR (j unit_network) / IZR 100)) /\
      0 <= g <= lr unit_network.
Proof.
  apply (update_lr_assigns_cosine unit_network [1; 1] 100).
  - discriminate.
  - simpl. lra.
Defined.

(** X7. [update_lr] raises exactly when [max_j] is zero and the optimiser
    has a parameter group, and then [ZeroDivisionError]; with no group the
    loop body never runs and only the counter moves. *)
Theorem update_lr_fails_iff (self : Network) (param_groups : list R)
  (max_j : Z) (e : failure) :
  update_lr self param_groups max_j = Fail e
  <-> max_j = 0%Z /\ param_groups <> [] /\ e = PyZeroDivisionError.
Proof.
  unfold update_lr. destruct (Z.eqb_spec max_j 0) as [E|E].
  - destruct param_groups as [|a r]; cbn.
    + split; [discriminate|]. intros (_ & H & _). contradiction.
    + split.
      * intros H. inversion H. repeat split; [exact E|discriminate].
      * intros (_ & _ & ->). reflexivity.
  - rewrite mapM_const_Ok. cbn [bind].
    split; [discriminate|]. intros (H & _). contradiction.
Qed.

Lemma INR_to_nat (z : Z) : (0 <= z)%Z -> INR (Z.to_nat z) = IZR z.
Proof. intros H. rewrite INR_IZR_INZ, Z2Nat.id by exact H. reflexivity. Qed.

(** X8. In exact real arithmetic (floating-point rounding is not
    modelled), the schedule of line 110 over [max_j > 0] calls, for a
    positive base rate: the first call assigns the base rate itself, the assigned
    rate falls strictly from call to call up to counter [max_j], where it is
    0, and the schedule repeats with period [2 * max_j], so calling on past
    [max_j] makes the rate rise again. *)
Theorem cosine_lr_schedule (lr0 : R) (max_j : Z) :
  (0 < max_j)%Z -> 0 < lr0 ->
  cosine_lr lr0 0 max_j = lr0 /\
  cosine_lr lr0 (Z.to_nat max_j) max_j = 0 /\
  (forall j k, (j < k)%nat -> (k <= Z.to_nat max_j)%nat ->
     cosine_lr lr0 k max_j < cosine_lr lr0 j max_j) /\
  (forall j, cosine_lr lr0 (j + 2 * Z.to_nat max_j) max_j
             = cosine_lr lr0 j max_j) /\
  (forall j k, (Z.to_nat max_j <= j)%nat -> (j < k)%nat ->
     (k <= 2 * Z.to_nat max_j)%nat ->
     cosine_lr lr0 j max_j < cosine_lr lr0 k max_j).
Proof.
  intros Hm Hlr.
  assert (HM : 0 < IZR max_j) by (apply IZR_lt; exact Hm).
  assert (EM : INR (Z.to_nat max_j) = IZR max_j) by (apply INR_to_nat; lia).
  pose proof PI_RGT_0 as Hpi.
  assert (Hmono : forall a b : nat, (a < b)%nat ->
            PI * INR a / IZR max_j < PI * INR b / IZR max_j).
  { intros a b Hab. apply Rmult_lt_compat_r; [apply Rinv_0_lt_compat, HM|].
    apply Rmult_lt_compat_l; [exact Hpi|]. apply lt_INR, Hab. }
  assert (Hnn : forall a : nat, 0 <= PI * INR a / IZR max_j).
  { intros a. apply Rmult_le_pos; [|left; apply Rinv_0_lt_compat, HM].
    apply Rmult_le_pos; [lra|apply pos_INR]. }
  assert (Hle : forall a b : nat, (a <= b)%nat ->
            PI * INR a / IZR max_j <= PI * INR b / IZR max_j).
  { intros a b Hab. apply Rmult_le_compat_r; [left; apply Rinv_0_lt_compat, HM|].
    apply Rmult_le_compat_l; [lra|]. apply le_INR, Hab. }
  assert (Eone : PI * INR (Z.to_nat max_j) / IZR max_j = PI).
  { rewrite EM. field. lra. }
  assert (Etwo : PI * INR (2 * Z.to_nat max_j) / IZR max_j = 2 * PI).
  { rewrite mult_INR, EM. simpl. field. lra. }
  assert (Hub1 : forall a : nat, (a <= Z.to_nat max_j)%nat ->
            PI * INR a / IZR max_j <= PI).
  { intros a Ha. pose proof (Hle a _ Ha) as H. rewrite Eone in H. exact H. }
  assert (Hlb1 : forall a : nat, (Z.to_nat max_j <= a)%nat ->
            PI <= PI * INR a / IZR max_j).
  { intros a Ha. pose proof (Hle _ a Ha) as H. rewrite Eone in H. exact H. }
  assert (Hub2 : forall a : nat, (a <= 2 * Z.to_nat max_j)%nat ->
            PI * INR a / IZR max_j <= 2 * PI).
  { intros a Ha. pose proof (Hle a _ Ha) as H. rewrite Etwo in H. exact H. }
  unfold cosine_lr. repeat split.
  - simpl. replace (PI * 0 / IZR max_j) with 0 by (unfold Rdiv; ring).
    rewrite cos_0. field.
  - rewrite Eone, cos_PI. ring.
  - intros a b Hab Hb.
    assert (cos (PI * INR b / IZR max_j) < cos (PI * INR a / IZR max_j)).
    { apply cos_decreasing_1.
      - apply Hnn.
      - apply Hub1. lia.
      - apply Hnn.
      - apply Hub1, Hb.
      - apply Hmono, Hab. }
    nra.
  - intros a. rewrite plus_INR.
    replace (PI * (INR a + INR (2 * Z.to_nat max_j)) / IZR max_j)
      with (PI * INR a / IZR max_j + PI * INR (2 * Z.to_nat max_j) / IZR max_j)
      by (field; lra).
    rewrite Etwo, cos_plus, cos_2PI, sin_2PI. f_equal. ring.
  - intros a b Ha Hab Hb.
    assert (cos (PI * INR a / IZR max_j) < cos (PI * INR b / IZR max_j)).
    { apply cos_increasing_1.
      - apply Hlb1, Ha.
      - apply Hub2. lia.
      - apply Hlb1. lia.
      - apply Hub2, Hb.
      - apply Hmono, Hab. }
    nra.
Qed.

Lemma cosine_lr_schedule_witness :
  cosine_lr (1 / 10) 0 100 = 1 / 10 /\
  cosine_lr (1 / 10) (Z.to_nat 100) 100 = 0 /\
  (forall j k, (j < k)%nat -> (k <= Z.to_nat 100)%nat ->
     cosine_lr (1 / 10) k 100 < cosine_lr (1 / 10) j 100) /\
  (forall j, cosine_lr (1 / 10) (j + 2 * Z.to_nat 100) 100
             = cosine_lr (1 / 10) j 100) /\
  (forall j k, (Z.to_nat 100 <= j)%nat -> (j < k)%nat ->
     (k <= 2 * Z.to_nat 100)%nat ->
     cosine_lr (1 / 10) j 100 < cosine_lr (1 / 10) k 100).
Proof. apply (cosine_lr_schedule (1 / 10) 100); [reflexivity|lra]. Defined.

(** ** Network.__init__ and _make_layer: edge cases *)

(** X9. For a positive widening factor the constructor of [Network]
    returns exactly when [(depth - 4) % 6 == 0]; any other depth raises
    [AssertionError], whatever the other arguments.  (A depth like 4 or -2
    passes the check and builds groups without blocks.) *)
Theorem Network_init_depth_check (widen_factor : nat) (depth : Z)
  (nClasses epochs : nat) (dropRate : Q) (draw : ParamStore) :
  (0 < widen_factor)%nat ->
  ((exists net,
      Network_init widen_factor depth nClasses epochs dropRate draw = Ok net)
   <-> ((depth - 4) mod 6 = 0)%Z) /\
  (((depth - 4) mod 6 <> 0)%Z ->
   forall w nC ep dr d,
     Network_init w depth nC ep dr d = Fail PyAssertionError).
Proof.
  intros Hw.
  assert (Hbad : ((depth - 4) mod 6 <> 0)%Z ->
                 forall w nC ep dr d,
                   Network_init w depth nC ep dr d = Fail PyAssertionError).
  { intros Hm w nC ep dr d. unfold Network_init, Network_build.
    destruct (Z.eqb_spec ((depth - 4) mod 6) 0) as [E|_]; [contradiction|].
    reflexivity. }
  split; [|exact Hbad]. split.
  - intros [net Hnet].
    destruct (Z.eq_dec ((depth - 4) mod 6) 0) as [E|E]; [exact E|].
    rewrite (Hbad E) in Hnet. discriminate.
  - intros Hm. unfold Network_init, Network_build.
    rewrite Hm, Z.eqb_refl. cbn [negb index nth_error bind].
    rewrite nn_Conv2d_groups1 by (simpl; lia). cbn [bind].
    set (n := ((depth - 4) ÷ 6)%Z) in *.
    destruct (make_layer_ok n 16 (16 * widen_factor) 1 dropRate
                (child "block1" (init_store draw))) as (b1 & E1 & _).
    destruct (make_layer_ok n (16 * widen_factor) (32 * widen_factor) 2 dropRate
                (child "block2" (init_store draw))) as (b2 & E2 & _).
    destruct (make_layer_ok n (32 * widen_factor) (64 * widen_factor) 2 dropRate
                (child "block3" (init_store draw))) as (b3 & E3 & _).
    rewrite E1, E2, E3. cbn [bind].
    match goal with
    | |- context [forallb ?f ?l] => assert (Hall : forallb f l = true)
    end.
    { apply forallb_forall. intros m Hin.
      apply Bool.negb_true_iff. apply Nat.eqb_neq.
      unfold Network_convs in Hin. cbn [net_conv1 block1 block2 block3] in Hin.
      destruct Hin as [<-|Hin]; [unfold fan_out; simpl; lia|].
      rewrite !flat_map_app in Hin.
      apply in_app_or in Hin. destruct Hin as [Hin|Hin].
      { eapply make_layer_fan_out; [|exact E1|exact Hin]. lia. }
      apply in_app_or in Hin. destruct Hin as [Hin|Hin].
      { eapply make_layer_fan_out; [|exact E2|exact Hin]. lia. }
      { eapply make_layer_fan_out; [|exact E3|exact Hin]. lia. } }
    rewrite Hall. eexists. reflexivity.
Qed.

Lemma Network_init_depth_check_witness :
  ((exists net, Network_init 1 16 10 1 0%Q (flat_store 1) = Ok net)
   <-> ((16 - 4) mod 6 = 0)%Z) /\
  (((16 - 4) mod 6 <> 0)%Z ->
   forall w nC ep dr d, Network_init w 16 nC ep dr d = Fail PyAssertionError).
Proof. apply (Network_init_depth_check 1 16 10 1 0%Q (flat_store 1)). lia. Defined.

(** X10. The idiom [i == 0 and a or b] of [_make_layer] falls through to
    [b] when [a] is zero: a stride of 0 builds the very blocks a stride of 1
    builds, and 0 input planes give the first block [out_planes] input
    planes. *)
Theorem make_layer_falsy_arguments (nb_layers : Z) (in_planes out_planes : nat)
  (stride : Z) (dropRate : Q) (theta : ParamStore) :
  _make_layer nb_layers in_planes out_planes 0 dropRate theta
  = _make_layer nb_layers in_planes out_planes 1 dropRate theta /\
  _make_layer nb_layers 0 out_planes stride dropRate theta
  = _make_layer nb_layers out_planes out_planes stride dropRate theta.
Proof.
  unfold _make_layer. split; apply mapM_ext; intros i.
  - replace (and_or_Z (i =? 0)%nat 0 1) with (and_or_Z (i =? 0)%nat 1 1)
      by (destruct (i =? 0)%nat; reflexivity).
    reflexivity.
  - replace (and_or_nat (i =? 0)%nat 0 out_planes)
      with (and_or_nat (i =? 0)%nat out_planes out_planes); [reflexivity|].
    unfold and_or_nat.
    destruct (i =? 0)%nat, (out_planes =? 0)%nat; reflexivity.
Qed.

(** ** Dropout *)

Lemma BasicBlock_forward_keep (self : BasicBlock) (tr : Mode)
  (keep keep' : list nat -> bool) (x : Tensor) :
  tr = false \/ Qlt_bool 0 (droprate self) = false ->
  BasicBlock_forward self tr keep x = BasicBlock_forward self tr keep' x.
Proof.
  intros [ -> | E ]; unfold BasicBlock_forward, F_dropout;
    [|rewrite E]; reflexivity.
Qed.

Lemma blocks_forward_keep (tr : Mode) (bs : list BasicBlock) :
  (forall b, In b bs -> tr = false \/ Qlt_bool 0 (droprate b) = false) ->
  forall keep keep' x,
    blocks_forward bs tr keep x = blocks_forward bs tr keep' x.
Proof.
  induction bs as [|b bs IH]; intros Hb keep keep' x; [reflexivity|].
  cbn [blocks_forward].
  rewrite (BasicBlock_forward_keep b tr (keep O) (keep' O) x)
    by (apply Hb; left; reflexivity).
  destruct (BasicBlock_forward b tr (keep' O) x) as [y|e]; [|reflexivity].
  cbn [bind]. apply IH. intros b' Hb'. apply Hb. right. exact Hb'.
Qed.

Lemma make_layer_droprate (nb : Z) (in_planes out_planes : nat) (stride : Z)
  (dropRate : Q) (theta : ParamStore) (bs : list BasicBlock) :
  _make_layer nb in_planes out_planes stride dropRate theta = Ok bs ->
  forall b, In b bs -> droprate b = dropRate.
Proof.
  intros Hbs b Hb.
  destruct (make_layer_ok nb in_planes out_planes stride dropRate theta)
    as (bs' & Hbs' & _ & Hn).
  rewrite Hbs in Hbs'. inversion Hbs'; subst bs'.
  apply In_nth_error in Hb. destruct Hb as [i Hi].
  specialize (Hn i b Hi). rewrite BasicBlock_init_eq in Hn.
  inversion Hn; subst b. reflexivity.
Qed.

(** X11. The dropout draws reach the output of the network only in
    training mode with a positive rate: in evaluation mode, and with
    [dropRate <= 0] (the default 0.0) in either mode, [Network.forward]
    returns the same outcome whatever the draws. *)
Theorem Network_forward_ignores_dropout_draws (widen_factor : nat) (depth : Z)
  (nC ep : nat) (dropRate : Q) (theta : ParamStore) (net : Network)
  (tr : Mode) :
  Network_build widen_factor depth nC ep dropRate theta = Ok net ->
  tr = false \/ (dropRate <= 0)%Q ->
  forall keep keep' x,
    Network_forward net tr keep x = Network_forward net tr keep' x.
Proof.
  intros Hb Hd keep keep' x.
  assert (Hq : tr = false \/ Qlt_bool 0 dropRate = false).
  { destruct Hd as [Hd|Hd]; [left; exact Hd|right].
    unfold Qlt_bool. apply Bool.negb_false_iff, Qle_bool_iff, Hd. }
  unfold Network_build in Hb.
  destruct (negb ((depth - 4) mod 6 =? 0)%Z); [discriminate|].
  cbn [index nth_error bind] in Hb.
  apply bind_Ok in Hb. destruct Hb as (c & _ & Hb).
  apply bind_Ok in Hb. destruct Hb as (b1 & E1 & Hb).
  apply bind_Ok in Hb. destruct Hb as (b2 & E2 & Hb).
  apply bind_Ok in Hb. destruct Hb as (b3 & E3 & Hb).
  inversion Hb; subst net; clear Hb.
  assert (K : forall nb i o s th bs,
            _make_layer nb i o s dropRate th = Ok bs ->
            forall k k' y, blocks_forward bs tr k y = blocks_forward bs tr k' y).
  { intros nb i o s th bs E. apply blocks_forward_keep. intros b Hin.
    rewrite (make_layer_droprate _ _ _ _ _ _ _ E b Hin). exact Hq. }
  unfold Network_forward, Network_context.
  cbn [net_conv1 block1 block2 block3 net_bn1 fc nChannels].
  destruct (Conv2d_forward c x) as [o0|e]; [|reflexivity]. cbn [bind].
  rewrite (K _ _ _ _ _ _ E1 (keep 1%nat) (keep' 1%nat)).
  destruct (blocks_forward b1 tr (keep' 1%nat) o0) as [o1|e]; [|reflexivity].
  cbn [bind].
  rewrite (K _ _ _ _ _ _ E2 (keep 2%nat) (keep' 2%nat)).
  destruct (blocks_forward b2 tr (keep' 2%nat) o1) as [o2|e]; [|reflexivity].
  cbn [bind].
  rewrite (K _ _ _ _ _ _ E3 (keep 3%nat) (keep' 3%nat)).
  reflexivity.
Qed.

Lemma Network_forward_ignores_dropout_draws_witness :
  exists net,
    Network_build 1 10 10 1 0%Q (flat_store 1) = Ok net /\
    forall keep keep' x,
      Network_forward net true keep x = Network_forward net true keep' x.
Proof.
  destruct (Network_build_ok 1 10 10 1 0%Q (flat_store 1) eq_refl) as [net E].
  exists net. split; [exact E|].
  apply (Network_forward_ignores_dropout_draws 1 10 10 1 0%Q (flat_store 1)
           net true E).
  right. apply Qle_refl.
Defined.

(** ** What a call that returned tells about its argument *)

Lemma BatchNorm2d_forward_inv (m : BatchNorm2d) (tr : Mode) (x y : Tensor) :
  BatchNorm2d_forward m tr x = Ok y ->
  exists N H W,
    shape x = [N; num_features m; H; W] /\
    shape y = [N; num_features m; H; W] /\
    (0 < num_features m)%nat.
Proof.
  unfold BatchNorm2d_forward.
  destruct (shape x) as [|N [|C [|H [|W [|? ?]]]]]; try discriminate.
  destruct (tr && _); [discriminate|].
  destruct (Nat.eqb_spec C (num_features m)) as [->|]; [|discriminate].
  cbn [negb orb].
  destruct (Nat.eqb_spec (num_features m) 0) as [|Hp]; [discriminate|].
  intros E. inversion E; subst y. exists N, H, W.
  split; [reflexivity|]. split; [reflexivity|lia].
Qed.

Lemma conv2d_batched_inv (input weight : Tensor) (bias : option Tensor)
  (stride padding dilation : Z * Z) (groups : nat) (y : Tensor) :
  conv2d_batched input weight bias stride padding dilation groups = Ok y ->
  exists N Cin H W Cout kH kW,
    shape input = [N; Cin; H; W] /\
    shape weight = [Cout; (Cin / groups)%nat; kH; kW] /\
    (0 < groups)%nat /\ (Cin mod groups = 0)%nat /\
    (0 < Cin)%nat /\ (0 < Cout)%nat /\
    conv_axis_ok H kH (fst stride) (fst padding) (fst dilation) = true /\
    conv_axis_ok W kW (snd stride) (snd padding) (snd dilation) = true /\
    shape y = [N; Cout;
               conv_out H kH (Z.to_nat (fst stride)) (Z.to_nat (fst padding))
                        (Z.to_nat (fst dilation));
               conv_out W kW (Z.to_nat (snd stride)) (Z.to_nat (snd padding))
                        (Z.to_nat (snd dilation))].
Proof.
  unfold conv2d_batched.
  destruct (shape input) as [|N [|Cin [|H [|W [|? ?]]]]]; try discriminate.
  destruct (shape weight) as [|Cout [|Cg [|kH [|kW [|? ?]]]]]; try discriminate.
  match goal with |- (if ?c then _ else _) = _ -> _ => destruct c eqn:Ec end;
    [|discriminate].
  intros E. inversion E; subst y. clear E.
  repeat (apply andb_prop in Ec; destruct Ec as [Ec ?]).
  exists N, Cin, H, W, Cout, kH, kW.
  repeat match goal with
         | H : (_ =? _)%nat = true |- _ => apply Nat.eqb_eq in H
         | H : (_ <? _)%nat = true |- _ => apply Nat.ltb_lt in H
         end.
  subst Cg. repeat split; assumption.
Qed.

(** On a batch (an input of rank 4), a convolution that returned. *)
Lemma conv2d_inv (input weight : Tensor) (bias : option Tensor)
  (stride padding dilation : Z * Z) (groups : nat) (y : Tensor)
  (N Cin H W : nat) :
  shape input = [N; Cin; H; W] ->
  conv2d input weight bias stride padding dilation groups = Ok y ->
  exists Cout kH kW,
    shape weight = [Cout; (Cin / groups)%nat; kH; kW] /\
    (0 < groups)%nat /\ (Cin mod groups = 0)%nat /\
    (0 < Cin)%nat /\ (0 < Cout)%nat /\
    conv_axis_ok H kH (fst stride) (fst padding) (fst dilation) = true /\
    conv_axis_ok W kW (snd stride) (snd padding) (snd dilation) = true /\
    shape y = [N; Cout;
               conv_out H kH (Z.to_nat (fst stride)) (Z.to_nat (fst padding))
                        (Z.to_nat (fst dilation));
               conv_out W kW (Z.to_nat (snd stride)) (Z.to_nat (snd padding))
                        (Z.to_nat (snd dilation))].
Proof.
  intros Hx. unfold conv2d. rewrite Hx. intros E.
  apply conv2d_batched_inv in E.
  destruct E as (N' & C' & H' & W' & Cout & kH & kW & Sx & R).
  rewrite Hx in Sx. inversion Sx; subst N' C' H' W'.
  exists Cout, kH, kW. exact R.
Qed.

(** On one unbatched image (an input of rank 3), a convolution that
    returned: the result is one image too. *)
Lemma conv2d_inv3 (input weight : Tensor) (bias : option Tensor)
  (stride padding dilation : Z * Z) (groups : nat) (y : Tensor)
  (Cin H W : nat) :
  shape input = [Cin; H; W] ->
  conv2d input weight bias stride padding dilation groups = Ok y ->
  exists Cout kH kW,
    shape weight = [Cout; (Cin / groups)%nat; kH; kW] /\
    shape y = [Cout;
               conv_out H kH (Z.to_nat (fst stride)) (Z.to_nat (fst padding))
                        (Z.to_nat (fst dilation));
               conv_out W kW (Z.to_nat (snd stride)) (Z.to_nat (snd padding))
                        (Z.to_nat (snd dilation))].
Proof.
  intros Hx. unfold conv2d. rewrite Hx. intros E.
  apply bind_Ok in E. destruct E as (z & Ez & E). inversion E; subst y.
  apply conv2d_batched_inv in Ez.
  destruct Ez as (N' & C' & H' & W' & Cout & kH & kW & Sx & Sw & _ & _ & _ & _
                  & _ & _ & Sz).
  unfold unsqueeze0 in Sx. cbn [shape] in Sx. rewrite Hx in Sx.
  inversion Sx; subst N' C' H' W'.
  exists Cout, kH, kW. split; [exact Sw|].
  unfold squeeze0. cbn [shape]. rewrite Sz. reflexivity.
Qed.

(** A convolution returns tensors of rank 4 or 3 only. *)
Lemma conv2d_rank (input weight : Tensor) (bias : option Tensor)
  (stride padding dilation : Z * Z) (groups : nat) (y : Tensor) :
  conv2d input weight bias stride padding dilation groups = Ok y ->
  (exists N C H W, shape input = [N; C; H; W]) \/
  (exists C H W, shape input = [C; H; W]).
Proof.
  unfold conv2d.
  destruct (shape input) as [|N [|C [|H [|W [|? ?]]]]] eqn:Hx;
    try (intros E; apply conv2d_batched_inv in E;
         destruct E as (? & ? & ? & ? & ? & ? & ? & Sx & _);
         rewrite Hx in Sx; discriminate Sx).
  - intros _. right. exists N, C, H. reflexivity.
  - intros _. left. exists N, C, H, W. reflexivity.
Qed.

(** On a batch, a convolution returns a batch. *)
Lemma conv2d_rank4 (input weight : Tensor) (bias : option Tensor)
  (stride padding dilation : Z * Z) (groups : nat) (y : Tensor) :
  conv2d input weight bias stride padding dilation groups = Ok y ->
  List.length (shape input) = 4%nat -> List.length (shape y) = 4%nat.
Proof.
  intros E L.
  destruct (conv2d_rank _ _ _ _ _ _ _ _ E)
    as [(N & C & H & W & Sx)|(C & H & W & Sx)];
    [|rewrite Sx in L; discriminate L].
  destruct (conv2d_inv _ _ _ _ _ _ _ _ _ _ _ _ Sx E)
    as (Cout & kH & kW & _ & _ & _ & _ & _ & _ & _ & Sy).
  rewrite Sy. reflexivity.
Qed.

(** ** Transition *)

Lemma half_window (H : nat) : (2 <= H)%nat -> ((H - 2) / 2 + 1 = H / 2)%nat.
Proof.
  intros HH. rewrite <- (Nat.div_add (H - 2) 1 2) by lia. f_equal. lia.
Qed.

(** X12. [Transition] can always be built.  With at least one input and one
    output channel, it halves the spatial size (rounding down) and maps
    [nChannels] to [nOutChannels] channels, in both modes; with no input or
    no output channel, or on an input with a side shorter than the pooling
    window of 2, the forward pass fails. *)
Theorem Transition_forward_halves (nChannels nOutChannels : nat)
  (theta : ParamStore) (tr : Mode) (x : Tensor) (N H W : nat) :
  shape x = [N; nChannels; H; W] ->
  exists self,
    Transition_init nChannels nOutChannels theta = Ok self /\
    ((0 < nChannels)%nat /\ (0 < nOutChannels)%nat /\
     (2 <= H)%nat /\ (2 <= W)%nat ->
     exists y, Transition_forward self tr x = Ok y /\
               shape y = [N; nOutChannels; (H / 2)%nat; (W / 2)%nat]) /\
    (~ ((0 < nChannels)%nat /\ (0 < nOutChannels)%nat /\
        (2 <= H)%nat /\ (2 <= W)%nat) ->
     exists e, Transition_forward self tr x = Fail e).
Proof.
  intros Hx. unfold Transition_init.
  rewrite nn_Conv2d_groups1 by (simpl; lia). cbn [bind].
  eexists. split; [reflexivity|].
  unfold Transition_forward. cbn [tr_bn1 tr_conv1].
  change (Z.to_nat (fst (pair2 1))) with 1%nat.
  change (Z.to_nat (snd (pair2 1))) with 1%nat.
  split.
  - intros (Hpi & Hpo & HH & HW).
    destruct (BatchNorm2d_forward_shape
                (nn_BatchNorm2d nChannels (child "bn1" theta)) tr x
                N nChannels H W Hx eq_refl) as (y1 & E1 & S1).
    { intros _ F. apply Nat.eq_mul_1 in F. destruct F as [F _].
      apply Nat.eq_mul_1 in F. lia. }
    { exact Hpi. }
    rewrite E1. cbn [bind].
    destruct (conv_axis_1x1 H 1 ltac:(lia) ltac:(lia)) as [A1 O1].
    destruct (conv_axis_1x1 W 1 ltac:(lia) ltac:(lia)) as [A2 O2].
    destruct (Conv2d_forward_shape nChannels nOutChannels 1 1 0
                (child "conv1" theta [] KConv Weight) (F_relu y1) N H W _ _
                S1 A1 A2 O1 O2 Hpi Hpo) as (y2 & E2 & S2).
    rewrite E2. cbn [bind].
    change (Z.to_nat 1) with 1%nat in S2. rewrite !Nat.div_1_r in S2.
    replace (H - 1 + 1)%nat with H in S2 by lia.
    replace (W - 1 + 1)%nat with W in S2 by lia.
    unfold avg_pool2d. rewrite S2.
    destruct (Nat.leb_spec 2 H); [|lia]. destruct (Nat.leb_spec 2 W); [|lia].
    cbn [Nat.ltb Nat.leb andb]. eexists. split; [reflexivity|].
    cbn [shape]. rewrite !half_window by assumption. reflexivity.
  - intros Hs.
    destruct (BatchNorm2d_forward _ tr x) as [y1|e] eqn:E1;
      [|exists e; reflexivity].
    cbn [bind].
    apply BatchNorm2d_forward_inv in E1.
    destruct E1 as (N' & H' & W' & Sx & S1 & Hpi).
    cbn [nn_BatchNorm2d num_features] in Sx, S1, Hpi.
    rewrite Hx in Sx. inversion Sx; subst N' H' W'. clear Sx.
    match goal with
    | |- context [Conv2d_forward ?c ?a] =>
        destruct (Conv2d_forward c a) as [y2|e] eqn:E2
    end; [|exists e; reflexivity].
    cbn [bind]. unfold Conv2d_forward in E2.
    apply (conv2d_inv _ _ _ _ _ _ _ _ N nChannels H W) in E2;
      [|cbn [F_relu tmap shape]; exact S1].
    destruct E2 as (Co & kH & kW & Sw & _ & _ & _ & Hpo & _ & _ & S2).
    cbn [conv_weight shape conv_stride conv_padding conv_dilation fst snd pair2]
      in Sw, S2.
    inversion Sw; subst Co kH kW. clear Sw.
    change (Z.to_nat 1) with 1%nat in S2. change (Z.to_nat 0) with 0%nat in S2.
    unfold conv_out in S2. rewrite !Nat.div_1_r in S2.
    unfold avg_pool2d. rewrite S2.
    match goal with
    | |- context [if ?c then _ else _] => destruct c eqn:Ec
    end; [|eexists; reflexivity].
    exfalso. apply Hs.
    apply andb_prop in Ec. destruct Ec as [Ec EW].
    apply andb_prop in Ec. destruct Ec as [_ EH].
    apply Nat.leb_le in EH, EW. lia.
Qed.

Lemma Transition_forward_halves_witness :
  exists self,
    Transition_init 1 2 (flat_store 1) = Ok self /\
    ((0 < 1)%nat /\ (0 < 2)%nat /\ (2 <= 4)%nat /\ (2 <= 6)%nat ->
     exists y, Transition_forward self true (full [3; 1; 4; 6]%nat 0) = Ok y /\
               shape y = [3; 2; 4 / 2; 6 / 2]%nat) /\
    (~ ((0 < 1)%nat /\ (0 < 2)%nat /\ (2 <= 4)%nat /\ (2 <= 6)%nat) ->
     exists e, Transition_forward self true (full [3; 1; 4; 6]%nat 0) = Fail e).
Proof.
  apply (Transition_forward_halves 1 2 (flat_store 1) true
           (full [3; 1; 4; 6]%nat 0) 3 4 6).
  reflexivity.
Defined.

(** ** MDC with a mask *)

Lemma MDC_init_2 (n_in n_out : nat) (theta : ParamStore) :
  MDC_init true n_in n_out 2 theta
  = Ok (mkMDC 2 (Some (mask_tensor mask_rows_2 n_in n_out))
          (mkConv2d n_in n_out (5, 5)%nat (pair2 1) (pair2 2) (pair2 2) 1
             (mkT [n_out; n_in; 5; 5]%nat (child "conv" theta [] KConv Weight))
             None)).
Proof.
  unfold MDC_init. cbn [Z.eqb Pos.eqb bind].
  rewrite nn_Conv2d_groups1 by (simpl; lia). reflexivity.
Qed.

Lemma MDC_init_3 (n_in n_out : nat) (theta : ParamStore) :
  MDC_init true n_in n_out 3 theta
  = Ok (mkMDC 3 (Some (mask_tensor mask_rows_3 n_in n_out))
          (mkConv2d n_in n_out (7, 7)%nat (pair2 1) (pair2 3) (pair2 3) 1
             (mkT [n_out; n_in; 7; 7]%nat (child "conv" theta [] KConv Weight))
             None)).
Proof.
  unfold MDC_init. cbn [Z.eqb Pos.eqb bind].
  rewrite nn_Conv2d_groups1 by (simpl; lia). reflexivity.
Qed.

Lemma tmul_same_shape (a b : Tensor) :
  shape a = shape b ->
  tmul a b = Ok (mkT (shape a)
                   (fun idx => val a (bidx (shape a) idx)
                               * val b (bidx (shape b) idx))).
Proof.
  intros E. unfold tmul, binop. rewrite <- E, broadcast_same. reflexivity.
Qed.

Lemma conv_axis_same (H p : nat) :
  (1 <= H)%nat ->
  conv_axis_ok H (2 * p + 1) 1 (Z.of_nat p) 1 = true /\
  conv_out H (2 * p + 1) (Z.to_nat 1) (Z.to_nat (Z.of_nat p)) (Z.to_nat 1) = H.
Proof.
  intros HH. unfold conv_axis_ok, conv_out. rewrite Nat2Z.id.
  change (Z.to_nat 1) with 1%nat. rewrite Nat.div_1_r. split; [|lia].
  destruct (Z.leb_spec 0 (Z.of_nat p)); [|lia].
  destruct (Nat.ltb_spec 0 (2 * p + 1)); [|lia].
  cbn [Z.ltb Z.compare andb]. apply Nat.leb_le. lia.
Qed.

(** The masked convolution of [MDC.forward], for a kernel of side
    [2 * p + 1] at padding [p]. *)
Lemma masked_conv_shape (n_in n_out p : nat) (w m x : Tensor) (N H W : nat) :
  shape w = [n_out; n_in; (2 * p + 1)%nat; (2 * p + 1)%nat] ->
  shape m = shape w ->
  shape x = [N; n_in; H; W] -> (1 <= H)%nat -> (1 <= W)%nat ->
  (0 < n_in)%nat -> (0 < n_out)%nat ->
  exists y,
    (w' <- tmul w m ;;
     conv2d x w' None (pair2 1) (pair2 (Z.of_nat p)) (pair2 1) 1) = Ok y /\
    shape y = [N; n_out; H; W].
Proof.
  intros Sw Sm Hx HH HW Hpi Hpo.
  rewrite tmul_same_shape by (symmetry; exact Sm). cbn [bind].
  destruct (conv_axis_same H p HH) as [A1 O1].
  destruct (conv_axis_same W p HW) as [A2 O2].
  match goal with
  | |- context [conv2d x ?w' None ?s ?pd ?dl 1] =>
      destruct (conv2d_shape x w' s pd dl 1 N n_in H W n_out
                  (2 * p + 1) (2 * p + 1) Hx) as (y & E & S)
  end.
  - cbn [shape]. rewrite Nat.div_1_r. exact Sw.
  - lia.
  - apply Nat.mod_1_r.
  - apply Nat.mod_1_r.
  - exact A1.
  - exact A2.
  - exact Hpi.
  - exact Hpo.
  - exists y. split; [exact E|]. rewrite S.
    cbn [fst snd pair2]. rewrite O1, O2. reflexivity.
Qed.

Lemma mask_tensor_shape (rows : list (list R)) (n_in n_out : nat) :
  (0 < n_in)%nat -> (0 < n_out)%nat ->
  shape (mask_tensor rows n_in n_out)
  = [n_out; n_in; List.length rows; List.length (hd [] rows)].
Proof.
  intros Hi Ho. unfold mask_tensor. cbn [shape].
  destruct (Nat.eqb_spec n_out 0); [lia|].
  destruct (Nat.eqb_spec n_in 0); [lia|]. reflexivity.
Qed.

(** X13. [MDC] with dilation 2 or 3 moves its mask to the GPU while it is
    built: without a CUDA device the constructor raises.  With one (module
    and input on that device), and at least one input and one output
    channel, it convolves with a 5x5 or 7x7 kernel at padding 2 or 3, and
    its forward pass returns a tensor of the spatial size of its input, with
    [n_out] channels. *)
Theorem MDC_forward_keeps_size (n_in n_out : nat) (d : Z) (theta : ParamStore)
  (x : Tensor) (N H W : nat) :
  d = 2%Z \/ d = 3%Z ->
  shape x = [N; n_in; H; W] -> (1 <= H)%nat -> (1 <= W)%nat ->
  (0 < n_in)%nat -> (0 < n_out)%nat ->
  MDC_init false n_in n_out d theta = Fail CudaUnavailable /\
  exists self y,
    MDC_init true n_in n_out d theta = Ok self /\
    kernel_size (mdc_conv self) = (Z.to_nat (2 * d + 1), Z.to_nat (2 * d + 1)) /\
    MDC_forward self x = Ok y /\
    shape y = [N; n_out; H; W].
Proof.
  intros Hd Hx HH HW Hpi Hpo.
  destruct Hd as [ -> | -> ]; (split; [reflexivity|]);
    [rewrite MDC_init_2|rewrite MDC_init_3].
  - destruct (masked_conv_shape n_in n_out 2
                (mkT [n_out; n_in; 5; 5]%nat (child "conv" theta [] KConv Weight))
                (mask_tensor mask_rows_2 n_in n_out) x N H W
                eq_refl (mask_tensor_shape _ _ _ Hpi Hpo) Hx HH HW Hpi Hpo)
      as (y & E & S).
    eexists. exists y. split; [reflexivity|]. split; [reflexivity|].
    split; [exact E|exact S].
  - destruct (masked_conv_shape n_in n_out 3
                (mkT [n_out; n_in; 7; 7]%nat (child "conv" theta [] KConv Weight))
                (mask_tensor mask_rows_3 n_in n_out) x N H W
                eq_refl (mask_tensor_shape _ _ _ Hpi Hpo) Hx HH HW Hpi Hpo)
      as (y & E & S).
    eexists. exists y. split; [reflexivity|]. split; [reflexivity|].
    split; [exact E|exact S].
Qed.

Lemma MDC_forward_keeps_size_witness :
  MDC_init false 1 2 3 (flat_store 1) = Fail CudaUnavailable /\
  exists self y,
    MDC_init true 1 2 3 (flat_store 1) = Ok self /\
    kernel_size (mdc_conv self) = (Z.to_nat (2 * 3 + 1), Z.to_nat (2 * 3 + 1)) /\
    MDC_forward self (full [1; 1; 4; 6]%nat 1) = Ok y /\
    shape y = [1; 2; 4; 6]%nat.
Proof.
  apply (MDC_forward_keeps_size 1 2 3 (flat_store 1) (full [1; 1; 4; 6]%nat 1)
           1 4 6).
  - right. reflexivity.
  - reflexivity.
  - lia.
  - lia.
  - lia.
  - lia.
Defined.

Lemma bidx_aligned_length (sh idx : list nat) :
  (List.length (bidx_aligned sh idx) <= List.length sh)%nat.
Proof.
  revert idx. induction sh as [|d sh IH]; intros [|i idx]; cbn; try lia.
  specialize (IH idx). lia.
Qed.

(** Where the mask is zero the weight does not count.  The index at which
    the mask is read is the one at which the weight is read when the two
    have one shape, and is too short to reach a mask entry otherwise. *)
Lemma masked_weight_ext (rows : list (list R)) (n_in n_out : nat)
  (w w' : list nat -> R) (i k : list nat) :
  (forall co ci a b,
     val (mask_tensor rows n_in n_out) [co; ci; a; b] <> 0 ->
     w [co; ci; a; b] = w' [co; ci; a; b]) ->
  i = k \/ (List.length k < 4)%nat ->
  w i * val (mask_tensor rows n_in n_out) k
  = w' i * val (mask_tensor rows n_in n_out) k.
Proof.
  intros Hw Hk.
  destruct (Req_dec (val (mask_tensor rows n_in n_out) k) 0) as [E|E];
    [rewrite E; ring|].
  f_equal.
  destruct k as [|co [|ci [|a [|b [|? ?]]]]];
    try (exfalso; apply E; reflexivity).
  destruct Hk as [ -> |Hk]; [|cbn in Hk; lia].
  apply Hw, E.
Qed.

Lemma masked_weights_agree (rows : list (list R)) (n_in n_out kH kW : nat)
  (w w' : list nat -> R) :
  (forall co ci a b,
     val (mask_tensor rows n_in n_out) [co; ci; a; b] <> 0 ->
     w [co; ci; a; b] = w' [co; ci; a; b]) ->
  kH = List.length rows -> kW = List.length (hd [] rows) ->
  tmul (mkT [n_out; n_in; kH; kW] w) (mask_tensor rows n_in n_out)
  = tmul (mkT [n_out; n_in; kH; kW] w') (mask_tensor rows n_in n_out).
Proof.
  intros Hw -> ->. unfold tmul, binop. cbn [shape val].
  destruct (broadcast _ _) as [sh|]; [|reflexivity].
  f_equal. f_equal. apply functional_extensionality. intros idx.
  apply masked_weight_ext; [exact Hw|].
  assert (Hs : shape (mask_tensor rows n_in n_out)
               = if (n_out =? 0)%nat then [O]
                 else if (n_in =? 0)%nat then [n_out; O]
                 else [n_out; n_in; List.length rows;
                       List.length (hd [] rows)]) by reflexivity.
  rewrite Hs. clear Hs.
  destruct (n_out =? 0)%nat.
  - right. unfold bidx.
    eapply Nat.le_lt_trans; [apply bidx_aligned_length|]. cbn. lia.
  - destruct (n_in =? 0)%nat.
    + right. unfold bidx.
      eapply Nat.le_lt_trans; [apply bidx_aligned_length|]. cbn. lia.
    + left. reflexivity.
Qed.

(** X14. The mask of an [MDC] with dilation 2 or 3 switches weights off:
    two such modules, built from two parameter states that agree on every
    weight entry where the mask is not zero, hold the same mask and give
    the same outcome of the forward pass on every input, whatever the other
    weight entries hold. *)
Theorem MDC_forward_reads_unmasked_weights (cuda : bool) (n_in n_out : nat)
  (d : Z) (theta theta' : ParamStore) (self self' : MDC) :
  d = 2%Z \/ d = 3%Z ->
  MDC_init cuda n_in n_out d theta = Ok self ->
  MDC_init cuda n_in n_out d theta' = Ok self' ->
  exists m,
    mdc_m self = Some m /\ mdc_m self' = Some m /\
    ((forall co ci a b,
        val m [co; ci; a; b] <> 0 ->
        val (conv_weight (mdc_conv self)) [co; ci; a; b]
        = val (conv_weight (mdc_conv self')) [co; ci; a; b]) ->
     forall x, MDC_forward self x = MDC_forward self' x).
Proof.
  intros Hd E E'.
  destruct cuda; [|destruct Hd; subst d; discriminate E].
  destruct Hd as [ -> | -> ];
    [rewrite MDC_init_2 in E, E'|rewrite MDC_init_3 in E, E'];
    inversion E; subst self; inversion E'; subst self'; clear E E';
    eexists; (split; [reflexivity|]); (split; [reflexivity|]);
    cbn [mdc_conv conv_weight val]; intros Hw x;
    unfold MDC_forward; cbn [mdc_dilation mdc_m mdc_conv conv_weight];
    try change (1 <? 2)%Z with true; try change (1 <? 3)%Z with true;
    cbv iota;
    [rewrite (masked_weights_agree _ _ _ 5 5 _ _ Hw eq_refl eq_refl)
    |rewrite (masked_weights_agree _ _ _ 7 7 _ _ Hw eq_refl eq_refl)];
    reflexivity.
Qed.

Lemma MDC_forward_reads_unmasked_weights_witness :
  exists self self',
    MDC_init true 1 1 2 (flat_store 1) = Ok self /\
    MDC_init true 1 1 2 (flat_store_but 1 5) = Ok self' /\
    val (conv_weight (mdc_conv self)) [0; 0; 0; 1]%nat = 1 /\
    val (conv_weight (mdc_conv self')) [0; 0; 0; 1]%nat = 5 /\
    forall x, MDC_forward self x = MDC_forward self' x.
Proof.
  eexists. eexists. split; [reflexivity|]. split; [reflexivity|].
  split; [reflexivity|]. split; [reflexivity|].
  destruct (MDC_forward_reads_unmasked_weights true 1 1 2 (flat_store 1)
              (flat_store_but 1 5) _ _
              (or_introl eq_refl) eq_refl eq_refl)
    as (m & M & _ & K).
  apply K. cbn [mdc_m] in M. inversion M; subst m.
  intros co ci a b Hm.
  destruct a as [|a]; [|reflexivity].
  destruct b as [|[|b]]; [reflexivity| |reflexivity].
  exfalso. apply Hm. reflexivity.
Defined.

(** X15. A dilation of 4 or more builds an [MDC] without the attribute
    [m]: construction succeeds (with or without a CUDA device), and every call of [forward] raises
    [AttributeError]. *)
Theorem MDC_large_dilation_has_no_mask (cuda : bool) (n_in n_out : nat) (d : Z)
  (theta : ParamStore) :
  (4 <= d)%Z ->
  exists self,
    MDC_init cuda n_in n_out d theta = Ok self /\
    mdc_m self = None /\
    forall x, MDC_forward self x = Fail PyAttributeError.
Proof.
  intros Hd. unfold MDC_init.
  rewrite nn_Conv2d_groups1 by (unfold pair2; cbn [fst snd]; lia).
  destruct (Z.eqb_spec d 2) as [E|_]; [lia|].
  destruct (Z.eqb_spec d 3) as [E|_]; [lia|]. cbn [bind].
  eexists. split; [reflexivity|]. split; [reflexivity|].
  intros x. unfold MDC_forward. cbn [mdc_dilation mdc_m].
  destruct (Z.ltb_spec 1 d); [reflexivity|lia].
Qed.

Lemma MDC_large_dilation_has_no_mask_witness :
  exists self,
    MDC_init false 1 1 4 (flat_store 1) = Ok self /\
    mdc_m self = None /\
    forall x, MDC_forward self x = Fail PyAttributeError.
Proof.
  apply (MDC_large_dilation_has_no_mask false 1 1 4 (flat_store 1)). lia.
Defined.

(** ** ESL and CL *)




(** ** wn2d: the normalised weight *)

(** X18. On a weight of rank 4 with a non-zero entry, [wn2d] returns a
    tensor of the same shape whose norm over all entries is 1, and
    normalising that tensor again returns the same entries. *)
Theorem wn2d_unit_norm (w : Tensor) (a b c d : nat) :
  shape w = [a; b; c; d] -> nonzero w ->
  exists y y',
    wn2d w = Ok y /\
    shape y = shape w /\
    (forall idx, in_range (shape w) idx ->
                 val y idx = val w idx / val (torch_norm w) []) /\
    val (torch_norm y) [] = 1 /\
    wn2d y = Ok y' /\
    shape y' = shape w /\
    (forall idx, in_range (shape w) idx -> val y' idx = val y idx).
Proof.
  intros Hs Hw.
  pose proof (norm_pos w Hw) as Hn.
  set (n := val (torch_norm w) []) in *.
  set (y := mkT (shape w) (fun idx => val w (bidx (shape w) idx) / n)).
  assert (Ey : wn2d w = Ok y).
  { rewrite (wn2d_rank4 w a b c d Hs). fold n.
    rewrite (Rzerob_false n) by lra. rewrite tany_false. reflexivity. }
  assert (Hy : forall idx, in_range (shape w) idx -> val y idx = val w idx / n).
  { intros idx Hr. cbn [y val]. rewrite (bidx_in_range _ _ Hr). reflexivity. }
  assert (En : val (torch_norm y) [] = 1).
  { cbn [torch_norm val shape y].
    rewrite (tsum_ext (shape w) _
               (fun idx => (/ (n * n)) * (val w idx * val w idx))).
    2:{ intros idx Hr. rewrite (bidx_in_range _ _ Hr). field. lra. }
    rewrite tsum_scale.
    assert (Esq : tsum (shape w) (fun idx => val w idx * val w idx) = n * n).
    { unfold n. cbn [torch_norm val]. rewrite sqrt_sqrt; [reflexivity|].
      apply tsum_nonneg. intros idx. nra. }
    rewrite Esq. rewrite Rinv_l by nra. apply sqrt_1. }
  set (y' := mkT (shape y) (fun idx => val y (bidx (shape y) idx)
                                       / val (torch_norm y) [])).
  assert (Ey' : wn2d y = Ok y').
  { rewrite (wn2d_rank4 y a b c d Hs).
    rewrite (Rzerob_false (val (torch_norm y) [])) by (rewrite En; lra).
    rewrite tany_false. reflexivity. }
  exists y, y'. split; [exact Ey|]. split; [reflexivity|].
  split; [exact Hy|]. split; [exact En|]. split; [exact Ey'|].
  split; [reflexivity|].
  intros idx Hr. unfold y'. cbn [val]. rewrite En.
  change (shape y) with (shape w). rewrite (bidx_in_range _ _ Hr).
  field.
Qed.

Lemma wn2d_unit_norm_witness :
  exists y y',
    wn2d (full [1; 1; 1; 1]%nat 3) = Ok y /\
    shape y = shape (full [1; 1; 1; 1]%nat 3) /\
    (forall idx, in_range (shape (full [1; 1; 1; 1]%nat 3)) idx ->
                 val y idx
                 = val (full [1; 1; 1; 1]%nat 3) idx
                   / val (torch_norm (full [1; 1; 1; 1]%nat 3)) []) /\
    val (torch_norm y) [] = 1 /\
    wn2d y = Ok y' /\
    shape y' = shape (full [1; 1; 1; 1]%nat 3) /\
    (forall idx, in_range (shape (full [1; 1; 1; 1]%nat 3)) idx ->
                 val y' idx = val y idx).
Proof.
  apply (wn2d_unit_norm (full [1; 1; 1; 1]%nat 3) 1 1 1 1).
  - reflexivity.
  - apply full_nonzero. lra.
Defined.

(** ** More on what a returned call tells *)

Lemma broadcast4_inv (a b c d a' b' c' d' : nat) (r : list nat) :
  broadcast [a; b; c; d] [a'; b'; c'; d'] = Some r ->
  r = [broadcast_dim a a'; broadcast_dim b b'; broadcast_dim c c'; broadcast_dim d d'] /\
  (a = a' \/ a = 1 \/ a' = 1)%nat /\ (b = b' \/ b = 1 \/ b' = 1)%nat /\
  (c = c' \/ c = 1 \/ c' = 1)%nat /\ (d = d' \/ d = 1 \/ d' = 1)%nat.
Proof.
  unfold broadcast, broadcast_dim. cbn [rev app broadcast_rev].
  destruct (Nat.eqb_spec a a'), (Nat.eqb_spec a 1), (Nat.eqb_spec a' 1),
           (Nat.eqb_spec b b'), (Nat.eqb_spec b 1), (Nat.eqb_spec b' 1),
           (Nat.eqb_spec c c'), (Nat.eqb_spec c 1), (Nat.eqb_spec c' 1),
           (Nat.eqb_spec d d'), (Nat.eqb_spec d 1), (Nat.eqb_spec d' 1);
    cbn [option_map rev app]; intros E; try discriminate;
    inversion E; subst; (split; [reflexivity|]); repeat split; auto.
Qed.

Lemma binop_inv4 (f : R -> R -> R) (x y r : Tensor) (a b c d a' b' c' d' : nat) :
  binop f x y = Ok r ->
  shape x = [a; b; c; d] -> shape y = [a'; b'; c'; d'] ->
  shape r = [broadcast_dim a a'; broadcast_dim b b'; broadcast_dim c c'; broadcast_dim d d'] /\
  (b = b' \/ b = 1 \/ b' = 1)%nat /\
  (c = c' \/ c = 1 \/ c' = 1)%nat /\ (d = d' \/ d = 1 \/ d' = 1)%nat.
Proof.
  unfold binop. intros E Sx Sy. rewrite Sx, Sy in E.
  destruct (broadcast [a; b; c; d] [a'; b'; c'; d']) as [sh|] eqn:Eb;
    [|discriminate].
  inversion E; subst r. cbn [shape].
  destruct (broadcast4_inv _ _ _ _ _ _ _ _ _ Eb) as (-> & _ & H1 & H2 & H3).
  repeat split; assumption.
Qed.

Lemma F_dropout_inv (x y : Tensor) (p : Q) (tr : Mode)
  (keep : list nat -> bool) :
  F_dropout x p tr keep = Ok y -> shape y = shape x.
Proof.
  unfold F_dropout. destruct (_ || _); [discriminate|].
  destruct tr; intros E; inversion E; reflexivity.
Qed.

Lemma conv2d_batched_fail (input weight : Tensor) (bias : option Tensor)
  (stride padding dilation : Z * Z) (groups : nat) (e : failure) :
  conv2d_batched input weight bias stride padding dilation groups = Fail e ->
  e = TorchShapeError.
Proof.
  unfold conv2d_batched.
  destruct (shape input) as [|N [|Cin [|H [|W [|? ?]]]]];
    try (intros E; inversion E; reflexivity).
  destruct (shape weight) as [|Cout [|Cg [|kH [|kW [|? ?]]]]];
    try (intros E; inversion E; reflexivity).
  match goal with |- (if ?c then _ else _) = _ -> _ => destruct c end;
    intros E; inversion E; reflexivity.
Qed.

Lemma conv2d_fail (input weight : Tensor) (bias : option Tensor)
  (stride padding dilation : Z * Z) (groups : nat) (e : failure) :
  conv2d input weight bias stride padding dilation groups = Fail e ->
  e = TorchShapeError.
Proof.
  unfold conv2d.
  destruct (shape input) as [|N [|Cin [|H [|W [|? ?]]]]];
    try apply conv2d_batched_fail.
  destruct (conv2d_batched _ _ _ _ _ _ _) as [y|e'] eqn:E; cbn [bind];
    [discriminate|].
  intros E'. inversion E'; subst e'. eapply conv2d_batched_fail, E.
Qed.

(** The channels a convolution built for [n_in] inputs accepts and
    returns, on a batch and on one unbatched image. *)
Lemma Conv2d_forward_inv (n_in n_out : nat) (ks st pd dl : Z * Z) (g : nat)
  (w : list nat -> R) (c : Conv2d) (x y : Tensor) :
  nn_Conv2d n_in n_out ks st pd dl g w None = Ok c ->
  Conv2d_forward c x = Ok y ->
  (exists N H W H' W',
     shape x = [N; n_in; H; W] /\ shape y = [N; n_out; H'; W'] /\
     (0 < n_in)%nat /\ (0 < n_out)%nat) \/
  (exists H W H' W',
     shape x = [n_in; H; W] /\ shape y = [n_out; H'; W']).
Proof.
  intros Hc Hy. apply nn_Conv2d_inv in Hc. destruct Hc as (-> & Hg & Hi & Ho).
  unfold Conv2d_forward in Hy.
  cbn [conv_weight conv_bias conv_stride conv_padding conv_dilation conv_groups]
    in Hy.
  assert (Hdiv : forall Cin, (Cin mod g = 0)%nat ->
                   (n_in / g = Cin / g)%nat -> Cin = n_in).
  { intros Cin Hm Hq.
    rewrite (Nat.div_mod_eq Cin g), (Nat.div_mod_eq n_in g). lia. }
  destruct (conv2d_rank _ _ _ _ _ _ _ _ Hy)
    as [(N & Cin & H & W & Sx)|(Cin & H & W & Sx)].
  - left. destruct (conv2d_inv _ _ _ _ _ _ _ _ _ _ _ _ Sx Hy)
      as (Cout & kH & kW & Sw & _ & Hm & Hpi & Hpo & _ & _ & Sy).
    cbn [shape] in Sw. inversion Sw; subst Cout kH kW.
    assert (Cin = n_in) by (apply Hdiv; assumption). subst Cin.
    eauto 12.
  - right. unfold conv2d in Hy. rewrite Sx in Hy.
    apply bind_Ok in Hy. destruct Hy as (z & Ez & Hy). inversion Hy; subst y.
    apply conv2d_batched_inv in Ez.
    destruct Ez as (N' & C' & H' & W' & Cout & kH & kW & Sx' & Sw & _ & Hm & _
                    & _ & _ & _ & Sz).
    unfold unsqueeze0 in Sx'. cbn [shape] in Sx', Sw. rewrite Sx in Sx'.
    inversion Sx'; subst N' C' H' W'. inversion Sw; subst Cout kH kW.
    assert (Cin = n_in) by (apply Hdiv; assumption). subst Cin.
    unfold squeeze0. cbn [shape]. rewrite Sz. cbn [tl]. eauto 10.
Qed.

(** ** seq: batch normalisation after the convolution *)



(** ** BasicBlock: sizes *)

(** X20. A [BasicBlock] with at least one input and one output channel
    and stride [s >= 1] (stride 1 when the channel counts agree) maps an
    input of shape (N, in_planes, H, W) to
    (N, out_planes, (H-1)//s + 1, (W-1)//s + 1), for a dropout rate of at
    most 1; in training mode the batch must leave batch normalisation more
    than one value per channel. *)
Theorem BasicBlock_forward_output_shape (in_planes out_planes : nat)
  (stride : Z) (dropRate : Q) (theta : ParamStore) (tr : Mode)
  (keep : list nat -> bool) (x : Tensor) (N H W : nat) :
  (1 <= stride)%Z -> (in_planes = out_planes -> stride = 1%Z) ->
  (dropRate <= 1)%Q ->
  shape x = [N; in_planes; H; W] -> (1 <= H)%nat -> (1 <= W)%nat ->
  (tr = true ->
   (N * ((H - 1) / Z.to_nat stride + 1) * ((W - 1) / Z.to_nat stride + 1))%nat
   <> 1%nat) ->
  (0 < in_planes)%nat -> (0 < out_planes)%nat ->
  exists self y,
    BasicBlock_init in_planes out_planes stride dropRate theta = Ok self /\
    BasicBlock_forward self tr keep x = Ok y /\
    shape y = [N; out_planes; ((H - 1) / Z.to_nat stride + 1)%nat;
                              ((W - 1) / Z.to_nat stride + 1)%nat].
Proof.
  intros Hs Heq Hdr Hx HH HW Htr Hpi Hpo.
  assert (Hq : Qlt_bool 1 dropRate = false).
  { unfold Qlt_bool. apply Bool.negb_false_iff, Qle_bool_iff, Hdr. }
  rewrite BasicBlock_init_eq. eexists.
  destruct (BasicBlock_forward_shape in_planes out_planes stride dropRate theta
              _ tr keep x N H W (BasicBlock_init_eq _ _ _ _ _)
              Hs Heq Hq Hx HH HW Htr Hpi Hpo) as (y & Ey & Sy).
  exists y. split; [reflexivity|]. split; [exact Ey|exact Sy].
Qed.

Lemma BasicBlock_forward_output_shape_witness :
  exists self y,
    BasicBlock_init 16 32 2 (3 # 10)%Q (flat_store 1) = Ok self /\
    BasicBlock_forward self true keep_all (full [2; 16; 8; 8]%nat 1) = Ok y /\
    shape y = [2; 32; (8 - 1) / Z.to_nat 2 + 1; (8 - 1) / Z.to_nat 2 + 1]%nat.
Proof.
  apply (BasicBlock_forward_output_shape 16 32 2 (3 # 10)%Q (flat_store 1)
           true keep_all (full [2; 16; 8; 8]%nat 1) 2 8 8).
  - lia.
  - intros E. discriminate E.
  - unfold Qle. simpl. lia.
  - reflexivity.
  - lia.
  - lia.
  - intros _. vm_compute. discriminate.
  - lia.
  - lia.
Defined.

Lemma div_lt_self (a s : nat) : (2 <= s)%nat -> (s <= a)%nat ->
  (1 <= a / s)%nat /\ (a / s < a)%nat.
Proof.
  intros Hs Ha. split.
  - apply Nat.div_le_lower_bound; lia.
  - apply Nat.div_lt; lia.
Qed.

(** X21. With equal channel counts the shortcut is the input itself, so a
    stride of 2 or more cannot work: on an input with a side longer than
    the stride the branch output is smaller than the input and the final
    addition fails.  The constructor accepts the configuration. *)
Theorem BasicBlock_identity_shortcut_needs_stride_1 (planes : nat) (stride : Z)
  (dropRate : Q) (theta : ParamStore) (tr : Mode) (keep : list nat -> bool)
  (x : Tensor) (N H W : nat) :
  (2 <= stride)%Z ->
  shape x = [N; planes; H; W] ->
  (Z.to_nat stride < H)%nat \/ (Z.to_nat stride < W)%nat ->
  exists self,
    BasicBlock_init planes planes stride dropRate theta = Ok self /\
    convShortcut self = None /\
    exists e, BasicBlock_forward self tr keep x = Fail e.
Proof.
  intros Hs Hx Hbig.
  rewrite BasicBlock_init_eq. rewrite Nat.eqb_refl. cbn [negb].
  eexists. split; [reflexivity|]. split; [reflexivity|].
  rewrite BasicBlock_forward_identity by reflexivity.
  cbn [bn1].
  destruct (BatchNorm2d_forward _ tr x) as [y|e] eqn:Ey;
    [|exists e; reflexivity].
  cbn [bind].
  apply BatchNorm2d_forward_inv in Ey.
  destruct Ey as (N0 & H0 & W0 & Sx & Sy & _).
  rewrite Hx in Sx. inversion Sx; subst N0 H0 W0. clear Sx.
  cbn [nn_BatchNorm2d num_features] in Sy.
  unfold BasicBlock_branch. cbn [conv1 bn2 droprate conv2].
  match goal with
  | |- context [Conv2d_forward ?c (F_relu y)] =>
      destruct (Conv2d_forward c (F_relu y)) as [o1|e] eqn:E1
  end; [|exists e; reflexivity].
  cbn [bind].
  unfold Conv2d_forward in E1.
  apply (conv2d_inv _ _ _ _ _ _ _ _ N planes H W) in E1;
    [|cbn [F_relu tmap shape]; exact Sy].
  destruct E1 as (Co & kH & kW & Sw & _ & _ & _ & _ & _ & _ & S1).
  cbn [conv_weight shape conv_stride conv_padding conv_dilation fst snd pair2]
    in Sw, S1.
  inversion Sw; subst Co kH kW. clear Sw.
  destruct (BatchNorm2d_forward _ tr o1) as [o2|e] eqn:E2;
    [|exists e; reflexivity].
  cbn [bind].
  apply BatchNorm2d_forward_inv in E2.
  destruct E2 as (Nb & Hb2 & Wb2 & So1 & So2 & _).
  rewrite S1 in So1. inversion So1; subst Nb Hb2 Wb2. clear So1.
  cbn [nn_BatchNorm2d num_features] in So2.
  match goal with
  | |- context [bind ?d _] =>
      match d with
      | (if _ then _ else _) => destruct d as [o3|e] eqn:E3
      end
  end; [|exists e; reflexivity].
  cbn [bind].
  assert (So3 : shape o3 = shape o2).
  { destruct (Qlt_bool 0 dropRate).
    - apply F_dropout_inv in E3. exact E3.
    - inversion E3. reflexivity. }
  match goal with
  | |- context [Conv2d_forward ?c o3] =>
      destruct (Conv2d_forward c o3) as [o4|e] eqn:E4
  end; [|exists e; reflexivity].
  cbn [bind].
  unfold Conv2d_forward in E4. rewrite So2 in So3.
  apply (conv2d_inv _ _ _ _ _ _ _ _ _ _ _ _ So3) in E4.
  destruct E4 as (Co & kH & kW & Sw & _ & _ & _ & _ & _ & _ & S4).
  cbn [conv_weight shape conv_stride conv_padding conv_dilation fst snd pair2]
    in Sw, S4.
  inversion Sw; subst Co kH kW. clear Sw.
  unfold conv_out in S4.
  change (Z.to_nat 1) with 1%nat in S4.
  set (s := Z.to_nat stride) in *.
  assert (Hs2 : (2 <= s)%nat) by (subst s; lia).
  destruct (tadd x o4) as [r|e] eqn:Er; [|exists e; reflexivity].
  exfalso.
  destruct (binop_inv4 _ _ _ _ _ _ _ _ _ _ _ _ Er Hx S4) as (_ & _ & HcH & HcW).
  rewrite !Nat.div_1_r in HcH, HcW.
  change (Pos.to_nat 1) with 1%nat in HcH, HcW.
  replace (H + 2 * 1 - 1 * (3 - 1) - 1)%nat with (H - 1)%nat in HcH by lia.
  replace (W + 2 * 1 - 1 * (3 - 1) - 1)%nat with (W - 1)%nat in HcW by lia.
  destruct Hbig as [Hb|Hb].
  - destruct (div_lt_self (H - 1) s Hs2 ltac:(lia)) as [D1 D2]. lia.
  - destruct (div_lt_self (W - 1) s Hs2 ltac:(lia)) as [D1 D2]. lia.
Qed.

Lemma BasicBlock_identity_shortcut_needs_stride_1_witness :
  exists self,
    BasicBlock_init 16 16 2 0%Q (flat_store 1) = Ok self /\
    convShortcut self = None /\
    exists e,
      BasicBlock_forward self false keep_all (full [1; 16; 8; 8]%nat 1)
      = Fail e.
Proof.
  apply (BasicBlock_identity_shortcut_needs_stride_1 16 2 0%Q (flat_store 1)
           false keep_all (full [1; 16; 8; 8]%nat 1) 1 8 8).
  - lia.
  - reflexivity.
  - left. simpl. lia.
Defined.

(** ** Layer: which branches a configuration calls *)

Lemma Layer_init_inv (n_in n_bottle n_out : nat) (o0 o1 o2 o3 : bool)
  (gates : list bool) (dilation : list (Z * Z)) (activation : list Activation)
  (kernel_size : list (Z * Z)) (groups : list nat) (preactivation : bool)
  (gstyle nstyle : string) (theta : ParamStore) (self : Layer) :
  Layer_init n_in n_bottle n_out [o0; o1; o2; o3] gates dilation activation
    kernel_size groups preactivation gstyle nstyle theta = Ok self ->
  let mk := Layer_make_op n_bottle n_out dilation activation kernel_size
              groups preactivation (nstyle =? "full")%string theta in
  gate self = gates /\ gate_style self = gstyle /\
  exists m0 m1 m2 m3,
    op self = [m0; m1; m2; m3] /\
    mk (0%nat, o0) = Ok m0 /\ mk (1%nat, o1) = Ok m1 /\
    mk (2%nat, o2) = Ok m2 /\ mk (3%nat, o3) = Ok m3.
Proof.
  unfold Layer_init. intros H.
  apply bind_Ok in H. destruct H as (io & _ & H).
  apply bind_Ok in H. destruct H as (ops' & Hops & H).
  inversion H; subst self; clear H. cbn [gate op].
  split; [reflexivity|]. split; [reflexivity|].
  cbn [List.length List.seq combine mapM] in Hops.
  apply bind_Ok in Hops. destruct Hops as (m0 & E0 & Hops).
  apply bind_Ok in Hops. destruct Hops as (r0 & Hops & Er0).
  apply bind_Ok in Hops. destruct Hops as (m1 & E1 & Hops).
  apply bind_Ok in Hops. destruct Hops as (r1 & Hops & Er1).
  apply bind_Ok in Hops. destruct Hops as (m2 & E2 & Hops).
  apply bind_Ok in Hops. destruct Hops as (r2 & Hops & Er2).
  apply bind_Ok in Hops. destruct Hops as (m3 & E3 & Hops).
  apply bind_Ok in Hops. destruct Hops as (r3 & Hops & Er3).
  inversion Hops; subst r3. inversion Er3; subst r2.
  inversion Er2; subst r1. inversion Er1; subst r0. inversion Er0; subst ops'.
  exists m0, m1, m2, m3. repeat split; assumption.
Qed.

(** Runs a chain of calls to its first failure. *)
Ltac run_to_failure :=
  repeat match goal with
         | |- exists e, Fail _ = Fail e => eexists; reflexivity
         | |- exists e, bind ?c _ = Fail e =>
             destruct c; cbn [bind OpModule_call is_seq flow_fst flow_snd]
         end.

Lemma Layer_stage0_missing (self : Layer) (g0 : bool) (gs : list bool)
  (m0 m1 m2 m3 : OpModule) (tr : Mode) (out : Tensor) :
  gate self = g0 :: gs -> op self = [m0; m1; m2; m3] ->
  negb (is_seq m0) || (g0 && negb (is_seq m2)) = true ->
  exists e, Layer_stage0 self tr out = Fail e.
Proof.
  intros Hg Hop Hm. unfold Layer_stage0. rewrite Hg, Hop.
  cbn [index nth_error bind].
  destruct m0, m2, g0; try discriminate Hm;
    destruct (gate_style self =? "mult")%string;
    cbn [index nth_error bind OpModule_call is_seq];
    run_to_failure.
Qed.

Lemma Layer_stage1_missing (self : Layer) (g0 g1 : bool) (gs : list bool)
  (m0 m1 m2 m3 : OpModule) (tr : Mode) (out : Flow) :
  gate self = g0 :: g1 :: gs -> op self = [m0; m1; m2; m3] ->
  (g1 && (negb (is_seq m1) || negb (is_seq m3)))
  || (negb g1 && is_seq m3 && negb (is_seq m1)) = true ->
  exists e, Layer_stage1 self tr out = Fail e.
Proof.
  intros Hg Hop Hm. unfold Layer_stage1. rewrite Hg, Hop.
  cbn [index nth_error bind].
  destruct m1, m3, g1; try discriminate Hm;
    destruct (gate_style self =? "mult")%string;
    cbn [index nth_error bind OpModule_call is_seq];
    run_to_failure.
Qed.

(** X22. A [Layer] whose configuration calls a branch that [ops] left
    out never returns from [forward]: [op[0]] is always called, a gate calls
    both branches it combines, and without the second gate an active
    [op[3]] is summed with [op[1]].  The constructor accepts every such
    configuration. *)
Theorem Layer_forward_missing_branch (n_in n_bottle n_out : nat)
  (o0 o1 o2 o3 g0 g1 : bool) (dilation : list (Z * Z))
  (activation : list Activation) (kernel_size : list (Z * Z))
  (groups : list nat) (preactivation : bool) (gstyle nstyle : string)
  (theta : ParamStore) (self : Layer) :
  Layer_init n_in n_bottle n_out [o0; o1; o2; o3] [g0; g1] dilation activation
    kernel_size groups preactivation gstyle nstyle theta = Ok self ->
  calls_missing_branch o0 o1 o2 o3 g0 g1 = true ->
  forall tr x, exists e, Layer_forward self tr x = Fail e.
Proof.
  intros Hinit Hmiss tr x.
  destruct (Layer_init_op4 _ _ _ _ _ _ _ _ _ _ _ _ _ _ _ _ _ Hinit)
    as (Hg & m0 & m1 & m2 & m3 & Hop & I0 & I1 & I2 & I3).
  unfold calls_missing_branch in Hmiss. rewrite <- I0, <- I1, <- I2, <- I3 in Hmiss.
  unfold Layer_forward.
  destruct (Sequential_forward tr (initial_op self) x) as [i|e];
    [|exists e; reflexivity].
  cbn [bind].
  destruct (negb (is_seq m0) || (g0 && negb (is_seq m2))) eqn:E0.
  - destruct (Layer_stage0_missing self g0 [g1] m0 m1 m2 m3 tr i Hg Hop E0)
      as [e He].
    rewrite He. exists e. reflexivity.
  - destruct (Layer_stage0 self tr i) as [out|e]; [|exists e; reflexivity].
    cbn [bind].
    apply (Layer_stage1_missing self g0 g1 [] m0 m1 m2 m3 tr out Hg Hop).
    rewrite <- Hmiss.
    destruct (is_seq m0), (is_seq m1), (is_seq m2), (is_seq m3), g0, g1;
      try discriminate E0; reflexivity.
Qed.

Lemma Layer_forward_missing_branch_witness :
  exists self,
    unit_layer [true; false; false; true] [false; false] "add_split" 1
    = Ok self /\
    forall tr x, exists e, Layer_forward self tr x = Fail e.
Proof.
  eexists. split; [reflexivity|].
  apply (Layer_forward_missing_branch 1 1 1 true false false true false false
           (repeat (1, 1)%Z 4) (repeat F_relu 4) (repeat (1, 1)%Z 4)
           (repeat 1%nat 4) true "add_split" "before" (flat_store 1));
    reflexivity.
Defined.

(** X24. The ungated configurations of [Layer] with two or three
    branches, for [i = initial_op(x)] and [a = op[0](i)]:
    [ops = [1,1,0,0]] gives [op[1](a)];
    [ops = [1,0,1,0]] gives [a + op[2](i)];
    [ops = [1,1,1,0]] gives [op[1](a) + op[2](i)];
    [ops = [1,1,0,1]] gives [op[1](a) + op[3](a)]: without [op[2]] the
    fourth branch reads the output of [op[0]]. *)
Theorem Layer_ungated_dispatch (n_in n_bottle n_out : nat)
  (dilation : list (Z * Z)) (activation : list Activation)
  (kernel_size : list (Z * Z)) (groups : list nat) (preactivation : bool)
  (gstyle nstyle : string) (theta : ParamStore) :
  (forall self,
     Layer_init n_in n_bottle n_out [true; true; false; false] [false; false]
       dilation activation kernel_size groups preactivation gstyle nstyle
       theta = Ok self ->
     exists s0 s1,
       op self = [OpSeq s0; OpSeq s1; OpBare; OpBare] /\
       forall tr x,
         Layer_forward self tr x
         = (i <- Sequential_forward tr (initial_op self) x ;;
            a <- seq_forward s0 tr i F_relu ;;
            seq_forward s1 tr a F_relu)) /\
  (forall self,
     Layer_init n_in n_bottle n_out [true; false; true; false] [false; false]
       dilation activation kernel_size groups preactivation gstyle nstyle
       theta = Ok self ->
     exists s0 s2,
       op self = [OpSeq s0; OpBare; OpSeq s2; OpBare] /\
       forall tr x,
         Layer_forward self tr x
         = (i <- Sequential_forward tr (initial_op self) x ;;
            a <- seq_forward s0 tr i F_relu ;;
            b <- seq_forward s2 tr i F_relu ;;
            tadd a b)) /\
  (forall self,
     Layer_init n_in n_bottle n_out [true; true; true; false] [false; false]
       dilation activation kernel_size groups preactivation gstyle nstyle
       theta = Ok self ->
     exists s0 s1 s2,
       op self = [OpSeq s0; OpSeq s1; OpSeq s2; OpBare] /\
       forall tr x,
         Layer_forward self tr x
         = (i <- Sequential_forward tr (initial_op self) x ;;
            a <- seq_forward s0 tr i F_relu ;;
            b <- seq_forward s2 tr i F_relu ;;
            c <- seq_forward s1 tr a F_relu ;;
            tadd c b)) /\
  (forall self,
     Layer_init n_in n_bottle n_out [true; true; false; true] [false; false]
       dilation activation kernel_size groups preactivation gstyle nstyle
       theta = Ok self ->
     exists s0 s1 s3,
       op self = [OpSeq s0; OpSeq s1; OpBare; OpSeq s3] /\
       forall tr x,
         Layer_forward self tr x
         = (i <- Sequential_forward tr (initial_op self) x ;;
            a <- seq_forward s0 tr i F_relu ;;
            c <- seq_forward s1 tr a F_relu ;;
            d <- seq_forward s3 tr a F_relu ;;
            tadd c d)).
Proof.
  split; [|split; [|split]]; intros self Hinit;
    destruct (Layer_init_op4 _ _ _ _ _ _ _ _ _ _ _ _ _ _ _ _ _ Hinit)
      as (Hg & m0 & m1 & m2 & m3 & Hop & I0 & I1 & I2 & I3);
    destruct (is_seq_true _ I0) as [s0 ->].
  - destruct (is_seq_true _ I1) as [s1 ->].
    rewrite (is_seq_false _ I2), (is_seq_false _ I3) in Hop.
    exists s0, s1. split; [exact Hop|].
    intros tr x. unfold Layer_forward, Layer_stage0, Layer_stage1.
    rewrite Hg, Hop. cbn [index nth_error bind is_seq OpModule_call].
    destruct (Sequential_forward tr (initial_op self) x) as [i|];
      cbn [bind]; [|reflexivity].
    destruct (seq_forward s0 tr i F_relu) as [a|]; cbn [bind]; reflexivity.
  - destruct (is_seq_true _ I2) as [s2 ->].
    rewrite (is_seq_false _ I1), (is_seq_false _ I3) in Hop.
    exists s0, s2. split; [exact Hop|].
    intros tr x. unfold Layer_forward, Layer_stage0, Layer_stage1.
    rewrite Hg, Hop. cbn [index nth_error bind is_seq OpModule_call].
    destruct (Sequential_forward tr (initial_op self) x) as [i|];
      cbn [bind]; [|reflexivity].
    destruct (seq_forward s0 tr i F_relu) as [a|]; cbn [bind]; [|reflexivity].
    destruct (seq_forward s2 tr i F_relu) as [b|]; cbn [bind]; reflexivity.
  - destruct (is_seq_true _ I1) as [s1 ->].
    destruct (is_seq_true _ I2) as [s2 ->].
    rewrite (is_seq_false _ I3) in Hop.
    exists s0, s1, s2. split; [exact Hop|].
    intros tr x. unfold Layer_forward, Layer_stage0, Layer_stage1.
    rewrite Hg, Hop. cbn [index nth_error bind is_seq OpModule_call].
    destruct (Sequential_forward tr (initial_op self) x) as [i|];
      cbn [bind]; [|reflexivity].
    destruct (seq_forward s0 tr i F_relu) as [a|]; cbn [bind]; [|reflexivity].
    destruct (seq_forward s2 tr i F_relu) as [b|]; cbn [bind]; reflexivity.
  - destruct (is_seq_true _ I1) as [s1 ->].
    destruct (is_seq_true _ I3) as [s3 ->].
    rewrite (is_seq_false _ I2) in Hop.
    exists s0, s1, s3. split; [exact Hop|].
    intros tr x. unfold Layer_forward, Layer_stage0, Layer_stage1.
    rewrite Hg, Hop. cbn [index nth_error bind is_seq OpModule_call].
    destruct (Sequential_forward tr (initial_op self) x) as [i|];
      cbn [bind]; [|reflexivity].
    destruct (seq_forward s0 tr i F_relu) as [a|]; cbn [bind]; reflexivity.
Qed.

Lemma Layer_ungated_dispatch_witness :
  exists self s0 s1 s3,
    unit_layer [true; true; false; true] [false; false] "add_split" 1
    = Ok self /\
    op self = [OpSeq s0; OpSeq s1; OpBare; OpSeq s3] /\
    forall tr x,
      Layer_forward self tr x
      = (i <- Sequential_forward tr (initial_op self) x ;;
         a <- seq_forward s0 tr i F_relu ;;
         c <- seq_forward s1 tr a F_relu ;;
         d <- seq_forward s3 tr a F_relu ;;
         tadd c d).
Proof.
  destruct (Layer_ungated_dispatch 1 1 1 (repeat (1, 1)%Z 4) (repeat F_relu 4)
              (repeat (1, 1)%Z 4) (repeat 1%nat 4) true "add_split" "before"
              (flat_store 1)) as (_ & _ & _ & K).
  eexists.
  destruct (K _ eq_refl) as (s0 & s1 & s3 & Hop & Hf).
  exists s0, s1, s3. split; [reflexivity|]. split; [exact Hop|exact Hf].
Defined.

(** *** No other source of [NotImplementedError] *)

Lemma bind_no_NIE {A B : Type} (c : result A) (k : A -> result B) :
  c <> Fail PyNotImplementedError ->
  (forall a, k a <> Fail PyNotImplementedError) ->
  bind c k <> Fail PyNotImplementedError.
Proof.
  intros Hc Hk. destruct c as [a|e]; cbn [bind]; [apply Hk|].
  intros E. apply Hc. inversion E. reflexivity.
Qed.

Lemma index_no_NIE {A : Type} (l : list A) (i : nat) :
  index l i <> Fail PyNotImplementedError.
Proof. unfold index. destruct (nth_error l i); discriminate. Qed.

Lemma binop_no_NIE (f : R -> R -> R) (a b : Tensor) :
  binop f a b <> Fail PyNotImplementedError.
Proof. unfold binop. destruct (broadcast _ _); discriminate. Qed.

Lemma slice_dim1_no_NIE (t : Tensor) (start stop : option Z) (step : nat) :
  slice_dim1 t start stop step <> Fail PyNotImplementedError.
Proof. unfold slice_dim1. destruct (shape t) as [|? [|? ?]]; discriminate. Qed.

Lemma split_gate_no_NIE (t : Tensor) :
  split_gate t <> Fail PyNotImplementedError.
Proof.
  unfold split_gate.
  apply bind_no_NIE; [apply slice_dim1_no_NIE|intros ev].
  apply bind_no_NIE; [apply slice_dim1_no_NIE|intros od].
  apply binop_no_NIE.
Qed.

Lemma BatchNorm2d_forward_no_NIE (m : BatchNorm2d) (tr : Mode) (x : Tensor) :
  BatchNorm2d_forward m tr x <> Fail PyNotImplementedError.
Proof.
  unfold BatchNorm2d_forward.
  destruct (shape x) as [|N [|C [|H [|W [|? ?]]]]]; try discriminate.
  destruct (tr && _); [discriminate|]. destruct (_ || _); discriminate.
Qed.

Lemma conv2d_no_NIE (input weight : Tensor) (bias : option Tensor)
  (stride padding dilation : Z * Z) (groups : nat) :
  conv2d input weight bias stride padding dilation groups
  <> Fail PyNotImplementedError.
Proof. intros E. apply conv2d_fail in E. discriminate. Qed.

Lemma wn2d_no_NIE (w : Tensor) : wn2d w <> Fail PyNotImplementedError.
Proof.
  unfold wn2d, view_1111, expand_as, tdiv.
  destruct (numel _ =? 1)%nat; cbn [bind]; [|discriminate].
  destruct (broadcast _ _); cbn [bind]; [|discriminate].
  destruct (list_eqb _ _); cbn [bind]; [|discriminate].
  destruct (broadcast _ _); [|discriminate].
  destruct (tany _ _); discriminate.
Qed.

Lemma Sequential_forward_no_NIE (tr : Mode) (ms : list SubModule) :
  forall x, Sequential_forward tr ms x <> Fail PyNotImplementedError.
Proof.
  induction ms as [|m ms IH]; intros x; cbn [Sequential_forward];
    [discriminate|].
  apply bind_no_NIE; [|exact IH].
  destruct m; cbn [SubModule_forward].
  - apply BatchNorm2d_forward_no_NIE.
  - discriminate.
  - apply conv2d_no_NIE.
  - unfold WNC2D_forward.
    apply bind_no_NIE; [apply wn2d_no_NIE|intros w; apply conv2d_no_NIE].
Qed.

Lemma seq_forward_no_NIE (self : seq) (tr : Mode) (x : Tensor)
  (f : Activation) :
  seq_forward self tr x f <> Fail PyNotImplementedError.
Proof.
  unfold seq_forward, seq_get_bn.
  destruct (seq_preactivation self), (seq_batchnorm self);
    repeat first
      [ apply conv2d_no_NIE
      | apply BatchNorm2d_forward_no_NIE
      | discriminate
      | apply bind_no_NIE; [|intros ?]
      | destruct (seq_bn self) ].
Qed.

Ltac no_NIE :=
  repeat first
    [ apply seq_forward_no_NIE
    | apply binop_no_NIE
    | apply split_gate_no_NIE
    | apply index_no_NIE
    | discriminate
    | apply bind_no_NIE; [|intros ?] ].

(** X23. Conversely, a [Layer] whose configuration calls only branches
    that [ops] built never raises [NotImplementedError]: the bare
    [nn.Module()] placeholders are the only source of that exception in the
    forward pass. *)
Theorem Layer_forward_NotImplementedError_needs_missing_branch
  (n_in n_bottle n_out : nat) (o0 o1 o2 o3 g0 g1 : bool)
  (dilation : list (Z * Z)) (activation : list Activation)
  (kernel_size : list (Z * Z)) (groups : list nat) (preactivation : bool)
  (gstyle nstyle : string) (theta : ParamStore) (self : Layer) :
  Layer_init n_in n_bottle n_out [o0; o1; o2; o3] [g0; g1] dilation activation
    kernel_size groups preactivation gstyle nstyle theta = Ok self ->
  calls_missing_branch o0 o1 o2 o3 g0 g1 = false ->
  forall tr x, Layer_forward self tr x <> Fail PyNotImplementedError.
Proof.
  intros Hinit Hmiss tr x.
  destruct (Layer_init_op4 _ _ _ _ _ _ _ _ _ _ _ _ _ _ _ _ _ Hinit)
    as (Hg & m0 & m1 & m2 & m3 & Hop & I0 & I1 & I2 & I3).
  unfold calls_missing_branch in Hmiss.
  rewrite <- I0, <- I1, <- I2, <- I3 in Hmiss.
  unfold Layer_forward.
  apply bind_no_NIE; [apply Sequential_forward_no_NIE|intros i].
  apply bind_no_NIE; [|intros out].
  - unfold Layer_stage0. rewrite Hg, Hop. cbn [index nth_error bind].
    destruct m0, m2, g0; try discriminate Hmiss;
      destruct (gate_style self =? "mult")%string;
      cbn [index nth_error bind OpModule_call is_seq]; no_NIE.
  - unfold Layer_stage1. rewrite Hg, Hop. cbn [index nth_error bind].
    destruct m0, m1, m2, m3, g0, g1; try discriminate Hmiss;
      destruct (gate_style self =? "mult")%string;
      cbn [index nth_error bind OpModule_call is_seq];
      try destruct out; no_NIE.
Qed.

Lemma Layer_forward_NotImplementedError_needs_missing_branch_witness :
  exists self,
    unit_layer [true; true; true; true] [true; true] "mult" 1 = Ok self /\
    forall tr x, Layer_forward self tr x <> Fail PyNotImplementedError.
Proof.
  eexists. split; [reflexivity|].
  apply (Layer_forward_NotImplementedError_needs_missing_branch 1 1 1
           true true true true true true
           (repeat (1, 1)%Z 4) (repeat F_relu 4) (repeat (1, 1)%Z 4)
           (repeat 1%nat 4) true "mult" "before" (flat_store 1));
    reflexivity.
Defined.

(** ** Layer: the channel-splitting gate *)

(** The channels a [seq] accepts and returns, on a batch. *)
Lemma seq_forward_inv (n_in n_out : nat) (kernel_size dilation : Z * Z)
  (pre bnf : bool) (groups : nat) (act : Activation) (theta : ParamStore)
  (self : seq) (tr : Mode) (x y : Tensor) (f : Activation) :
  seq_init n_in n_out kernel_size dilation pre bnf groups act theta = Ok self ->
  shape_preserving f ->
  List.length (shape x) = 4%nat ->
  seq_forward self tr x f = Ok y ->
  exists N H W H' W',
    shape x = [N; n_in; H; W] /\ shape y = [N; n_out; H'; W'].
Proof.
  intros Hinit Hf L Hy.
  destruct (seq_init_inv _ _ _ _ _ _ _ _ _ _ Hinit) as (Hp & Hb & Hbn & Hc).
  unfold seq_forward, seq_get_bn in Hy. rewrite Hp, Hb, Hbn in Hy.
  destruct pre, bnf; cbn [bind] in Hy.
  - apply bind_Ok in Hy. destruct Hy as (y1 & E1 & Hy).
    apply BatchNorm2d_forward_inv in E1.
    destruct E1 as (N & H & W & Sx & S1 & _).
    cbn [nn_BatchNorm2d num_features] in Sx, S1.
    destruct (Conv2d_forward_inv _ _ _ _ _ _ _ _ _ _ _ Hc Hy)
      as [(N' & H0 & W0 & H' & W' & Sa & Sy & _)|(H0 & W0 & H' & W' & Sa & _)];
      rewrite Hf, S1 in Sa; [|discriminate Sa].
    inversion Sa; subst N' H0 W0.
    exists N, H, W, H', W'. split; assumption.
  - destruct (Conv2d_forward_inv _ _ _ _ _ _ _ _ _ _ _ Hc Hy)
      as [(N & H & W & H' & W' & Sa & Sy & _)|(H & W & H' & W' & Sa & _)];
      rewrite Hf in Sa; [|rewrite Sa in L; discriminate L].
    exists N, H, W, H', W'. split; assumption.
  - apply bind_Ok in Hy. destruct Hy as (y1 & E1 & Hy).
    apply bind_Ok in Hy. destruct Hy as (y2 & E2 & Hy).
    inversion Hy; subst y. clear Hy.
    destruct (Conv2d_forward_inv _ _ _ _ _ _ _ _ _ _ _ Hc E1)
      as [(N & H & W & H' & W' & Sx & S1 & _)|(H & W & H' & W' & Sx & _)];
      [|rewrite Sx in L; discriminate L].
    apply BatchNorm2d_forward_inv in E2.
    destruct E2 as (N2 & H2 & W2 & S1' & S2 & _).
    rewrite S1 in S1'.
    exists N, H, W, H', W'. split; [exact Sx|].
    rewrite Hf, S2, <- S1'. reflexivity.
  - apply bind_Ok in Hy. destruct Hy as (y1 & E1 & Hy).
    inversion Hy; subst y. clear Hy.
    destruct (Conv2d_forward_inv _ _ _ _ _ _ _ _ _ _ _ Hc E1)
      as [(N & H & W & H' & W' & Sx & S1 & _)|(H & W & H' & W' & Sx & _)];
      [|rewrite Sx in L; discriminate L].
    exists N, H, W, H', W'. split; [exact Sx|]. rewrite Hf. exact S1.
Qed.

(** A chain of modules keeps a batch a batch. *)
Lemma Sequential_forward_rank4 (tr : Mode) (ms : list SubModule) :
  forall x y,
    Sequential_forward tr ms x = Ok y ->
    List.length (shape x) = 4%nat -> List.length (shape y) = 4%nat.
Proof.
  induction ms as [|m ms IH]; intros x y E L; cbn [Sequential_forward] in E.
  - inversion E; subst y. exact L.
  - apply bind_Ok in E. destruct E as (z & Ez & E).
    apply (IH z y E). destruct m; cbn [SubModule_forward] in Ez.
    + apply BatchNorm2d_forward_inv in Ez.
      destruct Ez as (N & H & W & _ & Sz & _). rewrite Sz. reflexivity.
    + inversion Ez; subst z. exact L.
    + unfold Conv2d_forward in Ez. exact (conv2d_rank4 _ _ _ _ _ _ _ _ Ez L).
    + unfold WNC2D_forward in Ez. apply bind_Ok in Ez.
      destruct Ez as (w & _ & Ez). exact (conv2d_rank4 _ _ _ _ _ _ _ _ Ez L).
Qed.

Lemma tmap_shape_preserving (g : R -> R) : shape_preserving (tmap g).
Proof. intros t. reflexivity. Qed.

Lemma slice_even_len (c : nat) :
  slice_len (slice_bound (Z.of_nat c) None 0)
            (slice_bound (Z.of_nat c) None (Z.of_nat c)) (Z.of_nat 2)
  = ((c + 1) / 2)%nat.
Proof.
  unfold slice_len, slice_bound. destruct (Z.ltb_spec 0 (Z.of_nat c)) as [Hc|Hc].
  - apply Nat2Z.inj. rewrite Z2Nat.id by (apply Z.div_pos; lia).
    rewrite Nat2Z.inj_div. f_equal. lia.
  - assert (c = 0%nat) by lia. subst c. reflexivity.
Qed.

Lemma slice_odd_len (c : nat) :
  slice_len (slice_bound (Z.of_nat c) (Some 1%Z) 0)
            (slice_bound (Z.of_nat c) None (Z.of_nat c)) (Z.of_nat 2)
  = (c / 2)%nat.
Proof.
  unfold slice_len, slice_bound. change (1 <? 0)%Z with false. cbv iota.
  destruct c as [|[|c]]; [reflexivity|reflexivity|].
  replace (Z.max 0 (Z.min (Z.of_nat (S (S c))) 1)) with 1%Z by lia.
  destruct (Z.ltb_spec 1 (Z.of_nat (S (S c)))) as [Hc|Hc]; [|lia].
  apply Nat2Z.inj. rewrite Z2Nat.id by (apply Z.div_pos; lia).
  rewrite Nat2Z.inj_div. f_equal. lia.
Qed.

(** The gate of lines 222, 236 and 244 returns fewer channels than it
    receives. *)
Lemma split_gate_inv (t r : Tensor) (N c H W : nat) :
  split_gate t = Ok r -> shape t = [N; c; H; W] -> (0 < c)%nat ->
  exists N' c' H' W', shape r = [N'; c'; H'; W'] /\ (c' < c)%nat.
Proof.
  intros Hr St Hc. unfold split_gate, slice_dim1 in Hr. rewrite St in Hr.
  cbn [bind] in Hr. unfold tmul in Hr.
  destruct (binop_inv4 _ _ _ _ _ _ _ _ _ _ _ _ Hr eq_refl eq_refl)
    as (Sr & _).
  rewrite slice_even_len, slice_odd_len in Sr.
  eexists. eexists. eexists. eexists. split; [exact Sr|].
  unfold broadcast_dim.
  assert (D1 := Nat.div_mod_eq (c + 1) 2).
  assert (M1 := Nat.mod_upper_bound (c + 1) 2 ltac:(lia)).
  assert (D2 := Nat.div_mod_eq c 2).
  assert (M2 := Nat.mod_upper_bound c 2 ltac:(lia)).
  destruct (Nat.eqb_spec ((c + 1) / 2) (c / 2)); [lia|].
  destruct (Nat.eqb_spec ((c + 1) / 2) 1); lia.
Qed.

(** X25. In the channel-splitting gate style a gate at the first stage
    halves the channel count of a batch, while [op[1]] and [op[3]] are built
    for [n_out] input channels: a [Layer] with [gate[0]] set, a gate style
    other than 'mult', and anything at the second stage ([ops[1]], [ops[3]]
    or [gate[1]]) can be built but never returns from [forward] on a batch
    (an input of rank 4), in either mode.  (On one unbatched image of rank
    3 the slice [out[:, ::2]] halves the height instead, and the forward
    pass can return.) *)
Theorem Layer_add_split_gate_blocks_second_stage (n_in n_bottle n_out : nat)
  (o0 o1 o2 o3 g1 : bool) (dilation : list (Z * Z))
  (activation : list Activation) (kernel_size : list (Z * Z))
  (groups : list nat) (preactivation : bool) (gstyle nstyle : string)
  (theta : ParamStore) (self : Layer) :
  Layer_init n_in n_bottle n_out [o0; o1; o2; o3] [true; g1] dilation
    activation kernel_size groups preactivation gstyle nstyle theta = Ok self ->
  gstyle <> "mult"%string -> (0 < n_out)%nat ->
  o1 = true \/ o3 = true \/ g1 = true ->
  forall tr x N C H W,
    shape x = [N; C; H; W] ->
    exists e, Layer_forward self tr x = Fail e.
Proof.
  intros Hinit Hgs Hn Hcfg tr x Nx Cx Hgt Wdt Hx.
  destruct (Layer_init_inv _ _ _ _ _ _ _ _ _ _ _ _ _ _ _ _ _ Hinit)
    as (Hg & Hst & m0 & m1 & m2 & m3 & Hop & M0 & M1 & M2 & M3).
  apply String.eqb_neq in Hgs.
  pose proof (Layer_make_op_is_seq _ _ _ _ _ _ _ _ _ _ _ _ M1) as I1.
  pose proof (Layer_make_op_is_seq _ _ _ _ _ _ _ _ _ _ _ _ M3) as I3.
  unfold Layer_forward.
  destruct (Sequential_forward tr (initial_op self) x) as [i|e] eqn:Ei;
    [|exists e; reflexivity].
  cbn [bind].
  assert (Li : List.length (shape i) = 4%nat).
  { apply (Sequential_forward_rank4 _ _ _ _ Ei). rewrite Hx. reflexivity. }
  destruct (Layer_stage0 self tr i) as [out|e] eqn:E0;
    [|exists e; reflexivity].
  cbn [bind].
  (* the first stage returned: its output has fewer than n_out channels *)
  unfold Layer_stage0 in E0. rewrite Hg, Hst, Hgs, Hop in E0.
  cbn [index nth_error bind] in E0.
  apply bind_Ok in E0. destruct E0 as (a & Ea & E0).
  apply bind_Ok in E0. destruct E0 as (b & Eb & E0).
  apply bind_Ok in E0. destruct E0 as (pg & Epg & E0).
  apply bind_Ok in E0. destruct E0 as (r & Er & E0).
  inversion E0; subst out. clear E0.
  assert (Sa : exists N H W, shape a = [N; n_out; H; W]).
  { destruct (Layer_make_op_inv _ _ _ _ _ _ _ _ _ _ _ _ M0)
      as [[_ ->]|(_ & s & k & d & g & act & -> & Hs)]; [discriminate Ea|].
    cbn [OpModule_call] in Ea.
    destruct (seq_forward_inv _ _ _ _ _ _ _ _ _ _ _ _ _ _ Hs
                (tmap_shape_preserving relu) Li Ea)
      as (N & H & W & H' & W' & _ & S).
    eauto. }
  assert (Sb : exists N H W, shape b = [N; n_out; H; W]).
  { destruct (Layer_make_op_inv _ _ _ _ _ _ _ _ _ _ _ _ M2)
      as [[_ ->]|(_ & s & k & d & g & act & -> & Hs)]; [discriminate Eb|].
    cbn [OpModule_call] in Eb.
    destruct (seq_forward_inv _ _ _ _ _ _ _ _ _ _ _ _ _ _ Hs
                (tmap_shape_preserving relu) Li Eb)
      as (N & H & W & H' & W' & _ & S).
    eauto. }
  destruct Sa as (Na & Ha & Wa & Sa). destruct Sb as (Nb & Hb & Wb & Sb).
  destruct (binop_inv4 _ _ _ _ _ _ _ _ _ _ _ _ Epg Sa Sb) as (Spg & _).
  replace (broadcast_dim n_out n_out) with n_out in Spg
    by (unfold broadcast_dim; rewrite Nat.eqb_refl; reflexivity).
  destruct (split_gate_inv _ _ _ _ _ _ Er Spg Hn)
    as (N' & c' & H' & W' & Sr & Hc').
  (* op[1] cannot take it *)
  assert (K : forall y, OpModule_call m1 tr r F_relu <> Ok y).
  { intros y Ey.
    destruct (Layer_make_op_inv _ _ _ _ _ _ _ _ _ _ _ _ M1)
      as [[_ ->]|(_ & s & k & d & g & act & -> & Hs)]; [discriminate Ey|].
    cbn [OpModule_call] in Ey.
    destruct (seq_forward_inv _ _ _ _ _ _ _ _ _ _ _ _ _ _ Hs
                (tmap_shape_preserving relu)
                ltac:(rewrite Sr; reflexivity) Ey)
      as (N & H & W & H0 & W0 & S & _).
    change (1 mod 2 =? 0)%nat with false in S. cbv iota in S.
    rewrite Sr in S. inversion S. lia. }
  assert (K' : exists e, OpModule_call m1 tr r F_relu = Fail e).
  { destruct (OpModule_call m1 tr r F_relu) as [y|e];
      [exfalso; exact (K y eq_refl)|exists e; reflexivity]. }
  destruct K' as [e Ke].
  unfold Layer_stage1. rewrite Hg, Hst, Hgs, Hop.
  cbn [index nth_error bind flow_fst flow_snd].
  destruct g1.
  - rewrite Ke. exists e. reflexivity.
  - rewrite I1, I3. destruct o3.
    + rewrite Ke. exists e. reflexivity.
    + destruct o1.
      * rewrite Ke. exists e. reflexivity.
      * destruct Hcfg as [?|[?|?]]; discriminate.
Qed.

Lemma Layer_add_split_gate_blocks_second_stage_witness :
  exists self,
    Layer_init 4 4 4 [true; true; true; false] [true; false]
      (repeat (1, 1)%Z 4) (repeat F_relu 4) (repeat (3, 3)%Z 4)
      (repeat 1%nat 4) true "add_split" "sandwich" (flat_store 1) = Ok self /\
    forall tr,
      exists e, Layer_forward self tr (full [2; 4; 3; 3]%nat 1) = Fail e.
Proof.
  eexists. split; [reflexivity|].
  intros tr.
  apply (Layer_add_split_gate_blocks_second_stage 4 4 4 true true true false
           false (repeat (1, 1)%Z 4) (repeat F_relu 4) (repeat (3, 3)%Z 4)
           (repeat 1%nat 4) true "add_split" "sandwich" (flat_store 1) _
           eq_refl ltac:(discriminate) ltac:(lia) (or_introl eq_refl)
           tr (full [2; 4; 3; 3]%nat 1) 2 4 3 3 eq_refl).
Defined.

(** ** Layer: the 'WN' norm style *)

Lemma seq_forward_mode (s : seq) (tr tr' : Mode) (x : Tensor) (f : Activation) :
  seq_batchnorm s = false ->
  seq_forward s tr x f = seq_forward s tr' x f.
Proof. intros H. unfold seq_forward. rewrite H. reflexivity. Qed.

Lemma Layer_make_op_mode (n_bottle n_out : nat) (dilation : list (Z * Z))
  (activation : list Activation) (kernel_size : list (Z * Z))
  (groups : list nat) (preactivation : bool) (theta : ParamStore)
  (i : nat) (o : bool) (m : OpModule) :
  Layer_make_op n_bottle n_out dilation activation kernel_size groups
    preactivation false theta (i, o) = Ok m ->
  OpModule_call m true = OpModule_call m false.
Proof.
  intros Hm.
  destruct (Layer_make_op_inv _ _ _ _ _ _ _ _ _ _ _ _ Hm)
    as [[_ ->]|(_ & s & k & d & g & a & -> & Hs)]; [reflexivity|].
  destruct (seq_init_inv _ _ _ _ _ _ _ _ _ _ Hs) as (_ & Hb & _).
  apply functional_extensionality. intros x.
  apply functional_extensionality. intros f.
  cbn [OpModule_call]. apply seq_forward_mode, Hb.
Qed.

Lemma Layer_init_WN_initial_op (n_in n_bottle n_out : nat) (ops gates : list bool)
  (dilation : list (Z * Z)) (activation : list Activation)
  (kernel_size : list (Z * Z)) (groups : list nat) (preactivation : bool)
  (gstyle : string) (theta : ParamStore) (self : Layer) :
  Layer_init n_in n_bottle n_out ops gates dilation activation
    kernel_size groups preactivation gstyle "WN" theta = Ok self ->
  exists c, initial_op self = [M_ReLU; M_WNC c]
            \/ initial_op self = [M_WNC c; M_ReLU].
Proof.
  unfold Layer_init. intros H.
  apply bind_Ok in H. destruct H as (io & Hio & H).
  apply bind_Ok in H. destruct H as (ops' & _ & H).
  inversion H; subst self; clear H. cbn [initial_op].
  change ("WN" =? "WN")%string with true in Hio.
  change ("WN" =? "sandwich")%string with false.
  cbn [negb] in Hio. cbv iota in Hio. cbv iota.
  apply bind_Ok in Hio. destruct Hio as (c & _ & Hio).
  exists c. destruct preactivation; inversion Hio; [left|right]; reflexivity.
Qed.

(** X26. With [norm_style='WN'] a [Layer] holds no batch normalisation
    at all, neither in [initial_op] nor in its branches, so its forward pass
    is the same in training and in evaluation mode. *)
Theorem Layer_WN_forward_mode_independent (n_in n_bottle n_out : nat)
  (o0 o1 o2 o3 : bool) (gates : list bool) (dilation : list (Z * Z))
  (activation : list Activation) (kernel_size : list (Z * Z))
  (groups : list nat) (preactivation : bool) (gstyle : string)
  (theta : ParamStore) (self : Layer) :
  Layer_init n_in n_bottle n_out [o0; o1; o2; o3] gates dilation activation
    kernel_size groups preactivation gstyle "WN" theta = Ok self ->
  forall x, Layer_forward self true x = Layer_forward self false x.
Proof.
  intros Hinit x.
  destruct (Layer_init_inv _ _ _ _ _ _ _ _ _ _ _ _ _ _ _ _ _ Hinit)
    as (Hg & Hst & m0 & m1 & m2 & m3 & Hop & M0 & M1 & M2 & M3).
  change ("WN" =? "full")%string with false in M0, M1, M2, M3.
  apply Layer_make_op_mode in M0, M1, M2, M3.
  destruct (Layer_init_WN_initial_op _ _ _ _ _ _ _ _ _ _ _ _ _ Hinit)
    as [c Hio].
  unfold Layer_forward, Layer_stage0, Layer_stage1.
  rewrite Hop. cbn [index nth_error bind].
  rewrite M0, M1, M2, M3.
  destruct Hio as [ -> | -> ]; reflexivity.
Qed.

Lemma Layer_WN_forward_mode_independent_witness :
  exists self,
    Layer_init 1 1 1 [true; true; true; true] [true; true]
      (repeat (1, 1)%Z 4) (repeat F_relu 4) (repeat (1, 1)%Z 4)
      (repeat 1%nat 4) true "mult" "WN" (flat_store 1) = Ok self /\
    forall x, Layer_forward self true x = Layer_forward self false x.
Proof.
  eexists. split; [reflexivity|].
  apply (Layer_WN_forward_mode_independent 1 1 1 true true true true
           [true; true] (repeat (1, 1)%Z 4) (repeat F_relu 4)
           (repeat (1, 1)%Z 4) (repeat 1%nat 4) true "mult"
           (flat_store 1)).
  reflexivity.
Defined.

(** ** Layer with the default arguments: sizes *)

Lemma default_op (n_bottle n_out : nat) (theta : ParamStore) (i : nat) :
  (i < 4)%nat ->
  exists m,
    Layer_make_op n_bottle n_out (repeat (1, 1)%Z 4) (repeat F_relu 4)
      (repeat (3, 3)%Z 4) (repeat 1%nat 4) true false theta (i, true) = Ok m /\
    is_seq m = true /\
    forall tr x N H W,
      shape x = [N; if (i mod 2 =? 0)%nat then n_bottle else n_out; H; W] ->
      (1 <= H)%nat -> (1 <= W)%nat ->
      (0 < n_bottle)%nat -> (0 < n_out)%nat ->
      exists y, OpModule_call m tr x F_relu = Ok y /\
                shape y = [N; n_out; H; W].
Proof.
  intros Hi. unfold Layer_make_op.
  assert (Hc : (i = 0 \/ i = 1 \/ i = 2 \/ i = 3)%nat) by lia.
  set (cin := if (i mod 2 =? 0)%nat then n_bottle else n_out).
  assert (E : forall th,
            seq_init cin n_out (3, 3)%Z (1, 1)%Z true false 1 F_relu th
            = Ok (mkSeq (1, 1)%Z true false None
                    (mkConv2d cin n_out (3, 3)%nat (pair2 1)
                       (seq_padding 3 1, seq_padding 3 1) (1, 1)%Z 1
                       (mkT [n_out; (cin / 1)%nat; 3; 3]%nat
                          (child "conv" th [] KConv Weight)) None)
                    F_relu)).
  { intros th. apply seq_init_eq; try lia; apply Nat.mod_1_r. }
  set (th := child (str_of_nat i) (child "op" theta)).
  specialize (E th).
  destruct Hc as [ -> | [ -> | [ -> | -> ]]];
    cbn [index nth_error repeat bind]; rewrite E; cbn [bind];
    (eexists; split; [reflexivity|]; split; [reflexivity|];
     intros tr x N H W Sx HH HW Hpb Hpo; cbn [OpModule_call];
     destruct (seq_forward_shape cin n_out 3 3 1 1 true false 1 F_relu th _
                 tr x F_relu N H W
                 ltac:(lia) ltac:(lia) ltac:(lia) ltac:(lia) ltac:(lia)
                 (Nat.mod_1_r _) (Nat.mod_1_r _) E Sx HH HW
                 (tmap_shape_preserving relu)
                 ltac:(discriminate) ltac:(discriminate)
                 ltac:(subst cin; cbn; assumption) Hpo)
       as (y & Ey & Sy);
     exists y; split; [exact Ey|];
     rewrite Sy; change ((1 * (3 - 1)) mod 2)%Z with 0%Z;
     change (Z.to_nat 0) with 0%nat; rewrite !Nat.add_0_r; reflexivity).
Qed.

Lemma Layer_default_initial_op (n_in n_bottle n_out : nat)
  (ops gates : list bool) (theta : ParamStore) (self : Layer) :
  Layer_default n_in n_bottle n_out ops gates theta = Ok self ->
  forall tr x N H W,
    shape x = [N; n_in; H; W] -> (1 <= H)%nat -> (1 <= W)%nat ->
    (tr = true -> (N * H * W)%nat <> 1%nat) ->
    (0 < n_in)%nat -> (0 < n_bottle)%nat ->
    exists i, Sequential_forward tr (initial_op self) x = Ok i /\
              shape i = [N; n_bottle; H; W].
Proof.
  unfold Layer_default, Layer_init. intros Hs.
  apply bind_Ok in Hs. destruct Hs as (io & Hio & Hs).
  apply bind_Ok in Hs. destruct Hs as (ops' & _ & Hs).
  inversion Hs; subst self; clear Hs. cbn [initial_op].
  change ("sandwich" =? "WN")%string with false in Hio.
  change ("sandwich" =? "sandwich")%string with true.
  cbn [negb] in Hio. cbv iota in Hio. cbv iota.
  rewrite nn_Conv2d_groups1 in Hio by (simpl; lia). cbn [bind] in Hio.
  inversion Hio; subst io; clear Hio.
  intros tr x N H W Sx HH HW Htr Hpi Hpb.
  cbn [app Sequential_forward SubModule_forward].
  destruct (BatchNorm2d_forward_shape
              (nn_BatchNorm2d n_in (child "bn1" theta)) tr x
              N n_in H W Sx eq_refl Htr Hpi) as (y1 & E1 & S1).
  rewrite E1. cbn [bind].
  destruct (conv_axis_1x1 H 1 ltac:(lia) HH) as [A1 O1].
  destruct (conv_axis_1x1 W 1 ltac:(lia) HW) as [A2 O2].
  change (Z.to_nat 1) with 1%nat in O1, O2. rewrite Nat.div_1_r in O1, O2.
  replace (H - 1 + 1)%nat with H in O1 by lia.
  replace (W - 1 + 1)%nat with W in O2 by lia.
  destruct (Conv2d_forward_shape n_in n_bottle 1 1 0
              (child "conv1" theta [] KConv Weight) (F_relu y1) N H W H W
              S1 A1 A2 O1 O2 Hpi Hpb) as (y2 & E2 & S2).
  change (Pos.to_nat 1) with 1%nat.
  rewrite E2. cbn [bind].
  destruct (BatchNorm2d_forward_shape
              (nn_BatchNorm2d n_bottle (child "bn2" theta)) tr y2
              N n_bottle H W S2 eq_refl Htr Hpb) as (y3 & E3 & S3).
  rewrite E3. cbn [bind]. exists y3. split; [reflexivity|exact S3].
Qed.

Lemma Layer_default_ops (n_in n_bottle n_out : nat) (o0 o1 o2 o3 : bool)
  (gates : list bool) (theta : ParamStore) (self : Layer) :
  Layer_default n_in n_bottle n_out [o0; o1; o2; o3] gates theta = Ok self ->
  gate self = gates /\ gate_style self = "add_split"%string /\
  exists m0 m1 m2 m3,
    op self = [m0; m1; m2; m3] /\
    is_seq m0 = o0 /\ is_seq m1 = o1 /\ is_seq m2 = o2 /\ is_seq m3 = o3 /\
    forall k m, nth_error [m0; m1; m2; m3] k = Some m -> is_seq m = true ->
      forall tr x N H W,
        shape x = [N; if (k mod 2 =? 0)%nat then n_bottle else n_out; H; W] ->
        (1 <= H)%nat -> (1 <= W)%nat ->
        (0 < n_bottle)%nat -> (0 < n_out)%nat ->
        exists y, OpModule_call m tr x F_relu = Ok y /\
                  shape y = [N; n_out; H; W].
Proof.
  intros Hs. unfold Layer_default in Hs.
  destruct (Layer_init_inv _ _ _ _ _ _ _ _ _ _ _ _ _ _ _ _ _ Hs)
    as (Hg & Hst & m0 & m1 & m2 & m3 & Hop & M0 & M1 & M2 & M3).
  change ("sandwich" =? "full")%string with false in M0, M1, M2, M3.
  split; [exact Hg|]. split; [exact Hst|].
  exists m0, m1, m2, m3. split; [exact Hop|].
  pose proof (Layer_make_op_is_seq _ _ _ _ _ _ _ _ _ _ _ _ M0) as I0.
  pose proof (Layer_make_op_is_seq _ _ _ _ _ _ _ _ _ _ _ _ M1) as I1.
  pose proof (Layer_make_op_is_seq _ _ _ _ _ _ _ _ _ _ _ _ M2) as I2.
  pose proof (Layer_make_op_is_seq _ _ _ _ _ _ _ _ _ _ _ _ M3) as I3.
  repeat (split; [assumption|]).
  intros k m Hk Hm.
  assert (Hlt : (k < 4)%nat).
  { change 4%nat with (List.length [m0; m1; m2; m3]).
    apply nth_error_Some. congruence. }
  destruct (default_op n_bottle n_out theta k Hlt) as (m' & Em' & _ & Hcall).
  assert (m = m'); [|subst m'; exact Hcall].
  assert (Hk4 : (k = 0 \/ k = 1 \/ k = 2 \/ k = 3)%nat) by lia.
  destruct Hk4 as [ -> | [ -> | [ -> | -> ]]]; cbn [nth_error] in Hk;
    inversion Hk; subst m; rewrite Hm in *.
  - subst o0. congruence.
  - subst o1. congruence.
  - subst o2. congruence.
  - subst o3. congruence.
Qed.

Lemma Layer_default_ok (n_in n_bottle n_out : nat) (o0 o1 o2 o3 : bool)
  (gates : list bool) (theta : ParamStore) :
  exists self,
    Layer_default n_in n_bottle n_out [o0; o1; o2; o3] gates theta = Ok self.
Proof.
  unfold Layer_default, Layer_init.
  change ("sandwich" =? "WN")%string with false.
  change ("sandwich" =? "full")%string with false.
  cbn [negb]. cbv iota.
  rewrite nn_Conv2d_groups1 by (simpl; lia). cbn [bind].
  cbn [List.length List.seq combine mapM].
  assert (K : forall i o, (i < 4)%nat ->
            exists m,
              Layer_make_op n_bottle n_out (repeat (1, 1)%Z 4) (repeat F_relu 4)
                (repeat (3, 3)%Z 4) (repeat 1%nat 4) true false theta (i, o)
              = Ok m).
  { intros i o Hi. destruct o.
    - destruct (default_op n_bottle n_out theta i Hi) as (m & E & _). eauto.
    - eexists. reflexivity. }
  destruct (K 0%nat o0 ltac:(lia)) as [m0 ->].
  destruct (K 1%nat o1 ltac:(lia)) as [m1 ->].
  destruct (K 2%nat o2 ltac:(lia)) as [m2 ->].
  destruct (K 3%nat o3 ltac:(lia)) as [m3 ->].
  cbn [bind]. eexists. reflexivity.
Qed.

(** X27. [Layer(n_in, n_bottle, n_out, ops, gate)] with the default
    arguments (3x3 kernels, dilation 1, pre-activation, 'sandwich'
    normalisation), no gate, [ops[0]] set and [ops[3]] only together with
    [ops[1]]: the layer can be built, and with positive channel counts
    [n_in], [n_bottle] and [n_out] it maps an input of shape
    (N, n_in, H, W) to (N, n_out, H, W); in training mode the batch must
    hold more than one value per channel. *)
Theorem Layer_default_forward_shape (n_in n_bottle n_out : nat)
  (o1 o2 o3 : bool) (theta : ParamStore) (tr : Mode) (x : Tensor)
  (N H W : nat) :
  (o3 = true -> o1 = true) ->
  shape x = [N; n_in; H; W] -> (1 <= H)%nat -> (1 <= W)%nat ->
  (tr = true -> (N * H * W)%nat <> 1%nat) ->
  (0 < n_in)%nat -> (0 < n_bottle)%nat -> (0 < n_out)%nat ->
  exists self y,
    Layer_default n_in n_bottle n_out [true; o1; o2; o3] [false; false] theta
    = Ok self /\
    Layer_forward self tr x = Ok y /\
    shape y = [N; n_out; H; W].
Proof.
  intros Hcfg Sx HH HW Htr Hpi Hpb Hpo.
  destruct (Layer_default_ok n_in n_bottle n_out true o1 o2 o3 [false; false]
              theta) as [self Hs].
  exists self.
  cut (exists y, Layer_forward self tr x = Ok y /\ shape y = [N; n_out; H; W]).
  { intros (y & Ey & Sy). exists y. repeat split; assumption. }
  destruct (Layer_default_initial_op _ _ _ _ _ _ _ Hs tr x N H W Sx HH HW Htr
              Hpi Hpb) as (i & Ei & Si).
  destruct (Layer_default_ops _ _ _ _ _ _ _ _ _ _ Hs)
    as (Hg & _ & m0 & m1 & m2 & m3 & Hop & I0 & I1 & I2 & I3 & Hcall).
  assert (C0 : forall t, shape t = [N; n_bottle; H; W] ->
             exists y, OpModule_call m0 tr t F_relu = Ok y /\
                       shape y = [N; n_out; H; W]).
  { intros t St.
    exact (Hcall 0%nat m0 eq_refl I0 tr t N H W St HH HW Hpb Hpo). }
  assert (C2 : o2 = true -> forall t, shape t = [N; n_bottle; H; W] ->
             exists y, OpModule_call m2 tr t F_relu = Ok y /\
                       shape y = [N; n_out; H; W]).
  { intros E t St. rewrite <- I2 in E.
    exact (Hcall 2%nat m2 eq_refl E tr t N H W St HH HW Hpb Hpo). }
  assert (C1 : o1 = true -> forall t, shape t = [N; n_out; H; W] ->
             exists y, OpModule_call m1 tr t F_relu = Ok y /\
                       shape y = [N; n_out; H; W]).
  { intros E t St. rewrite <- I1 in E.
    exact (Hcall 1%nat m1 eq_refl E tr t N H W St HH HW Hpb Hpo). }
  assert (C3 : o3 = true -> forall t, shape t = [N; n_out; H; W] ->
             exists y, OpModule_call m3 tr t F_relu = Ok y /\
                       shape y = [N; n_out; H; W]).
  { intros E t St. rewrite <- I3 in E.
    exact (Hcall 3%nat m3 eq_refl E tr t N H W St HH HW Hpb Hpo). }
  assert (Hadd : forall a b, shape a = [N; n_out; H; W] ->
               shape b = [N; n_out; H; W] ->
               exists y, tadd a b = Ok y /\ shape y = [N; n_out; H; W]).
  { intros a b Sa Sb. rewrite tadd_same_shape by congruence.
    eexists. split; [reflexivity|exact Sa]. }
  (* first stage *)
  assert (S0 : exists out, Layer_stage0 self tr i = Ok out /\
                 shape (flow_fst out) = [N; n_out; H; W] /\
                 shape (flow_snd out) = [N; n_out; H; W]).
  { unfold Layer_stage0. rewrite Hg, Hop. cbn [index nth_error bind].
    rewrite I2. destruct (C0 i Si) as (a & Ea & Sa).
    destruct o2.
    - destruct (C2 eq_refl i Si) as (b & Eb & Sb).
      rewrite Ea. cbn [bind]. rewrite Eb. cbn [bind].
      eexists. split; [reflexivity|]. split; assumption.
    - rewrite Ea. cbn [bind].
      eexists. split; [reflexivity|]. split; assumption. }
  destruct S0 as (out & E0 & Sf & Ss).
  unfold Layer_forward. rewrite Ei. cbn [bind]. rewrite E0. cbn [bind].
  unfold Layer_stage1. rewrite Hg, Hop. cbn [index nth_error bind].
  rewrite I3, I1.
  destruct o3.
  - rewrite (Hcfg eq_refl) in *.
    destruct (C1 eq_refl _ Sf) as (c & Ec & Sc).
    destruct (C3 eq_refl _ Ss) as (d & Ed & Sd).
    rewrite Ec. cbn [bind]. rewrite Ed. cbn [bind]. apply Hadd; assumption.
  - destruct o1.
    + destruct out as [o|oa ob]; cbn [flow_fst flow_snd] in *.
      * destruct (C1 eq_refl _ Sf) as (c & Ec & Sc). eauto.
      * destruct (C1 eq_refl _ Sf) as (c & Ec & Sc).
        rewrite Ec. cbn [bind]. apply Hadd; assumption.
    + destruct out as [o|oa ob]; cbn [flow_fst flow_snd] in *.
      * eauto.
      * apply Hadd; assumption.
Qed.

Lemma Layer_default_forward_shape_witness :
  exists self y,
    Layer_default 3 4 8 [true; true; true; true] [false; false] (flat_store 1)
    = Ok self /\
    Layer_forward self true (full [2; 3; 5; 5]%nat 1) = Ok y /\
    shape y = [2; 8; 5; 5]%nat.
Proof.
  apply (Layer_default_forward_shape 3 4 8 true true true (flat_store 1) true
           (full [2; 3; 5; 5]%nat 1) 2 5 5).
  - reflexivity.
  - reflexivity.
  - lia.
  - lia.
  - intros _. discriminate.
  - lia.
  - lia.
  - lia.
Defined.

(** X28. With the default arguments, a gate at the first stage and
    nothing at the second ([ops = [1,0,1,0]], [gate = [1,0]]), an even
    [n_out = 2 m] with [m >= 1], and positive [n_in] and [n_bottle]: the
    layer maps (N, n_in, H, W) to (N, m, H, W), and
    channel [c] of the result is
    [tanh(s[:, 2c]) * sigmoid(s[:, 2c+1])] for the sum [s] of the two
    branches. *)
Theorem Layer_default_gated_forward_shape (n_in n_bottle m : nat)
  (theta : ParamStore) (tr : Mode) (x : Tensor) (N H W : nat) :
  shape x = [N; n_in; H; W] -> (1 <= H)%nat -> (1 <= W)%nat ->
  (tr = true -> (N * H * W)%nat <> 1%nat) ->
  (0 < n_in)%nat -> (0 < n_bottle)%nat -> (0 < m)%nat ->
  exists self i a b s y,
    Layer_default n_in n_bottle (2 * m) [true; false; true; false]
      [true; false] theta = Ok self /\
    Sequential_forward tr (initial_op self) x = Ok i /\
    (op0 <- index (op self) 0 ;; OpModule_call op0 tr i F_relu) = Ok a /\
    (op2 <- index (op self) 2 ;; OpModule_call op2 tr i F_relu) = Ok b /\
    tadd a b = Ok s /\
    Layer_forward self tr x = Ok y /\
    shape y = [N; m; H; W] /\
    forall n c h w, (n < N)%nat -> (c < m)%nat -> (h < H)%nat -> (w < W)%nat ->
      val y [n; c; h; w]
      = tanh (val s [n; (2 * c)%nat; h; w])
        * sigmoid (val s [n; (2 * c + 1)%nat; h; w]).
Proof.
  intros Sx HH HW Htr Hpi Hpb Hpm.
  assert (Hpo : (0 < 2 * m)%nat) by lia.
  destruct (Layer_default_ok n_in n_bottle (2 * m) true false true false
              [true; false] theta) as [self Hs].
  exists self.
  destruct (Layer_default_initial_op _ _ _ _ _ _ _ Hs tr x N H W Sx HH HW Htr
              Hpi Hpb) as (i & Ei & Si).
  destruct (Layer_default_ops _ _ _ _ _ _ _ _ _ _ Hs)
    as (Hg & Hst & m0 & m1 & m2 & m3 & Hop & I0 & I1 & I2 & I3 & Hcall).
  destruct (Hcall 0%nat m0 eq_refl I0 tr i N H W Si HH HW Hpb Hpo)
    as (a & Ea & Sa).
  destruct (Hcall 2%nat m2 eq_refl I2 tr i N H W Si HH HW Hpb Hpo)
    as (b & Eb & Sb).
  assert (Es : tadd a b = Ok (mkT (shape a)
                                (fun idx => val a (bidx (shape a) idx)
                                            + val b (bidx (shape b) idx))))
    by (apply tadd_same_shape; congruence).
  set (s := mkT (shape a) (fun idx => val a (bidx (shape a) idx)
                                      + val b (bidx (shape b) idx))) in *.
  assert (Ss : shape s = N :: (2 * m)%nat :: [H; W]) by exact Sa.
  destruct (split_gate_spec s N m [H; W] Ss) as (r & Er & Sr & Vr).
  exists i, a, b, s, r.
  split; [exact Hs|]. split; [exact Ei|].
  rewrite Hop. cbn [index nth_error bind].
  split; [exact Ea|]. split; [exact Eb|]. split; [exact Es|].
  split.
  { unfold Layer_forward. rewrite Ei. cbn [bind].
    unfold Layer_stage0, Layer_stage1. rewrite Hg, Hst, Hop.
    change ("add_split" =? "mult")%string with false.
    cbn [index nth_error bind]. rewrite Ea. cbn [bind]. rewrite Eb.
    cbn [bind]. rewrite Es. cbn [bind]. rewrite Er. cbn [bind].
    rewrite I3, I1. reflexivity. }
  split; [exact Sr|].
  intros n c h w Hn Hc Hh Hw. apply Vr.
  repeat constructor; assumption.
Qed.

Lemma Layer_default_gated_forward_shape_witness :
  exists self i a b s y,
    Layer_default 3 4 (2 * 4) [true; false; true; false] [true; false]
      (flat_store 1) = Ok self /\
    Sequential_forward false (initial_op self) (full [1; 3; 5; 5]%nat 1) = Ok i /\
    (op0 <- index (op self) 0 ;; OpModule_call op0 false i F_relu) = Ok a /\
    (op2 <- index (op self) 2 ;; OpModule_call op2 false i F_relu) = Ok b /\
    tadd a b = Ok s /\
    Layer_forward self false (full [1; 3; 5; 5]%nat 1) = Ok y /\
    shape y = [1; 4; 5; 5]%nat /\
    forall n c h w, (n < 1)%nat -> (c < 4)%nat -> (h < 5)%nat -> (w < 5)%nat ->
      val y [n; c; h; w]
      = tanh (val s [n; (2 * c)%nat; h; w])
        * sigmoid (val s [n; (2 * c + 1)%nat; h; w]).
Proof.
  apply (Layer_default_gated_forward_shape 3 4 4 (flat_store 1) false
           (full [1; 3; 5; 5]%nat 1) 1 5 5).
  - reflexivity.
  - lia.
  - lia.
  - intros E. discriminate E.
  - lia.
  - lia.
  - lia.
Defined.

(** ** Network.forward: the input it accepts, and what the head reads *)

(** One unbatched image stops at the first batch normalisation it meets. *)
Lemma blocks_forward_unbatched (bs : list BasicBlock) (tr : Mode)
  (keep : nat -> list nat -> bool) (y : Tensor) :
  List.length (shape y) = 3%nat ->
  blocks_forward bs tr keep y = Ok y \/
  blocks_forward bs tr keep y = Fail PyValueError.
Proof.
  intros L. destruct bs as [|b r]; [left; reflexivity|right].
  cbn [blocks_forward]. unfold BasicBlock_forward, BatchNorm2d_forward.
  destruct (shape y) as [|a [|b0 [|c [|d l]]]]; try discriminate L.
  reflexivity.
Qed.

(** X29. [Network.forward] accepts only batches of three-channel images:
    on any tensor that is not of shape (N, 3, H, W) with H, W >= 1 the
    forward pass fails, in both modes.  Unless the tensor has rank 3, the
    failure is the size error of the first convolution; a tensor of rank 3
    is taken by the convolution as one unbatched image when its sizes fit,
    and then the first batch normalisation raises [ValueError]. *)
Theorem Network_forward_rejects_other_inputs (widen_factor : nat) (depth : Z)
  (nC ep : nat) (dropRate : Q) (theta : ParamStore) (net : Network)
  (x : Tensor) :
  Network_build widen_factor depth nC ep dropRate theta = Ok net ->
  (forall N H W, (1 <= H)%nat -> (1 <= W)%nat -> shape x <> [N; 3; H; W]%nat) ->
  forall tr keep,
    (exists e, Network_forward net tr keep x = Fail e /\
               (e = TorchShapeError \/ e = PyValueError)) /\
    (List.length (shape x) <> 3%nat ->
     Network_forward net tr keep x = Fail TorchShapeError).
Proof.
  intros Hb Hx tr keep.
  unfold Network_build in Hb.
  destruct (negb ((depth - 4) mod 6 =? 0)%Z); [discriminate|].
  cbn [index nth_error bind] in Hb.
  rewrite nn_Conv2d_groups1 in Hb by (simpl; lia). cbn [bind] in Hb.
  apply bind_Ok in Hb. destruct Hb as (b1 & _ & Hb).
  apply bind_Ok in Hb. destruct Hb as (b2 & _ & Hb).
  apply bind_Ok in Hb. destruct Hb as (b3 & _ & Hb).
  inversion Hb; subst net; clear Hb.
  unfold Network_forward, Network_context.
  cbn [net_conv1 block1 block2 block3 net_bn1].
  match goal with
  | |- context [Conv2d_forward ?c x] =>
      destruct (Conv2d_forward c x) as [y|e] eqn:E
  end.
  - unfold Conv2d_forward in E.
    cbn [conv_weight conv_stride conv_padding conv_dilation conv_groups
         conv_bias] in E.
    destruct (conv2d_rank _ _ _ _ _ _ _ _ E)
      as [(N & Cin & H & W & Sx)|(Cin & H & W & Sx)].
    + exfalso.
      destruct (conv2d_inv _ _ _ _ _ _ _ _ _ _ _ _ Sx E)
        as (Co & kH & kW & Sw & _ & _ & _ & _ & A1 & A2 & _).
      cbn [shape fst snd pair2] in Sw, A1, A2.
      rewrite Nat.div_1_r in Sw. change (Pos.to_nat 3) with 3%nat in Sw.
      inversion Sw; subst Co Cin kH kW.
      unfold conv_axis_ok in A1, A2.
      apply andb_prop in A1. destruct A1 as [_ A1].
      apply andb_prop in A2. destruct A2 as [_ A2].
      apply Nat.leb_le in A1, A2.
      change (Z.to_nat 1) with 1%nat in A1, A2.
      apply (Hx N H W); [lia|lia|exact Sx].
    + destruct (conv2d_inv3 _ _ _ _ _ _ _ _ _ _ _ Sx E)
        as (Co & kH & kW & _ & Sy).
      assert (L : List.length (shape y) = 3%nat) by (rewrite Sy; reflexivity).
      split; [|intros Hr; exfalso; apply Hr; rewrite Sx; reflexivity].
      exists PyValueError. split; [|right; reflexivity].
      cbn [bind].
      destruct (blocks_forward_unbatched b1 tr (keep 1%nat) y L) as [-> | ->];
        [|reflexivity].
      cbn [bind].
      destruct (blocks_forward_unbatched b2 tr (keep 2%nat) y L) as [-> | ->];
        [|reflexivity].
      cbn [bind].
      destruct (blocks_forward_unbatched b3 tr (keep 3%nat) y L) as [-> | ->];
        [|reflexivity].
      cbn [bind]. unfold BatchNorm2d_forward. rewrite Sy. reflexivity.
  - unfold Conv2d_forward in E. apply conv2d_fail in E. subst e.
    split; [|intros _; reflexivity].
    exists TorchShapeError. split; [reflexivity|left; reflexivity].
Qed.

Lemma Network_forward_rejects_other_inputs_witness :
  exists net,
    Network_build 1 10 10 1 0%Q (flat_store 1) = Ok net /\
    forall tr keep,
      (exists e,
         Network_forward net tr keep (full [3; 8; 8]%nat 0) = Fail e /\
         (e = TorchShapeError \/ e = PyValueError)) /\
      (List.length (shape (full [3; 8; 8]%nat 0)) <> 3%nat ->
       Network_forward net tr keep (full [3; 8; 8]%nat 0)
       = Fail TorchShapeError).
Proof.
  destruct (Network_build_ok 1 10 10 1 0%Q (flat_store 1) eq_refl) as [net E].
  exists net. split; [exact E|].
  apply (Network_forward_rejects_other_inputs 1 10 10 1 0%Q (flat_store 1)
           net (full [3; 8; 8]%nat 0) E).
  intros N H W _ _ F. discriminate F.
Defined.

Lemma softmax_term_shift (n : nat) (g g' : nat -> R) (d : R) (i : nat) :
  (0 < n)%nat ->
  (forall k, (k < n)%nat -> g' k = g k + d) -> (i < n)%nat ->
  exp (g' i) / sum_n n (fun k => exp (g' k))
  = exp (g i) / sum_n n (fun k => exp (g k)).
Proof.
  intros Hn Hg Hi.
  rewrite (sum_n_ext n (fun k => exp (g' k)) (fun k => exp d * exp (g k))).
  2:{ intros k Hk. rewrite (Hg k Hk), exp_plus. ring. }
  rewrite sum_n_scale, (Hg i Hi), exp_plus.
  pose proof (exp_pos d). pose proof (exp_sum_pos n g Hn).
  field. split; lra.
Qed.

(** X30. In exact real arithmetic (floating-point rounding is not
    modelled), the mixture head of lines 124-126 reads each block of the
    linear output only up to an additive constant: adding, for every sample, one
    constant to the [nClasses] logits of a component, or one constant to the
    [n_components] prior logits, leaves every entry of the output
    unchanged. *)
Theorem mixture_head_shift_invariant (nC K N : nat) (context context' : Tensor)
  (s : nat -> nat -> R) (t : nat -> R) :
  shape context = [N; ((nC + 1) * K)%nat] ->
  shape context' = [N; ((nC + 1) * K)%nat] ->
  (0 < K)%nat -> (0 < nC)%nat ->
  (forall a i j, (a < N)%nat -> (i < K)%nat -> (j < nC)%nat ->
     val context' [a; (i * nC + j)%nat]
     = val context [a; (i * nC + j)%nat] + s a i) ->
  (forall a i, (a < N)%nat -> (i < K)%nat ->
     val context' [a; (K * nC + i)%nat]
     = val context [a; (K * nC + i)%nat] + t a) ->
  exists out out',
    mixture_head nC K context = Ok out /\
    mixture_head nC K context' = Ok out' /\
    shape out = [N; nC] /\ shape out' = [N; nC] /\
    forall a j, (a < N)%nat -> (j < nC)%nat ->
      val out' [a; j] = val out [a; j].
Proof.
  intros Sc Sc' HK HnC Hs Ht.
  destruct (mixture_head_spec nC K N context Sc HK HnC) as (out & E & So & V).
  destruct (mixture_head_spec nC K N context' Sc' HK HnC)
    as (out' & E' & So' & V').
  exists out, out'. repeat (split; [assumption|]).
  intros a j Ha Hj. rewrite (V a j Ha Hj), (V' a j Ha Hj). f_equal.
  unfold mos_mixture. apply sum_n_ext. intros i Hi.
  unfold mos_prior, mos_component. f_equal.
  - apply (softmax_term_shift K
             (fun k => val context [a; (K * nC + k)%nat])
             (fun k => val context' [a; (K * nC + k)%nat]) (t a) i HK);
      [|exact Hi].
    intros k Hk. apply Ht; assumption.
  - apply (softmax_term_shift nC
             (fun l => val context [a; (i * nC + l)%nat])
             (fun l => val context' [a; (i * nC + l)%nat]) (s a i) j HnC);
      [|exact Hj].
    intros l Hl. apply Hs; assumption.
Qed.

Lemma mixture_head_shift_invariant_witness :
  exists out out',
    mixture_head 2 2 (full [1; (2 + 1) * 2]%nat 0) = Ok out /\
    mixture_head 2 2 (full [1; (2 + 1) * 2]%nat 5) = Ok out' /\
    shape out = [1; 2]%nat /\ shape out' = [1; 2]%nat /\
    forall a j, (a < 1)%nat -> (j < 2)%nat ->
      val out' [a; j] = val out [a; j].
Proof.
  apply (mixture_head_shift_invariant 2 2 1 (full [1; (2 + 1) * 2]%nat 0)
           (full [1; (2 + 1) * 2]%nat 5) (fun _ _ => 5) (fun _ => 5)).
  - reflexivity.
  - reflexivity.
  - lia.
  - lia.
  - intros a i j _ _ _. simpl. lra.
  - intros a i _ _. simpl. lra.
Defined.
